(** * docklean: scan / filter / select / clean engine

    A shallow embedding of the TypeScript sources of docklean
    ([docker.ts], [scan.ts], [clean.ts]) and the properties of the
    size codec, the age filter, the size selector and the two
    orchestrators.

    Modelling conventions.
    - A JavaScript string is a [string]; each [ascii] stands for one
      code unit below 256.  Regular expressions are kept as data and run
      by a small backtracking matcher ([rmatch]) with the ECMAScript
      search order (leftmost start, greedy repetition, alternatives
      left to right).
    - A JavaScript number is a [number]: [NaN] or an exact rational.
      The program computes with IEEE doubles; the two agree on the
      integers up to 2^53 and on their sums, differences and products
      that stay in that range.  A decimal fraction, a quotient or a
      product that a double has to round is exact here, so that a
      value rounded afterwards ([Math.round], [toFixed]) can differ
      from the program's by one unit in the last place at a tie
      (0.5005 kB is 501 here and 500 there); and a numeral of 309
      digits or more, which is Infinity for the program, is a finite
      number here.  The statements that depend on the value of a
      number say so: they are given up to that unit, or for inputs
      short or small enough to stay in the range where the two agree.
    - [undefined] is [None].
    - The Docker executable, the clock, [Date.parse], [JSON.parse] and
      [Date.prototype.toISOString] form the [Runtime] the code runs
      against; asynchronous code is written in the monad [M], which
      threads the state of the runtime and the log of the commands that
      were executed, and carries thrown values. *)

From Stdlib Require Import String Ascii Bool Arith ZArith NArith QArith Qround List.
From Stdlib Require Import Lia Lqa Permutation Sorted.
Import ListNotations.

Set Implicit Arguments.

Local Open Scope string_scope.
Local Open Scope list_scope.

(** ** Code units and strings *)

Definition chars (s : string) : list ascii := list_ascii_of_string s.
Definition str (l : list ascii) : string := string_of_list_ascii l.

Definition code (c : ascii) : N := N_of_ascii c.

Definition between (lo hi : N) (c : ascii) : bool :=
  (N.leb lo (code c) && N.leb (code c) hi)%bool.

Definition is_digit (c : ascii) : bool := between 48 57 c.
Definition is_dot (c : ascii) : bool := N.eqb (code c) 46.

(** The class [[0-9.]]. *)
Definition is_mag (c : ascii) : bool := (is_digit c || is_dot c)%bool.

(** The class [[A-Za-z]]. *)
Definition is_alpha (c : ascii) : bool := (between 65 90 c || between 97 122 c)%bool.

(** The class [\s], which is also what [trim] strips: TAB, LF, VT, FF,
    CR, SPACE and NBSP are the white space code units below 256. *)
Definition is_space (c : ascii) : bool :=
  (between 9 13 c || N.eqb (code c) 32 || N.eqb (code c) 160)%bool.

Definition upper (c : ascii) : ascii :=
  if between 97 122 c then ascii_of_N (code c - 32) else c.

(** [String.prototype.toLowerCase] on one code unit: A-Z, and the
    Latin-1 capitals 192..222 but the multiplication sign 215. *)
Definition lower (c : ascii) : ascii :=
  if (between 65 90 c || (between 192 222 c && negb (N.eqb (code c) 215)))%bool
  then ascii_of_N (code c + 32) else c.

Definition toLowerCase (s : list ascii) : list ascii := map lower s.

Fixpoint dropWhile (p : ascii -> bool) (s : list ascii) : list ascii :=
  match s with
  | c :: s' => if p c then dropWhile p s' else s
  | [] => []
  end.

Fixpoint takeWhile (p : ascii -> bool) (s : list ascii) : list ascii :=
  match s with
  | c :: s' => if p c then c :: takeWhile p s' else []
  | [] => []
  end.

(** [String.prototype.trim]. *)
Definition trim (s : list ascii) : list ascii :=
  rev (dropWhile is_space (rev (dropWhile is_space s))).

(** ** Numbers *)

Inductive number : Type :=
| NaN
| Num (q : Q).

Definition num (z : Z) : number := Num (inject_Z z).

Definition js_add (a b : number) : number :=
  match a, b with
  | Num p, Num q => Num (p + q)
  | _, _ => NaN
  end.

Definition js_sub (a b : number) : number :=
  match a, b with
  | Num p, Num q => Num (p - q)
  | _, _ => NaN
  end.

Definition js_mul (a b : number) : number :=
  match a, b with
  | Num p, Num q => Num (p * q)
  | _, _ => NaN
  end.

(** [a >= b]; a comparison with NaN is false. *)
Definition js_ge (a b : number) : bool :=
  match a, b with
  | Num p, Num q => Qle_bool q p
  | _, _ => false
  end.

(** [a > b]. *)
Definition js_gt (a b : number) : bool :=
  match a, b with
  | Num p, Num q => negb (Qle_bool p q)
  | _, _ => false
  end.

(** [a === b] on numbers. *)
Definition js_eq (a b : number) : bool :=
  match a, b with
  | Num p, Num q => Qeq_bool p q
  | _, _ => false
  end.

(** Truthiness of a number: NaN and zero are falsy. *)
Definition truthy (a : number) : bool :=
  match a with
  | NaN => false
  | Num q => negb (Qeq_bool q 0)
  end.

(** Truthiness of an optional number ([undefined] is falsy). *)
Definition truthy_opt (a : option number) : bool :=
  match a with
  | None => false
  | Some x => truthy x
  end.

(** Truthiness of an optional string: [undefined] and the empty string
    are falsy. *)
Definition nonempty (s : option string) : bool :=
  match s with
  | None => false
  | Some EmptyString => false
  | Some _ => true
  end.

(** [a || b] on optional strings. *)
Definition or_else (a b : option string) : option string :=
  if nonempty a then a else b.

(** [a ?? d] and [a || d] with a string default. *)
Definition nullish (a : option string) (d : string) : string :=
  match a with
  | Some s => s
  | None => d
  end.

Definition or_default (a : option string) (d : string) : string :=
  if nonempty a then nullish a d else d.

(** [Math.round]: the nearest integer, halves going up.  The argument
    is the exact value: where the program rounds a product or a
    quotient to a double first, the two results can differ by one at a
    tie. *)
Definition Math_round (a : number) : number :=
  match a with
  | NaN => NaN
  | Num q => num (Qfloor (q + (1 # 2)))
  end.

Definition digit_val (c : ascii) : Z := Z.of_N (code c) - 48.

Definition digits_val (ds : list ascii) : Z :=
  fold_left (fun acc c => 10 * acc + digit_val c)%Z ds 0%Z.

Fixpoint pow10 (k : nat) : positive :=
  match k with
  | O => 1%positive
  | S k' => (10 * pow10 k')%positive
  end.

(** [Number(s)] for the strings that reach it here, which are made of
    digits and dots: a decimal literal with at most one dot and at least
    one digit is its value, the empty string is 0, anything else is
    NaN.  The value is exact: the program has the nearest double, and
    Infinity for a literal of 309 digits or more. *)
Definition js_Number (s : list ascii) : number :=
  let ip := takeWhile is_digit s in
  match dropWhile is_digit s with
  | [] => num (digits_val ip)
  | c :: fp =>
      if (is_dot c && forallb is_digit fp)%bool then
        match ip, fp with
        | [], [] => NaN
        | _, _ => Num (Qmake (digits_val (ip ++ fp)) (pow10 (length fp)))
        end
      else NaN
  end.

(** ** Regular expressions *)

Inductive regex : Type :=
| Eps
| Chr (c : ascii)
| Cls (p : ascii -> bool)
| Seq (r1 r2 : regex)
| Alt (r1 r2 : regex)
| Star (p : ascii -> bool)
| Plus (p : ascii -> bool)
| Grp (r : regex)
| Eos.

(** A literal word. *)
Fixpoint Lit (s : string) : regex :=
  match s with
  | EmptyString => Eps
  | String c s' => Seq (Chr c) (Lit s')
  end.

(** Literal comparison; with the [i] flag both sides are canonicalised,
    which for the ASCII literals of this program is ASCII upper-casing. *)
Definition chr_eq (ci : bool) (c d : ascii) : bool :=
  if ci then Ascii.eqb (upper c) (upper d) else Ascii.eqb c d.

Section Matcher.

Variable R : Type.

(** Greedy repetition of a class: the longest run first, then shorter
    ones while the continuation fails. *)
Fixpoint star (p : ascii -> bool) (s : list ascii)
  (k : list ascii -> list ascii -> option R) : option R :=
  match s with
  | c :: s' =>
      if p c then
        match star p s' (fun m rest => k (c :: m) rest) with
        | Some x => Some x
        | None => k [] s
        end
      else k [] s
  | [] => k [] []
  end.

(** [rmatch ci r s caps k]: match [r] at the head of [s]; the
    continuation receives the matched text, the remaining input and the
    captures closed so far. *)
Fixpoint rmatch (ci : bool) (r : regex) (s : list ascii) (caps : list (list ascii))
  (k : list ascii -> list ascii -> list (list ascii) -> option R) : option R :=
  match r with
  | Eps => k [] s caps
  | Chr c =>
      match s with
      | d :: s' => if chr_eq ci c d then k [d] s' caps else None
      | [] => None
      end
  | Cls p =>
      match s with
      | d :: s' => if p d then k [d] s' caps else None
      | [] => None
      end
  | Seq r1 r2 =>
      rmatch ci r1 s caps (fun m1 s1 caps1 =>
        rmatch ci r2 s1 caps1 (fun m2 s2 caps2 => k (m1 ++ m2) s2 caps2))
  | Alt r1 r2 =>
      match rmatch ci r1 s caps k with
      | Some x => Some x
      | None => rmatch ci r2 s caps k
      end
  | Star p => star p s (fun m rest => k m rest caps)
  | Plus p =>
      match s with
      | d :: s' => if p d then star p s' (fun m rest => k (d :: m) rest caps) else None
      | [] => None
      end
  | Grp r' => rmatch ci r' s caps (fun m rest caps' => k m rest (caps' ++ [m]))
  | Eos =>
      match s with
      | [] => k [] [] caps
      | _ :: _ => None
      end
  end.

End Matcher.

(** The result of one match: the matched text, the captures, and the
    input after the match. *)
Record MatchResult : Type := mkMatch {
  matched : list ascii;
  groups : list (list ascii);
  after : list ascii
}.

Definition exec_at (ci : bool) (r : regex) (s : list ascii) : option MatchResult :=
  rmatch ci r s [] (fun m rest caps => Some (mkMatch m caps rest)).

(** The leftmost match. *)
Fixpoint search (ci : bool) (r : regex) (s : list ascii) : option MatchResult :=
  match exec_at ci r s with
  | Some m => Some m
  | None =>
      match s with
      | [] => None
      | _ :: s' => search ci r s'
      end
  end.

(** [s.match(r)] without the [g] flag: the captures of the leftmost
    match ([group m 1] is the first one). *)
Definition String_match (ci : bool) (r : regex) (s : list ascii) : option MatchResult :=
  search ci r s.

Definition group (m : MatchResult) (i : nat) : list ascii :=
  nth (i - 1) (groups m) [].

(** [s.match(r)] with the [g] flag: the texts of the successive matches,
    each search resuming where the previous match ended (one code unit
    further after an empty match). *)
Fixpoint match_all_from (fuel : nat) (ci : bool) (r : regex) (s : list ascii)
  : list (list ascii) :=
  match fuel with
  | O => []
  | S fuel' =>
      match search ci r s with
      | None => []
      | Some m =>
          matched m ::
          match matched m, after m with
          | [], [] => []
          | [], _ :: rest => match_all_from fuel' ci r rest
          | _ :: _, rest => match_all_from fuel' ci r rest
          end
      end
  end.

Definition String_match_all (ci : bool) (r : regex) (s : list ascii)
  : option (list (list ascii)) :=
  match match_all_from (S (length s)) ci r s with
  | [] => None
  | ms => Some ms
  end.

(** ** docker.ts: the size codec *)

(** [/([0-9.]+)\s*(B|kB|KB|MB|GB|TB)/i] *)
Definition re_units : regex :=
  Alt (Lit "B") (Alt (Lit "kB") (Alt (Lit "KB") (Alt (Lit "MB") (Alt (Lit "GB") (Lit "TB"))))).

Definition re_size : regex :=
  Seq (Grp (Plus is_mag)) (Seq (Star is_space) (Grp re_units)).

Definition multipliers : list (string * number) :=
  [ ("b", num 1);
    ("kb", num 1000);
    ("mb", num (1000 ^ 2));
    ("gb", num (1000 ^ 3));
    ("tb", num (1000 ^ 4)) ].

Fixpoint lookup {A : Type} (k : string) (l : list (string * A)) : option A :=
  match l with
  | [] => None
  | (k', v) :: l' => if String.eqb k k' then Some v else lookup k l'
  end.

Definition multiplier (unit : list ascii) : number :=
  match lookup (str unit) multipliers with
  | Some m => m
  | None => num 1
  end.

Definition parseDockerSize (size : option string) : number :=
  if negb (nonempty size) then num 0
  else
    let trimmed := trim (chars (nullish size "")) in
    match String_match true re_size trimmed with
    | None => num 0
    | Some m =>
        let value := js_Number (group m 1) in
        let unit := toLowerCase (group m 2) in
        Math_round (js_mul value (multiplier unit))
    end.

(** ** types.ts *)

Inductive ResourceType : Type := containers | images | volumes | networks | cache.

Definition ResourceType_eqb (a b : ResourceType) : bool :=
  match a, b with
  | containers, containers | images, images | volumes, volumes
  | networks, networks | cache, cache => true
  | _, _ => false
  end.

(** [Record<ResourceType, A>]: one slot per kind. *)
Record PerKind (A : Type) : Type := mkPerKind {
  at_containers : A;
  at_images : A;
  at_volumes : A;
  at_networks : A;
  at_cache : A
}.

Definition get {A : Type} (r : PerKind A) (t : ResourceType) : A :=
  match t with
  | containers => at_containers r
  | images => at_images r
  | volumes => at_volumes r
  | networks => at_networks r
  | cache => at_cache r
  end.

Definition set {A : Type} (r : PerKind A) (t : ResourceType) (v : A) : PerKind A :=
  match t with
  | containers => mkPerKind v (at_images r) (at_volumes r) (at_networks r) (at_cache r)
  | images => mkPerKind (at_containers r) v (at_volumes r) (at_networks r) (at_cache r)
  | volumes => mkPerKind (at_containers r) (at_images r) v (at_networks r) (at_cache r)
  | networks => mkPerKind (at_containers r) (at_images r) (at_volumes r) v (at_cache r)
  | cache => mkPerKind (at_containers r) (at_images r) (at_volumes r) (at_networks r) v
  end.

Definition every {A : Type} (v : A) : PerKind A := mkPerKind v v v v v.

(** [Record<string, string>], as produced by [JSON.parse]. *)
Definition JsonRecord : Type := list (string * string).

Definition field (r : JsonRecord) (k : string) : option string := lookup k r.

Record ResourceItem : Type := mkItem {
  id : string;
  name : string;
  size : option string;
  createdAt : option string;
  lastUsed : option string;
  raw : option JsonRecord
}.

Record ResourceSummary : Type := mkSummary {
  type : ResourceType;
  label : string;
  items : list ResourceItem;
  reclaimableBytes : option number
}.

Record ScanResult : Type := mkScanResult {
  summaries : list ResourceSummary;
  totalReclaimableBytes : number
}.

Record CleanResult : Type := mkCleanResult {
  removed : PerKind number;
  failures : PerKind (list string);
  reclaimedBytes : number
}.

(** Modelled from the spec: the declaration of [SelectedResources] is
    not part of the sources; it holds the identifiers selected during
    the scan for each kind that has identifiers, and [clean.ts] reads
    it as [selectedIds[type]], tolerating an absent list. *)
Definition SelectedResources : Type := PerKind (option (list string)).

(** ** The runtime and the monad of asynchronous code *)

(** A thrown value: an [Error] object with its message, or any other
    value with its [String(...)] rendering. *)
Inductive JsError : Type :=
| ErrorObj (message : string)
| Thrown (text : string).

Inductive Outcome (A : Type) : Type :=
| Ok (a : A)
| Throw (e : JsError).

Arguments Ok {A} a.
Arguments Throw {A} e.

Class Runtime : Type := {
  World : Type;
  (** running the [docker] executable with arguments: its standard
      output, or a rejection *)
  run_docker : list string -> World -> Outcome string * World;
  (** [Date.now()] *)
  clock : World -> number;
  (** [Date.parse] *)
  Date_parse : string -> number;
  (** [new Date(ms).toISOString()], which throws a RangeError when
      [ms] is not a time value (NaN, or beyond 8.64e15 in magnitude) *)
  toISOString : number -> Outcome string;
  (** [JSON.parse] of one line of [--format '{{json .}}'] output *)
  JSON_parse : string -> Outcome JsonRecord
}.

Record State `{Runtime} : Type := mkState {
  world : World;
  calls : list (list string)
}.

Definition M `{Runtime} (A : Type) : Type := State -> Outcome A * State.

Definition ret `{Runtime} {A : Type} (a : A) : M A := fun st => (Ok a, st).

Definition bind `{Runtime} {A B : Type} (c : M A) (k : A -> M B) : M B :=
  fun st =>
    match c st with
    | (Ok a, st') => k a st'
    | (Throw e, st') => (Throw e, st')
    end.

Definition try_catch `{Runtime} {A : Type} (c : M A) (h : JsError -> M A) : M A :=
  fun st =>
    match c st with
    | (Ok a, st') => (Ok a, st')
    | (Throw e, st') => h e st'
    end.

Definition lift `{Runtime} {A : Type} (o : Outcome A) : M A := fun st => (o, st).

Notation "x <- c ;; k" := (bind c (fun x => k))
  (at level 61, c at next level, right associativity).

Definition Date_now `{Runtime} : M number := fun st => (Ok (clock (world st)), st).

(** [for (const x of xs) { s = body(x, s) }] *)
Fixpoint for_of `{Runtime} {A S : Type} (xs : list A) (body : A -> S -> M S) (s : S) : M S :=
  match xs with
  | [] => ret s
  | x :: xs' => s' <- body x s ;; for_of xs' body s'
  end.

(** ** docker.ts: commands *)

Definition execDocker `{Runtime} (args : list string) : M string :=
  fun st =>
    let (o, w) := run_docker args (world st) in
    (o, {| world := w; calls := calls st ++ [args] |}).

Fixpoint split_on (sep : ascii) (s : list ascii) : list (list ascii) :=
  match s with
  | [] => [[]]
  | c :: s' =>
      if Ascii.eqb c sep then [] :: split_on sep s'
      else
        match split_on sep s' with
        | l :: ls => (c :: l) :: ls
        | [] => [[c]]
        end
  end.

Definition newline : ascii := ascii_of_N 10.

Fixpoint parse_lines `{Runtime} (ls : list (list ascii)) : Outcome (list JsonRecord) :=
  match ls with
  | [] => Ok []
  | l :: ls' =>
      match JSON_parse (str l) with
      | Throw e => Throw e
      | Ok r =>
          match parse_lines ls' with
          | Throw e => Throw e
          | Ok rs => Ok (r :: rs)
          end
      end
  end.

Definition nonblank (l : list ascii) : bool :=
  match l with
  | [] => false
  | _ :: _ => true
  end.

Definition parseDockerJsonLines `{Runtime} (output : string) : Outcome (list JsonRecord) :=
  parse_lines (filter nonblank (map trim (split_on newline (chars output)))).

Definition dockerSystemDf `{Runtime} : M (list JsonRecord) :=
  stdout <- execDocker ["system"; "df"; "--format"; "{{json .}}"] ;;
  lift (parseDockerJsonLines stdout).

Definition dockerPsAll `{Runtime} : M (list JsonRecord) :=
  stdout <- execDocker ["ps"; "-a"; "--format"; "{{json .}}"] ;;
  lift (parseDockerJsonLines stdout).

Definition dockerImages `{Runtime} : M (list JsonRecord) :=
  stdout <- execDocker ["images"; "--digests"; "--format"; "{{json .}}"] ;;
  lift (parseDockerJsonLines stdout).

Definition dockerVolumes `{Runtime} (danglingOnly : bool) : M (list JsonRecord) :=
  let args := ["volume"; "ls"; "--format"; "{{json .}}"] in
  let args := if danglingOnly then args ++ ["--filter"; "dangling=true"] else args in
  stdout <- execDocker args ;;
  lift (parseDockerJsonLines stdout).

Definition dockerNetworks `{Runtime} (danglingOnly : bool) : M (list JsonRecord) :=
  let args := ["network"; "ls"; "--format"; "{{json .}}"] in
  let args := if danglingOnly then args ++ ["--filter"; "dangling=true"] else args in
  stdout <- execDocker args ;;
  lift (parseDockerJsonLines stdout).

(** [if (filterUntil) args.push("--filter", `until=${filterUntil}`)] *)
Definition until_args (filterUntil : option string) : list string :=
  if nonempty filterUntil
  then ["--filter"; String.append "until=" (nullish filterUntil "")]
  else [].

Definition dockerBuilderPruneDryRun `{Runtime} (filterUntil : option string) : M string :=
  let args := ["buildx"; "prune"; "--dry-run"] ++ until_args filterUntil in
  try_catch (execDocker args)
    (fun _ =>
       let fallbackArgs := ["builder"; "prune"; "-f"] ++ until_args filterUntil in
       execDocker fallbackArgs).

Definition pruneBaseArgs (t : ResourceType) (includeAllImages : bool) : list string :=
  match t with
  | containers => ["container"; "prune"; "-f"]
  | images => ["image"; "prune"; "-f"] ++ (if includeAllImages then ["-a"] else [])
  | volumes => ["volume"; "prune"; "-f"; "-a"]
  | networks => ["network"; "prune"; "-f"]
  | cache => ["builder"; "prune"; "-f"]
  end.

Definition dockerPrune `{Runtime} (t : ResourceType) (filterUntil : option string)
  (includeAllImages : bool) : M string :=
  execDocker (pruneBaseArgs t includeAllImages ++ until_args filterUntil).

Definition filterUntilTimestamp `{Runtime} (olderThanMs : option number) : M (option string) :=
  match olderThanMs with
  | None => ret None
  | Some ms =>
      if negb (truthy ms) then ret None
      else
        now <- Date_now ;;
        let cutoff := js_sub now ms in
        iso <- lift (toISOString cutoff) ;;
        ret (Some iso)
  end.

Definition isSystemNetwork (name : string) : bool :=
  existsb (String.eqb name) ["bridge"; "host"; "none"].

Definition dockerRemove `{Runtime} (prefix : list string) (ids : list string) : M string :=
  match ids with
  | [] => ret ""
  | _ :: _ => execDocker (prefix ++ ids)
  end.

Definition dockerRemoveContainers `{Runtime} (containerIds : list string) : M string :=
  dockerRemove ["container"; "rm"; "-f"] containerIds.

Definition dockerRemoveImages `{Runtime} (imageIds : list string) : M string :=
  dockerRemove ["image"; "rm"; "-f"] imageIds.

Definition dockerRemoveVolumes `{Runtime} (volumeNames : list string) : M string :=
  dockerRemove ["volume"; "rm"; "-f"] volumeNames.

Definition dockerRemoveNetworks `{Runtime} (networkIds : list string) : M string :=
  dockerRemove ["network"; "rm"] networkIds.

(** ** scan.ts *)

Record ScanOptions : Type := mkScanOptions {
  includeContainers : bool;
  includeImages : bool;
  includeVolumes : bool;
  includeNetworks : bool;
  includeCache : bool;
  scan_olderThanMs : option number;
  scan_includeAllImages : option bool;
  top : option number;
  limitSpaceBytes : option number
}.

Definition parseCreatedAt (raw : option string) : option string :=
  if nonempty raw then raw else None.

(** The callback of [items.filter] in [applyOlderThan]. *)
Definition createdSince `{Runtime} (cutoff : number) (item : ResourceItem) : bool :=
  if negb (nonempty (createdAt item)) then false
  else
    let created := Date_parse (nullish (createdAt item) "") in
    match created with
    | NaN => false
    | Num _ => js_ge created cutoff
    end.

Definition applyOlderThan `{Runtime} (items : list ResourceItem) (olderThanMs : option number)
  : M (list ResourceItem) :=
  match olderThanMs with
  | None => ret items
  | Some ms =>
      if negb (truthy ms) then ret items
      else
        now <- Date_now ;;
        let cutoff := js_sub now ms in
        ret (filter (createdSince cutoff) items)
  end.

Definition sizeOf (item : ResourceItem) : number := parseDockerSize (size item).

(** The comparator of [sortBySize]: [sizeB - sizeA]. *)
Definition bySizeDesc (a b : ResourceItem) : number :=
  let sizeA := sizeOf a in
  let sizeB := sizeOf b in
  js_sub sizeB sizeA.

(** [Array.prototype.sort] is a stable sort: [a] is moved behind [b]
    only when the comparator is positive on [(a, b)]; a comparator
    result that is NaN counts as 0.  When the comparator is a
    consistent ordering every stable sort returns the list computed
    here by insertion.  When it is not (a size that parses to NaN),
    ECMAScript leaves the order to the engine: the insertion below
    gives the order of V8 on the lists of two and three items of the
    examples with a NaN size, and need not on longer lists. *)
Fixpoint sort_insert {A : Type} (cmp : A -> A -> number) (x : A) (l : list A) : list A :=
  match l with
  | [] => [x]
  | y :: l' => if js_gt (cmp x y) (num 0) then y :: sort_insert cmp x l' else x :: l
  end.

Definition Array_sort {A : Type} (cmp : A -> A -> number) (l : list A) : list A :=
  fold_right (sort_insert cmp) [] l.

Definition sortBySize (items : list ResourceItem) : list ResourceItem :=
  Array_sort bySizeDesc items.

(** [ToIntegerOrInfinity]: NaN is 0, other numbers are truncated. *)
Definition ToInteger (n : number) : Z :=
  match n with
  | NaN => 0%Z
  | Num q => if Qle_bool 0 q then Qfloor q else Qceiling q
  end.

(** [l.slice(0, n)]: a negative end counts from the end of the list. *)
Definition slice0 {A : Type} (l : list A) (n : number) : list A :=
  let len := Z.of_nat (length l) in
  let rel := ToInteger n in
  let final := if (rel <? 0)%Z then Z.max (len + rel) 0 else Z.min rel len in
  firstn (Z.to_nat final) l.

Definition selectTopN (items : list ResourceItem) (n : number) : list ResourceItem :=
  slice0 items n.

(** The loop of [selectUntilSpaceLimit], with its two variables. *)
Fixpoint selectLoop (items selected : list ResourceItem) (totalBytes limitBytes : number)
  : list ResourceItem :=
  match items with
  | [] => selected
  | item :: rest =>
      let selected := selected ++ [item] in
      let totalBytes := js_add totalBytes (sizeOf item) in
      if js_ge totalBytes limitBytes then selected
      else selectLoop rest selected totalBytes limitBytes
  end.

Definition selectUntilSpaceLimit (items : list ResourceItem) (limitBytes : number)
  : list ResourceItem :=
  selectLoop items [] (num 0) limitBytes.

Definition applySizeFilters (items : list ResourceItem) (top limitSpaceBytes : option number)
  : list ResourceItem :=
  if (negb (truthy_opt top) && negb (truthy_opt limitSpaceBytes))%bool then items
  else
    let sorted := sortBySize items in
    match top with
    | Some n => selectTopN sorted n
    | None =>
        match limitSpaceBytes with
        | Some limit => selectUntilSpaceLimit sorted limit
        | None => sorted
        end
    end.

(** [filtered.reduce((sum, item) => sum + parseDockerSize(item.size), 0)] *)
Definition sumSizes (l : list ResourceItem) : number :=
  fold_left (fun sum item => js_add sum (sizeOf item)) l (num 0).

Definition is_true (b : option bool) : bool :=
  match b with
  | Some true => true
  | _ => false
  end.

Definition stoppedState (container : JsonRecord) : bool :=
  let state :=
    match field container "State" with
    | Some s => str (toLowerCase (chars s))
    | None => ""
    end in
  existsb (String.eqb state) ["exited"; "dead"].

Definition containerItem (container : JsonRecord) : ResourceItem :=
  {| id := or_default (or_else (field container "ID") (field container "ContainerID")) "";
     name := or_default (or_else (field container "Names") (field container "Name")) "";
     size := Some (or_default (field container "Size") "");
     createdAt := parseCreatedAt (field container "CreatedAt");
     lastUsed := or_else (field container "RunningFor") (field container "Status");
     raw := Some container |}.

Definition danglingImage (image : JsonRecord) : bool :=
  (String.eqb (nullish (field image "Repository") "") "<none>"
   || String.eqb (nullish (field image "Tag") "") "<none>")%bool.

Definition imageItem (image : JsonRecord) : ResourceItem :=
  {| id := or_default (field image "ID") "";
     name := String.append (nullish (field image "Repository") "")
               (String.append ":" (nullish (field image "Tag") ""));
     size := Some (or_default (field image "Size") "");
     createdAt := parseCreatedAt (field image "CreatedAt");
     lastUsed := field image "CreatedSince";
     raw := Some image |}.

Definition volumeItem (volume : JsonRecord) : ResourceItem :=
  {| id := or_default (or_else (field volume "Name") (field volume "Driver")) "";
     name := or_default (field volume "Name") "";
     size := Some "";
     createdAt := parseCreatedAt (field volume "CreatedAt");
     lastUsed := None;
     raw := Some volume |}.

Definition networkItem (network : JsonRecord) : ResourceItem :=
  {| id := or_default (field network "ID") "";
     name := or_default (field network "Name") "";
     size := Some "";
     createdAt := parseCreatedAt (field network "CreatedAt");
     lastUsed := None;
     raw := Some network |}.

(** [/Total reclaimable:\s*([0-9.]+\s*[A-Za-z]+)/i] *)
Definition re_reclaimable : regex :=
  Seq (Lit "Total reclaimable:")
      (Seq (Star is_space)
           (Grp (Seq (Plus is_mag) (Seq (Star is_space) (Plus is_alpha))))).

(** The two variables of [scanResources]. *)
Definition push_summary (acc : ScanResult) (s : ResourceSummary) (bytes : number) : ScanResult :=
  {| summaries := summaries acc ++ [s];
     totalReclaimableBytes := js_add (totalReclaimableBytes acc) bytes |}.

Definition push_unsized (acc : ScanResult) (s : ResourceSummary) : ScanResult :=
  {| summaries := summaries acc ++ [s];
     totalReclaimableBytes := totalReclaimableBytes acc |}.

Definition scanContainers `{Runtime} (options : ScanOptions) (acc : ScanResult) : M ScanResult :=
  rawContainers <- dockerPsAll ;;
  let containers_ := map containerItem (filter stoppedState rawContainers) in
  filtered <- applyOlderThan containers_ (scan_olderThanMs options) ;;
  let filtered := applySizeFilters filtered (top options) (limitSpaceBytes options) in
  let reclaimableBytes := sumSizes filtered in
  ret (push_summary acc
         {| type := containers; label := "Stopped containers";
            items := filtered; reclaimableBytes := Some reclaimableBytes |}
         reclaimableBytes).

Definition scanImages `{Runtime} (options : ScanOptions) (acc : ScanResult) : M ScanResult :=
  rawImages <- dockerImages ;;
  let all := is_true (scan_includeAllImages options) in
  let images_ := map imageItem (filter (fun image => if all then true else danglingImage image) rawImages) in
  filtered <- applyOlderThan images_ (scan_olderThanMs options) ;;
  let filtered := applySizeFilters filtered (top options) (limitSpaceBytes options) in
  let reclaimableBytes := sumSizes filtered in
  ret (push_summary acc
         {| type := images; label := if all then "Unused images" else "Dangling images";
            items := filtered; reclaimableBytes := Some reclaimableBytes |}
         reclaimableBytes).

Definition scanVolumes `{Runtime} (options : ScanOptions) (acc : ScanResult) : M ScanResult :=
  rawVolumes <- dockerVolumes true ;;
  let volumes_ := map volumeItem rawVolumes in
  filtered <- applyOlderThan volumes_ (scan_olderThanMs options) ;;
  ret (push_unsized acc
         {| type := volumes; label := "Unused volumes";
            items := filtered; reclaimableBytes := Some (num 0) |}).

Definition scanNetworks `{Runtime} (options : ScanOptions) (acc : ScanResult) : M ScanResult :=
  rawNetworks <- dockerNetworks true ;;
  let networks_ :=
    map networkItem
      (filter (fun network => negb (isSystemNetwork (nullish (field network "Name") ""))) rawNetworks) in
  filtered <- applyOlderThan networks_ (scan_olderThanMs options) ;;
  ret (push_unsized acc
         {| type := networks; label := "Unused networks";
            items := filtered; reclaimableBytes := Some (num 0) |}).

Definition scanCache `{Runtime} (options : ScanOptions) (acc : ScanResult) : M ScanResult :=
  filterUntil <- filterUntilTimestamp (scan_olderThanMs options) ;;
  dryRunOutput <- dockerBuilderPruneDryRun filterUntil ;;
  let reclaimableBytes :=
    match String_match true re_reclaimable (chars dryRunOutput) with
    | Some m => parseDockerSize (Some (str (group m 1)))
    | None => num 0
    end in
  ret (push_summary acc
         {| type := cache; label := "Builder cache";
            items := []; reclaimableBytes := Some reclaimableBytes |}
         reclaimableBytes).

(** The kinds in the fixed order of [scanResources], before the
    disk-usage fallback. *)
Definition scanKinds `{Runtime} (options : ScanOptions) : M ScanResult :=
  let acc := {| summaries := []; totalReclaimableBytes := num 0 |} in
  acc <- (if includeContainers options then scanContainers options acc else ret acc) ;;
  acc <- (if includeImages options then scanImages options acc else ret acc) ;;
  acc <- (if includeVolumes options then scanVolumes options acc else ret acc) ;;
  acc <- (if includeNetworks options then scanNetworks options acc else ret acc) ;;
  (if includeCache options then scanCache options acc else ret acc).

(** [if (totalReclaimableBytes === 0) { ... dockerSystemDf ... }] *)
Definition dfFallback `{Runtime} (acc : ScanResult) : M ScanResult :=
  if js_eq (totalReclaimableBytes acc) (num 0) then
    df <- dockerSystemDf ;;
    match find (fun row => nonempty (field row "Reclaimable")) df with
    | Some reclaimable =>
        ret {| summaries := summaries acc;
               totalReclaimableBytes := parseDockerSize (field reclaimable "Reclaimable") |}
    | None => ret acc
    end
  else ret acc.

Definition scanResources `{Runtime} (options : ScanOptions) : M ScanResult :=
  acc <- scanKinds options ;;
  dfFallback acc.

(** ** clean.ts *)

Record CleanOptions : Type := mkCleanOptions {
  resources : list ResourceType;
  olderThanMs : option number;
  dryRun : bool;
  includeAllImages : bool;
  expectedCounts : PerKind number;
  selectedIds : option SelectedResources;
  estimatedBytes : option (PerKind number)
}.

(** [a || b] on numbers. *)
Definition num_or (a b : number) : number := if truthy a then a else b.

(** [/Deleted (?:Containers|Images|Volumes|Networks):\s*([0-9]+)/gi] *)
Definition re_deleted : regex :=
  Seq (Lit "Deleted ")
      (Seq (Alt (Lit "Containers") (Alt (Lit "Images") (Alt (Lit "Volumes") (Lit "Networks"))))
           (Seq (Lit ":") (Seq (Star is_space) (Grp (Plus is_digit))))).

(** [/([0-9]+)$/] *)
Definition re_trailing_digits : regex := Seq (Grp (Plus is_digit)) Eos.

(** [/Total reclaimed space:\s*([0-9.]+\s*[A-Za-z]+)/i] *)
Definition re_reclaimed : regex :=
  Seq (Lit "Total reclaimed space:")
      (Seq (Star is_space)
           (Grp (Seq (Plus is_mag) (Seq (Star is_space) (Plus is_alpha))))).

Definition lineCount (line : list ascii) : number :=
  match String_match false re_trailing_digits line with
  | Some m => js_Number (group m 1)
  | None => num 0
  end.

Definition parsePrunedCount (output : string) : number :=
  match String_match_all true re_deleted (chars output) with
  | None => num 0
  | Some countMatches =>
      fold_left (fun sum line => js_add sum (lineCount line)) countMatches (num 0)
  end.

Definition parseReclaimedBytes (output : string) : number :=
  match String_match true re_reclaimed (chars output) with
  | None => num 0
  | Some m => parseDockerSize (Some (str (group m 1)))
  end.

(** [error instanceof Error ? error.message : String(error)] *)
Definition errorText (e : JsError) : string :=
  match e with
  | ErrorObj message => message
  | Thrown text => text
  end.

Definition noneRemoved : CleanResult :=
  {| removed := every (num 0); failures := every []; reclaimedBytes := num 0 |}.

Definition push_failure (acc : CleanResult) (t : ResourceType) (msg : string) : CleanResult :=
  {| removed := removed acc;
     failures := set (failures acc) t (get (failures acc) t ++ [msg]);
     reclaimedBytes := reclaimedBytes acc |}.

(** The two assignments that follow a prune:
    [removed[type] = parsePrunedCount(output) || options.expectedCounts[type]]
    and [reclaimedBytes += parseReclaimedBytes(output)]. *)
Definition recordPrune (options : CleanOptions) (t : ResourceType) (output : string)
  (acc : CleanResult) : CleanResult :=
  {| removed := set (removed acc) t
                  (num_or (parsePrunedCount output) (get (expectedCounts options) t));
     failures := failures acc;
     reclaimedBytes := js_add (reclaimedBytes acc) (parseReclaimedBytes output) |}.

(** [removed[type] = ids.length] followed by
    [if (options.estimatedBytes) reclaimedBytes += options.estimatedBytes[type] || 0]. *)
Definition recordRemoval (options : CleanOptions) (t : ResourceType) (ids : list string)
  (acc : CleanResult) : CleanResult :=
  {| removed := set (removed acc) t (num (Z.of_nat (length ids)));
     failures := failures acc;
     reclaimedBytes :=
       match estimatedBytes options with
       | Some est => js_add (reclaimedBytes acc) (num_or (get est t) (num 0))
       | None => reclaimedBytes acc
       end |}.

(** The [switch (type)] of the identifier branch. *)
Definition removeSelected `{Runtime} (t : ResourceType) (ids : list string) : M (option string) :=
  match t with
  | containers => output <- dockerRemoveContainers ids ;; ret (Some output)
  | images => output <- dockerRemoveImages ids ;; ret (Some output)
  | volumes => output <- dockerRemoveVolumes ids ;; ret (Some output)
  | networks => output <- dockerRemoveNetworks ids ;; ret (Some output)
  | cache => ret None
  end.

(** The body of the [try] block for one kind. *)
Definition cleanBody `{Runtime} (options : CleanOptions) (filterUntil : option string)
  (useBulkPrune : bool) (t : ResourceType) (acc : CleanResult) : M CleanResult :=
  if useBulkPrune then
    output <- dockerPrune t filterUntil
                (includeAllImages options && ResourceType_eqb t images)%bool ;;
    ret (recordPrune options t output acc)
  else
    if ResourceType_eqb t cache then
      output <- dockerPrune t filterUntil false ;;
      ret (recordPrune options t output acc)
    else
      let ids :=
        match selectedIds options with
        | Some sel => get sel t
        | None => None
        end in
      match ids with
      | Some (i :: l) =>
          done <- removeSelected t (i :: l) ;;
          match done with
          | Some _ => ret (recordRemoval options t (i :: l) acc)
          | None =>
              ret match estimatedBytes options with
                  | Some est =>
                      {| removed := removed acc; failures := failures acc;
                         reclaimedBytes :=
                           js_add (reclaimedBytes acc) (num_or (get est t) (num 0)) |}
                  | None => acc
                  end
          end
      | _ => ret acc
      end.

(** One iteration of the loop: the [try] block and its [catch]. *)
Definition cleanKind `{Runtime} (options : CleanOptions) (filterUntil : option string)
  (useBulkPrune : bool) (t : ResourceType) (acc : CleanResult) : M CleanResult :=
  try_catch (cleanBody options filterUntil useBulkPrune t acc)
    (fun error => ret (push_failure acc t (errorText error))).

Definition is_none {A : Type} (o : option A) : bool :=
  match o with
  | None => true
  | Some _ => false
  end.

Definition cleanResources `{Runtime} (options : CleanOptions) : M CleanResult :=
  if dryRun options then ret noneRemoved
  else
    filterUntil <- filterUntilTimestamp (olderThanMs options) ;;
    let useBulkPrune := is_none (selectedIds options) in
    for_of (resources options) (cleanKind options filterUntil useBulkPrune) noneRemoved.

(** The earlier [clean.ts], which only knows the bulk prune. *)
Module PruneOnly.

Record CleanOptions : Type := mkCleanOptions {
  resources : list ResourceType;
  olderThanMs : option number;
  dryRun : bool;
  includeAllImages : bool;
  expectedCounts : PerKind number
}.

Definition recordPrune (options : CleanOptions) (t : ResourceType) (output : string)
  (acc : CleanResult) : CleanResult :=
  {| removed := set (removed acc) t
                  (num_or (parsePrunedCount output) (get (expectedCounts options) t));
     failures := failures acc;
     reclaimedBytes := js_add (reclaimedBytes acc) (parseReclaimedBytes output) |}.

Definition cleanBody `{Runtime} (options : CleanOptions) (filterUntil : option string)
  (t : ResourceType) (acc : CleanResult) : M CleanResult :=
  output <- dockerPrune t filterUntil
              (includeAllImages options && ResourceType_eqb t images)%bool ;;
  ret (recordPrune options t output acc).

Definition cleanKind `{Runtime} (options : CleanOptions) (filterUntil : option string)
  (t : ResourceType) (acc : CleanResult) : M CleanResult :=
  try_catch (cleanBody options filterUntil t acc)
    (fun error => ret (push_failure acc t (errorText error))).

Definition cleanResources `{Runtime} (options : CleanOptions) : M CleanResult :=
  if dryRun options then ret noneRemoved
  else
    filterUntil <- filterUntilTimestamp (olderThanMs options) ;;
    for_of (resources options) (cleanKind options filterUntil) noneRemoved.

End PruneOnly.

(** ** docker.ts: the remaining functions *)

Record DockerCheck : Type := mkDockerCheck {
  ok : bool;
  exit_code : Z;
  check_message : string
}.

(** [try { await execDocker(args) } catch { ... }]: whether the command
    went through. *)
Definition succeeds `{Runtime} (args : list string) : M bool :=
  try_catch (_ <- execDocker args ;; ret true) (fun _ => ret false).

Definition checkDocker `{Runtime} : M DockerCheck :=
  version <- succeeds ["--version"] ;;
  if negb version then ret (mkDockerCheck false 1 "Docker CLI not found.")
  else
    info <- succeeds ["info"] ;;
    if negb info then ret (mkDockerCheck false 2 "Docker daemon is not running.")
    else ret (mkDockerCheck true 0 "Docker is available.").

Definition buildPruneArgs (t : ResourceType) (filterUntil : option string)
  (includeAllImages : bool) : list string :=
  let args := ["docker"] in
  let args :=
    match t with
    | containers => args ++ ["container"; "prune"; "-f"]
    | images => (args ++ ["image"; "prune"; "-f"]) ++ (if includeAllImages then ["-a"] else [])
    | volumes => args ++ ["volume"; "prune"; "-f"; "-a"]
    | networks => args ++ ["network"; "prune"; "-f"]
    | cache => args ++ ["builder"; "prune"; "-f"]
    end in
  args ++ until_args filterUntil.

Definition buildCachePruneArgs (filterUntil : option string) : list string :=
  ["docker"; "builder"; "prune"; "-f"] ++ until_args filterUntil.

(** [a <= b] and [a < b]; a comparison with NaN is false. *)
Definition js_le (a b : number) : bool := js_ge b a.
Definition js_lt (a b : number) : bool := js_gt b a.

(** [a / b] for a divisor that is not zero (a zero divisor does not
    occur in this program and is read as NaN). *)
Definition js_div (a b : number) : number :=
  match a, b with
  | Num p, Num q => if Qeq_bool q 0 then NaN else Num (p / q)
  | _, _ => NaN
  end.

Definition digit_char (d : Z) : ascii := ascii_of_N (Z.to_N (48 + d)).

(** The decimal digits of a non-negative integer, most significant
    first, pushed in front of [acc]. *)
Fixpoint digits_of (fuel : nat) (n : Z) (acc : list ascii) : list ascii :=
  match fuel with
  | O => acc
  | S fuel' =>
      let acc := digit_char (n mod 10) :: acc in
      if (n <? 10)%Z then acc else digits_of fuel' (n / 10) acc
  end.

Definition natural_digits (n : Z) : list ascii :=
  digits_of (S (Z.to_nat (Z.log2 n))) n [].

(** [String(n)] for an integer, below the 1e21 from which JavaScript
    switches to the exponent notation. *)
Definition integer_text (n : Z) : list ascii :=
  if (n <? 0)%Z then "-"%char :: natural_digits (- n) else natural_digits n.

(** [`${Math.round(value)}`] *)
Definition rounded_text (value : number) : list ascii :=
  match value with
  | NaN => chars "NaN"
  | Num q => integer_text (Qfloor (q + (1 # 2)))
  end.

(** [value.toFixed(1)], below 1e21: the nearest multiple of one tenth,
    halves going up in magnitude, written with one decimal.  The
    argument is the exact quotient: at a tie the program, which has
    the nearest double, can print the tenth below (1150 bytes are
    "1.2 KB" here and "1.1 KB" there). *)
Definition toFixed1 (value : number) : list ascii :=
  match value with
  | NaN => chars "NaN"
  | Num q =>
      let negative := negb (Qle_bool 0 q) in
      let tenths := Qfloor ((if negative then - q else q) * 10 + (1 # 2)) in
      (if negative then ["-"%char] else [])
        ++ natural_digits (tenths / 10) ++ "."%char :: natural_digits (tenths mod 10)
  end.

Definition units : list string := ["B"; "KB"; "MB"; "GB"; "TB"].

(** The loop of [formatBytes]; [steps] is the number of units left
    above [unitIndex], so that [unitIndex < units.length - 1] reads
    [steps > 0]. *)
Fixpoint scaleLoop (steps : nat) (value : number) (unitIndex : nat) : number * nat :=
  match steps with
  | O => (value, unitIndex)
  | S steps' =>
      if js_ge value (num 1000)
      then scaleLoop steps' (js_div value (num 1000)) (S unitIndex)
      else (value, unitIndex)
  end.

Definition formatBytes (bytes : number) : string :=
  if js_le bytes (num 0) then "0 B"
  else
    let (value, unitIndex) := scaleLoop (length units - 1) bytes 0 in
    let unit := nth unitIndex units "" in
    if ((0 <? unitIndex)%nat && js_lt value (num 10))%bool
    then str (toFixed1 value ++ " "%char :: chars unit)
    else str (rounded_text value ++ " "%char :: chars unit).

Definition summarizeScan (result : ScanResult) : string :=
  String.append "Estimated reclaimable: " (formatBytes (totalReclaimableBytes result)).

Definition toExitCode (code : option number) : Z :=
  match code with
  | None => 0%Z
  | Some c => if (negb (truthy c) || js_eq c (num 0))%bool then 0%Z else 4%Z
  end.

(** ** index.ts *)

Record CliOptions : Type := mkCliOptions {
  opt_containers : bool;
  opt_images : bool;
  opt_volumes : bool;
  opt_networks : bool;
  opt_cache : bool;
  opt_dangling : bool;
  opt_all : bool
}.

Definition resolveResources (options : CliOptions) : list ResourceType :=
  if opt_all options then [containers; images; volumes; networks; cache]
  else if opt_dangling options then [containers; images; volumes]
  else
    let selected :=
      (if opt_containers options then [containers] else [])
        ++ (if opt_images options then [images] else [])
        ++ (if opt_volumes options then [volumes] else [])
        ++ (if opt_networks options then [networks] else [])
        ++ (if opt_cache options then [cache] else []) in
    match selected with
    | [] => [containers; images; volumes; networks; cache]
    | _ :: _ => selected
    end.

(** The flags of [scanResources] as [run] derives them from the
    resolved kinds. *)
Definition includes (resources : list ResourceType) (t : ResourceType) : bool :=
  existsb (ResourceType_eqb t) resources.

(** [scanResult.summaries.reduce((acc, summary) => { acc[summary.type] =
    summary.items.length; return acc }, zeros)] in [run]. *)
Definition expectedCountsOf (l : list ResourceSummary) : PerKind number :=
  fold_left (fun acc summary => set acc (type summary) (num (Z.of_nat (length (items summary)))))
    l (every (num 0)).

(** ** A runtime for the examples

    Docker answers from a script, one outcome per command; records are
    written [key=value,key=value]; timestamps are written as their
    millisecond count. *)

Definition demo_pair (l : list ascii) : string * string :=
  match split_on "="%char l with
  | k :: v :: _ => (str k, str v)
  | k :: [] => (str k, "")
  | [] => ("", "")
  end.

Definition demo_record (s : string) : Outcome JsonRecord :=
  Ok (map demo_pair (split_on ","%char (chars s))).

Definition demo_date (s : string) : number :=
  if forallb is_digit (chars s) then js_Number (chars s) else NaN.

Definition demo_docker (args : list string) (w : list (Outcome string))
  : Outcome string * list (Outcome string) :=
  match w with
  | o :: w' => (o, w')
  | [] => (Throw (ErrorObj "Unmocked docker command"), [])
  end.

Definition demo : Runtime :=
  {| World := list (Outcome string);
     run_docker := demo_docker;
     clock := fun _ => num 1000000;
     Date_parse := demo_date;
     toISOString := fun _ => Ok "2024-01-14T12:00:00.000Z";
     JSON_parse := demo_record |}.

Definition demo_state (script : list (Outcome string)) : @State demo :=
  @mkState demo script [].

Definition item_of_size (n s : string) : ResourceItem :=
  {| id := n; name := n; size := Some s; createdAt := None; lastUsed := None; raw := None |}.

Definition item_created (n : string) (c : option string) : ResourceItem :=
  {| id := n; name := n; size := Some ""; createdAt := c; lastUsed := None; raw := None |}.

(** A scan of the five kinds with [top = 1], for the examples. *)
Definition demo_scan_options : ScanOptions :=
  mkScanOptions true true true true true None None (Some (num 1)) None.

Definition demo_scan_script : list (Outcome string) :=
  [ Ok "ID=c1,State=Exited,Size=2MB
ID=c2,State=running,Size=5MB
ID=c3,State=dead,Size=3MB";
    Ok "ID=i1,Repository=<none>,Tag=<none>,Size=10MB
ID=i2,Repository=nginx,Tag=latest,Size=20MB";
    Ok "Name=v1";
    Ok "ID=n1,Name=bridge
ID=n2,Name=custom";
    Ok "Total reclaimable: 3MB" ].

Definition demo_scanned : ScanResult :=
  Eval vm_compute in
    match fst (@scanResources demo demo_scan_options (demo_state demo_scan_script)) with
    | Ok r => r
    | Throw _ => mkScanResult [] NaN
    end.

Definition demo_scanned_state : @State demo :=
  Eval vm_compute in
    snd (@scanResources demo demo_scan_options (demo_state demo_scan_script)).

Definition no_summary : ResourceSummary := mkSummary cache "" [] None.

Definition demo_summary (i : nat) : ResourceSummary := nth i (summaries demo_scanned) no_summary.

Definition demo_item (i : nat) : ResourceItem :=
  hd (item_of_size "" "") (items (demo_summary i)).

(** ** Vocabulary of the statements *)

Definition with_olderThanMs (options : CleanOptions) (ms : option number) : CleanOptions :=
  {| resources := resources options;
     olderThanMs := ms;
     dryRun := dryRun options;
     includeAllImages := includeAllImages options;
     expectedCounts := expectedCounts options;
     selectedIds := selectedIds options;
     estimatedBytes := estimatedBytes options |}.

(** An item passes the age filter with cut-off [cutoff]: its
    [createdAt] is present, parses to a point in time, and that point
    is at or after the cut-off. *)
Definition createdAtOrAfter `{Runtime} (cutoff : number) (item : ResourceItem) : Prop :=
  exists c created k,
    createdAt item = Some c /\ c <> "" /\
    Date_parse c = Num created /\ cutoff = Num k /\ (k <= created)%Q.

(** The options of the earlier [clean.ts], read as options of the
    current one: no identifiers, no estimates. *)
Definition upgrade (o : PruneOnly.CleanOptions) : CleanOptions :=
  {| resources := PruneOnly.resources o;
     olderThanMs := PruneOnly.olderThanMs o;
     dryRun := PruneOnly.dryRun o;
     includeAllImages := PruneOnly.includeAllImages o;
     expectedCounts := PruneOnly.expectedCounts o;
     selectedIds := None;
     estimatedBytes := None |}.

(** The command line of a removal by identifiers. *)
Definition removeCommand (t : ResourceType) (ids : list string) : list string :=
  match t with
  | containers => ["container"; "rm"; "-f"] ++ ids
  | images => ["image"; "rm"; "-f"] ++ ids
  | volumes => ["volume"; "rm"; "-f"] ++ ids
  | networks => ["network"; "rm"] ++ ids
  | cache => []
  end.

(** What one kind of the clean-up loop may change: the removed count of
    that kind only, and failure lists only by appending. *)
Definition extends (acc acc' : CleanResult) (t : ResourceType) : Prop :=
  (forall k, k <> t -> get (removed acc') k = get (removed acc) k)
  /\ (forall k, exists more, get (failures acc') k = get (failures acc) k ++ more).

(** The estimate of one summary, and the sum of the estimates of a list
    of summaries, added in their order. *)
Definition estimate (s : ResourceSummary) : number :=
  match reclaimableBytes s with
  | Some b => b
  | None => num 0
  end.

Definition sumEstimates (l : list ResourceSummary) : number :=
  fold_left (fun sum s => js_add sum (estimate s)) l (num 0).

(** The figure of the disk-usage summary: the [Reclaimable] field of
    the first row that has one. *)
Definition dfFigure (df : list JsonRecord) : option number :=
  match find (fun row => nonempty (field row "Reclaimable")) df with
  | Some reclaimable => Some (parseDockerSize (field reclaimable "Reclaimable"))
  | None => None
  end.

(** The size string of an item parses to a number. *)
Definition hasSize (item : ResourceItem) : Prop := exists q, sizeOf item = Num q.

(** [a] is at least as large as [b], by parsed size. *)
Definition sizeGe (a b : ResourceItem) : Prop := js_ge (sizeOf a) (sizeOf b) = true.

(** The items of parsed size [v]. *)
Definition ofSize (v : number) (item : ResourceItem) : bool := js_eq (sizeOf item) v.

(** The total kept by the scan is the sum of the estimates pushed so
    far. *)
Definition totalled (acc : ScanResult) : Prop :=
  totalReclaimableBytes acc = sumEstimates (summaries acc).

(** The running total of [selectUntilSpaceLimit] after the items of
    [l], starting from [total]. *)
Definition sumFrom (total : number) (l : list ResourceItem) : number :=
  fold_left (fun sum item => js_add sum (sizeOf item)) l total.

(** A unit word: B, kB, KB, MB, GB or TB in any letter case. *)
Definition unitWord (u : list ascii) : Prop :=
  In (map upper u) [chars "B"; chars "KB"; chars "MB"; chars "GB"; chars "TB"].

(** A magnitude, white space and a unit: a non-empty run of digits and
    dots, any run of white space, a unit word. *)
Definition sizeParts (mag ws u : list ascii) : Prop :=
  mag <> [] /\ forallb is_mag mag = true /\ forallb is_space ws = true /\ unitWord u.

(** A magnitude followed by a unit starts at the head of [t]. *)
Definition sizeStartsAt (t : list ascii) : Prop :=
  exists mag ws u post, t = mag ++ ws ++ u ++ post /\ sizeParts mag ws u.

Definition isB (c : ascii) : bool := Ascii.eqb "B" (upper c).

Definition unitInitial (c : ascii) : bool :=
  existsb (fun i => Ascii.eqb i (upper c)) ["K"; "M"; "G"; "T"]%char.

(** The unit word at the head of [s], with what follows it. *)
Definition unit_prefix (s : list ascii) : option (list ascii * list ascii) :=
  match s with
  | c :: r =>
      if isB c then Some ([c], r)
      else
        match r with
        | d :: r' => if (unitInitial c && isB d)%bool then Some ([c; d], r') else None
        | [] => None
        end
  | [] => None
  end.

(** The size pattern read without backtracking: the longest run of
    digits and dots, the longest run of white space, a unit word. *)
Definition scan_size (s : list ascii) : option MatchResult :=
  match s with
  | d :: s' =>
      if is_mag d then
        let mag := d :: takeWhile is_mag s' in
        let r1 := dropWhile is_mag s' in
        let ws := takeWhile is_space r1 in
        let r2 := dropWhile is_space r1 in
        match unit_prefix r2 with
        | Some (u, post) => Some (mkMatch (mag ++ ws ++ u) [mag; u] post)
        | None => None
        end
      else None
  | [] => None
  end.

(** Run the first [bind] of a computation known to return. *)
Ltac run_bind H :=
  match type of H with
  | bind ?c _ ?st = _ =>
      let o := fresh "o" in
      let st1 := fresh "st" in
      let Hc := fresh "Hc" in
      unfold bind at 1 in H;
      destruct (c st) as [[o|?] st1] eqn:Hc; [|discriminate H]
  end.

(** The commands one kind of a clean-up run executes, as the request
    fixes them: the prune of the kind on the bulk path and for cache,
    the removal of the selected identifiers otherwise, nothing for an
    empty or absent identifier list. *)
Definition plannedCommands (options : CleanOptions) (filterUntil : option string)
  (t : ResourceType) : list (list string) :=
  match selectedIds options with
  | None =>
      [pruneBaseArgs t (includeAllImages options && ResourceType_eqb t images)%bool
         ++ until_args filterUntil]
  | Some sel =>
      if ResourceType_eqb t cache then [pruneBaseArgs t false ++ until_args filterUntil]
      else
        match get sel t with
        | Some (i :: l) => [removeCommand t (i :: l)]
        | _ => []
        end
  end.

(** Outcomes of two outputs parsed one after the other. *)
Definition both_parsed (a b : Outcome (list JsonRecord)) : Outcome (list JsonRecord) :=
  match a with
  | Throw e => Throw e
  | Ok ra =>
      match b with
      | Throw e => Throw e
      | Ok rb => Ok (ra ++ rb)
      end
  end.

(** The flags of a scan of the kinds [resources]. *)
Definition scanOptionsFor (resources : list ResourceType) (ms : option number)
  (all : option bool) (top limit : option number) : ScanOptions :=
  {| includeContainers := includes resources containers;
     includeImages := includes resources images;
     includeVolumes := includes resources volumes;
     includeNetworks := includes resources networks;
     includeCache := includes resources cache;
     scan_olderThanMs := ms;
     scan_includeAllImages := all;
     top := top;
     limitSpaceBytes := limit |}.

(** The kinds a scan was asked for, in the order it visits them. *)
Definition requestedKinds (options : ScanOptions) : list ResourceType :=
  (if includeContainers options then [containers] else [])
    ++ (if includeImages options then [images] else [])
    ++ (if includeVolumes options then [volumes] else [])
    ++ (if includeNetworks options then [networks] else [])
    ++ (if includeCache options then [cache] else []).

(** What the scan guarantees of the summary of each kind. *)
Definition wellFormedSummary (options : ScanOptions) (s : ResourceSummary) : Prop :=
  match type s with
  | containers =>
      reclaimableBytes s = Some (sumSizes (items s))
      /\ (exists candidates,
            items s = applySizeFilters candidates (top options) (limitSpaceBytes options))
      /\ forall item, In item (items s) ->
           exists c, raw item = Some c /\ stoppedState c = true /\ item = containerItem c
  | images =>
      reclaimableBytes s = Some (sumSizes (items s))
      /\ (exists candidates,
            items s = applySizeFilters candidates (top options) (limitSpaceBytes options))
      /\ forall item, In item (items s) ->
           exists r, raw item = Some r /\ item = imageItem r
                     /\ (is_true (scan_includeAllImages options) = false -> danglingImage r = true)
  | volumes =>
      reclaimableBytes s = Some (num 0)
      /\ forall item, In item (items s) -> exists v, item = volumeItem v
  | networks =>
      reclaimableBytes s = Some (num 0)
      /\ forall item, In item (items s) ->
           isSystemNetwork (name item) = false /\ exists n, item = networkItem n
  | cache => items s = []
  end.

(** The exponent of 1000 that a unit word stands for. *)
Definition unitExponent (u : list ascii) : Z :=
  match map upper u with
  | [_] => 0
  | c :: _ =>
      if Ascii.eqb c "K" then 1
      else if Ascii.eqb c "M" then 2
      else if Ascii.eqb c "G" then 3
      else 4
  | [] => 0
  end.

(** The summaries so far: their kinds, and each one well formed. *)
Definition scanned (options : ScanOptions) (kinds : list ResourceType) (acc : ScanResult)
  : Prop :=
  map type (summaries acc) = kinds /\ Forall (wellFormedSummary options) (summaries acc).

(** A size string with nothing around it: magnitude, white space,
    unit. *)
Definition sizeText (mag ws u : list ascii) : string := str (mag ++ ws ++ u).

(** The options of the current [clean.ts] that the earlier one knows. *)
Definition earlier (o : CleanOptions) : PruneOnly.CleanOptions :=
  {| PruneOnly.resources := resources o;
     PruneOnly.olderThanMs := olderThanMs o;
     PruneOnly.dryRun := dryRun o;
     PruneOnly.includeAllImages := includeAllImages o;
     PruneOnly.expectedCounts := expectedCounts o |}.

(** The removed count that [cleanResources] stores for the kind [t]
    once its command has answered [output]:
    [parsePrunedCount(output) || options.expectedCounts[type]] after a
    prune (the bulk path, and cache on the identifier path),
    [ids.length] after a removal by identifiers. *)
Definition recordedCount (options : CleanOptions) (t : ResourceType) (output : string)
  : number :=
  match selectedIds options with
  | None => num_or (parsePrunedCount output) (get (expectedCounts options) t)
  | Some sel =>
      if ResourceType_eqb t cache
      then num_or (parsePrunedCount output) (get (expectedCounts options) t)
      else
        match get sel t with
        | Some ids => num (Z.of_nat (length ids))
        | None => num 0
        end
  end.

(** * Properties *)

(** ** Numbers *)

Lemma truthy_zero (q : Q) : (q == 0)%Q -> truthy (Num q) = false.
Proof.
  intros Hq. unfold truthy.
  apply Qeq_bool_iff in Hq. now rewrite Hq.
Qed.

Lemma nonempty_spec (o : option string) :
  nonempty o = true <-> exists c, o = Some c /\ c <> "".
Proof.
  destruct o as [[|a s]|]; simpl; split; intros Hx; try discriminate.
  - destruct Hx as [c [Hc Hne]]. injection Hc as <-. now elim Hne.
  - exists (String a s). split; [reflexivity | discriminate].
  - reflexivity.
  - destruct Hx as [c [Hc _]]. discriminate.
Qed.

(** ** The age filter *)

Lemma createdSince_spec `{Runtime} (cutoff : number) (item : ResourceItem) :
  createdSince cutoff item = true <-> createdAtOrAfter cutoff item.
Proof.
  unfold createdSince, createdAtOrAfter. split.
  - destruct (nonempty (createdAt item)) eqn:Hne; simpl; [|discriminate].
    apply nonempty_spec in Hne. destruct Hne as [c [Hc Hne]].
    rewrite Hc. simpl.
    destruct (Date_parse c) as [|created] eqn:Hp; [discriminate|].
    destruct cutoff as [|k]; simpl; [discriminate|].
    intros Hle. apply Qle_bool_iff in Hle.
    exists c, created, k. repeat split; assumption.
  - intros [c [created [k [Hc [Hne [Hp [Hk Hle]]]]]]].
    assert (Hn : nonempty (createdAt item) = true).
    { apply nonempty_spec. exists c. split; assumption. }
    rewrite Hn, Hc. simpl. rewrite Hp, Hk. simpl.
    now apply Qle_bool_iff.
Qed.

(** C1 (as amended).  For every list of items and every supplied
    threshold that is a non-zero number, [applyOlderThan] reads the
    clock once and returns, in their order, exactly the items whose
    [createdAt] is present, parses to a point in time, and is at or
    after [cutoff = now - threshold]; items with a missing or
    unparseable [createdAt] are dropped; without a threshold, and with
    a threshold that is 0 or NaN, the input list is returned
    unchanged. *)
Theorem applyOlderThan_retains `{Runtime}
  (items0 : list ResourceItem) (ms : number) (st : State) :
  truthy ms = true ->
  let cutoff := js_sub (clock (world st)) ms in
  applyOlderThan items0 (Some ms) st = (Ok (filter (createdSince cutoff) items0), st)
  /\ (forall item, In item (filter (createdSince cutoff) items0) <->
                   In item items0 /\ createdAtOrAfter cutoff item)
  /\ (forall item, In item items0 -> createdAt item = None ->
                   ~ In item (filter (createdSince cutoff) items0))
  /\ (forall item c, In item items0 -> createdAt item = Some c -> Date_parse c = NaN ->
                     ~ In item (filter (createdSince cutoff) items0))
  /\ applyOlderThan items0 None st = (Ok items0, st)
  /\ (forall falsy, truthy falsy = false ->
        applyOlderThan items0 (Some falsy) st = (Ok items0, st)).
Proof.
  intros Ht cutoff. split; [|split; [|split; [|split; [|split]]]].
  - unfold applyOlderThan. rewrite Ht. reflexivity.
  - intros item. rewrite filter_In. now rewrite createdSince_spec.
  - intros item Hin Hnone Hf. apply filter_In in Hf. destruct Hf as [_ Hc].
    apply createdSince_spec in Hc.
    destruct Hc as [c [created [k [Hc _]]]]. congruence.
  - intros item c Hin Hsome Hnan Hf. apply filter_In in Hf. destruct Hf as [_ Hc].
    apply createdSince_spec in Hc.
    destruct Hc as [c' [created [k [Hc [_ [Hp _]]]]]]. congruence.
  - reflexivity.
  - intros falsy Hf. unfold applyOlderThan. rewrite Hf. reflexivity.
Qed.

Lemma applyOlderThan_retains_witness :
  let old := item_created "old" (Some "100") in
  let young := item_created "young" (Some "999000") in
  let undated := item_created "undated" None in
  @applyOlderThan demo [old; young; undated] (Some (num 5000)) (demo_state [])
  = (Ok [young], demo_state []).
Proof.
  intros old young undated.
  exact (proj1 (@applyOlderThan_retains demo [old; young; undated] (num 5000)
                  (demo_state []) eq_refl)).
Defined.

(** C1, as first stated, fails at the threshold 0: the threshold is
    supplied, yet an item without [createdAt] is kept. *)
Lemma applyOlderThan_zero_keeps_undated :
  ~ (forall (R : Runtime) (l : list ResourceItem) (ms : number) (st : @State R),
        @applyOlderThan R l (Some ms) st
        = (Ok (filter (createdSince (js_sub (clock (world st)) ms)) l), st)).
Proof.
  intros Hall.
  specialize (Hall demo [item_created "undated" None] (num 0) (demo_state [])).
  vm_compute in Hall. discriminate Hall.
Qed.

(** ** The monad *)

Lemma bind_ok `{Runtime} {A B : Type} (c : M A) (k : A -> M B) (st st' : State) (a : A) :
  c st = (Ok a, st') -> bind c k st = k a st'.
Proof. intros Hc. unfold bind. now rewrite Hc. Qed.

Lemma bind_throw `{Runtime} {A B : Type} (c : M A) (k : A -> M B) (st st' : State) (e : JsError) :
  c st = (Throw e, st') -> bind c k st = (Throw e, st').
Proof. intros Hc. unfold bind. now rewrite Hc. Qed.

Lemma for_of_app `{Runtime} {A S : Type} (xs ys : list A) (body : A -> S -> M S)
  (s s' : S) (st st' : State) :
  for_of xs body s st = (Ok s', st') ->
  for_of (xs ++ ys) body s st = for_of ys body s' st'.
Proof.
  revert s st. induction xs as [|x xs IH]; intros s st Hrun; simpl in *.
  - unfold ret in Hrun. now injection Hrun as <- <-.
  - unfold bind in *. destruct (body x s st) as [[s1|e] st1].
    + now apply IH.
    + discriminate.
Qed.

(** ** filterUntilTimestamp *)

Lemma filterUntilTimestamp_falsy `{Runtime} (ms : number) (st : State) :
  truthy ms = false -> filterUntilTimestamp (Some ms) st = (Ok None, st).
Proof. intros Hf. unfold filterUntilTimestamp. now rewrite Hf. Qed.

Lemma filterUntilTimestamp_none `{Runtime} (st : State) :
  filterUntilTimestamp None st = (Ok None, st).
Proof. reflexivity. Qed.

(** ** Dry run *)

(** C4.  With the dry-run flag set, whatever the list of kinds,
    [cleanResources] returns zero removed counts and no failures for
    every kind and zero reclaimed bytes, and runs no command at all:
    the state of the runtime and the log of executed commands are
    unchanged.  This holds for both versions of [clean.ts]. *)
Theorem cleanResources_dry_run `{Runtime}
  (options : CleanOptions) (options' : PruneOnly.CleanOptions) (st : State) :
  dryRun options = true ->
  PruneOnly.dryRun options' = true ->
  exists result,
    cleanResources options st = (Ok result, st)
    /\ PruneOnly.cleanResources options' st = (Ok result, st)
    /\ (forall k, get (removed result) k = num 0)
    /\ (forall k, get (failures result) k = [])
    /\ reclaimedBytes result = num 0.
Proof.
  intros Hd Hd'. exists noneRemoved.
  unfold cleanResources, PruneOnly.cleanResources. rewrite Hd, Hd'.
  repeat split; intros k; destruct k; reflexivity.
Qed.

Lemma cleanResources_dry_run_witness :
  exists result,
    @cleanResources demo
      (mkCleanOptions [containers; images] None true false
         (mkPerKind (num 5) (num 10) (num 0) (num 0) (num 0)) None None)
      (demo_state [Ok "Deleted Containers: 5"]) = (Ok result, demo_state [Ok "Deleted Containers: 5"])
    /\ @PruneOnly.cleanResources demo
      (PruneOnly.mkCleanOptions [volumes; networks; cache] None true false
         (mkPerKind (num 0) (num 0) (num 2) (num 1) (num 0)))
      (demo_state [Ok "Deleted Containers: 5"]) = (Ok result, demo_state [Ok "Deleted Containers: 5"])
    /\ (forall k, get (removed result) k = num 0)
    /\ (forall k, get (failures result) k = [])
    /\ reclaimedBytes result = num 0.
Proof.
  apply (@cleanResources_dry_run demo); reflexivity.
Defined.

(** ** Threshold zero *)

(** C9.  A threshold of exactly zero milliseconds behaves as no
    threshold: [applyOlderThan] returns its input unchanged,
    [filterUntilTimestamp] returns no timestamp, and so a clean-up run
    does exactly what it does without a threshold, no [until] filter
    reaching any prune command. *)
Theorem zero_threshold_is_no_threshold `{Runtime} (zero : Q)
  (l : list ResourceItem) (options : CleanOptions) (t : ResourceType) (all : bool)
  (st : State) :
  (zero == 0)%Q ->
  applyOlderThan l (Some (Num zero)) st = (Ok l, st)
  /\ filterUntilTimestamp (Some (Num zero)) st = (Ok None, st)
  /\ dockerPrune t None all st = execDocker (pruneBaseArgs t all) st
  /\ cleanResources (with_olderThanMs options (Some (Num zero))) st
     = cleanResources (with_olderThanMs options None) st.
Proof.
  intros Hz. pose proof (truthy_zero Hz) as Hf.
  split; [|split; [|split]].
  - unfold applyOlderThan. now rewrite Hf.
  - now apply filterUntilTimestamp_falsy.
  - unfold dockerPrune, until_args. simpl. now rewrite app_nil_r.
  - unfold cleanResources, with_olderThanMs.
    cbn [dryRun olderThanMs selectedIds resources].
    destruct (dryRun options); [reflexivity|].
    unfold bind. rewrite (filterUntilTimestamp_falsy _ _ Hf).
    now rewrite filterUntilTimestamp_none.
Qed.

Lemma zero_threshold_is_no_threshold_witness :
  @applyOlderThan demo [item_created "undated" None] (Some (Num 0)) (demo_state [])
  = (Ok [item_created "undated" None], demo_state [])
  /\ @filterUntilTimestamp demo (Some (Num 0)) (demo_state []) = (Ok None, demo_state []).
Proof.
  pose proof (@zero_threshold_is_no_threshold demo 0 [item_created "undated" None]
                (mkCleanOptions [] None false false (every (num 0)) None None)
                containers false (demo_state []) (Qeq_refl 0)) as Hz.
  split; [exact (proj1 Hz) | exact (proj1 (proj2 Hz))].
Defined.

(** ** Per-kind slots *)

Lemma get_set_same {A : Type} (r : PerKind A) (t : ResourceType) (v : A) :
  get (set r t v) t = v.
Proof. destruct t; reflexivity. Qed.

Lemma get_set_other {A : Type} (r : PerKind A) (t k : ResourceType) (v : A) :
  k <> t -> get (set r t v) k = get r k.
Proof. intros Hne. destruct t, k; try reflexivity; now elim Hne. Qed.

Lemma ResourceType_eqb_eq (a b : ResourceType) : ResourceType_eqb a b = true <-> a = b.
Proof. destruct a, b; simpl; split; intros Hx; try reflexivity; discriminate. Qed.

(** ** One kind of the clean-up loop *)

Lemma cleanKind_caught `{Runtime} options fu bulk t acc st e st' :
  cleanBody options fu bulk t acc st = (Throw e, st') ->
  cleanKind options fu bulk t acc st = (Ok (push_failure acc t (errorText e)), st').
Proof. intros Hb. unfold cleanKind, try_catch. now rewrite Hb. Qed.

Lemma cleanKind_passed `{Runtime} options fu bulk t acc st acc' st' :
  cleanBody options fu bulk t acc st = (Ok acc', st') ->
  cleanKind options fu bulk t acc st = (Ok acc', st').
Proof. intros Hb. unfold cleanKind, try_catch. now rewrite Hb. Qed.

Lemma cleanKind_returns `{Runtime} options fu bulk t acc st :
  exists acc' st', cleanKind options fu bulk t acc st = (Ok acc', st').
Proof.
  unfold cleanKind, try_catch.
  destruct (cleanBody options fu bulk t acc st) as [[acc'|e] st'].
  - now exists acc', st'.
  - now exists (push_failure acc t (errorText e)), st'.
Qed.

Lemma cleanLoop_returns `{Runtime} options fu bulk ts acc st :
  exists acc' st', for_of ts (cleanKind options fu bulk) acc st = (Ok acc', st').
Proof.
  revert acc st. induction ts as [|t ts IH]; intros acc st; simpl.
  - now exists acc, st.
  - destruct (cleanKind_returns options fu bulk t acc st) as [acc1 [st1 H1]].
    erewrite bind_ok by exact H1. apply IH.
Qed.

Lemma extends_prune options t output acc : extends acc (recordPrune options t output acc) t.
Proof.
  split; simpl.
  - intros k Hk. now apply get_set_other.
  - intros k. exists []. now rewrite app_nil_r.
Qed.

Lemma extends_refl acc t : extends acc acc t.
Proof.
  split; [reflexivity|]. intros k. exists []. now rewrite app_nil_r.
Qed.

Lemma extends_failure acc t msg : extends acc (push_failure acc t msg) t.
Proof.
  split; simpl; [reflexivity|].
  intros k. destruct (ResourceType_eqb k t) eqn:Hk.
  - apply ResourceType_eqb_eq in Hk. subst k. exists [msg]. now rewrite get_set_same.
  - exists []. rewrite get_set_other, app_nil_r; [reflexivity|].
    intros ->. destruct t; discriminate.
Qed.

Lemma cleanBody_extends `{Runtime} options fu bulk t acc st acc' st' :
  cleanBody options fu bulk t acc st = (Ok acc', st') -> extends acc acc' t.
Proof.
  unfold cleanBody.
  destruct bulk.
  - unfold bind.
    destruct (dockerPrune t fu _ st) as [[output|e] st1]; [|discriminate].
    unfold ret. intros Hr. injection Hr as <- _. apply extends_prune.
  - destruct (ResourceType_eqb t cache).
    + unfold bind.
      destruct (dockerPrune t fu false st) as [[output|e] st1]; [|discriminate].
      unfold ret. intros Hr. injection Hr as <- _. apply extends_prune.
    + destruct (match selectedIds options with Some sel => get sel t | None => None end)
        as [[|i l]|].
      * unfold ret. intros Hr. injection Hr as <- _. apply extends_refl.
      * unfold bind.
        destruct (removeSelected t (i :: l) st) as [[[o|]|e] st1]; [| |discriminate].
        -- unfold ret. intros Hr. injection Hr as <- _.
           split; simpl.
           ++ intros k Hk. now apply get_set_other.
           ++ intros k. exists []. now rewrite app_nil_r.
        -- unfold ret. intros Hr. injection Hr as <- _.
           destruct (estimatedBytes options); [|apply extends_refl].
           split; simpl; [reflexivity|].
           intros k. exists []. now rewrite app_nil_r.
      * unfold ret. intros Hr. injection Hr as <- _. apply extends_refl.
Qed.

Lemma cleanKind_extends `{Runtime} options fu bulk t acc st acc' st' :
  cleanKind options fu bulk t acc st = (Ok acc', st') -> extends acc acc' t.
Proof.
  unfold cleanKind, try_catch.
  destruct (cleanBody options fu bulk t acc st) as [[acc1|e] st1] eqn:Hb.
  - intros Hr. injection Hr as <- _. now apply cleanBody_extends in Hb.
  - unfold ret. intros Hr. injection Hr as <- _. apply extends_failure.
Qed.

Lemma cleanLoop_keeps `{Runtime} options fu bulk ts acc st acc' st' :
  for_of ts (cleanKind options fu bulk) acc st = (Ok acc', st') ->
  (forall k, ~ In k ts -> get (removed acc') k = get (removed acc) k)
  /\ (forall k, exists more, get (failures acc') k = get (failures acc) k ++ more).
Proof.
  revert acc st. induction ts as [|t ts IH]; intros acc st; simpl.
  - unfold ret. intros Hr. injection Hr as <- _.
    split; [reflexivity|]. intros k. exists []. now rewrite app_nil_r.
  - destruct (cleanKind_returns options fu bulk t acc st) as [acc1 [st1 H1]].
    erewrite bind_ok by exact H1. intros Hrest.
    destruct (cleanKind_extends _ _ _ _ _ _ H1) as [Hrem Hfail].
    destruct (IH _ _ Hrest) as [Hrem' Hfail'].
    split.
    + intros k Hk. rewrite Hrem' by tauto. apply Hrem. intros ->. tauto.
    + intros k. destruct (Hfail k) as [m1 Hm1]. destruct (Hfail' k) as [m2 Hm2].
      exists (m1 ++ m2). now rewrite Hm2, Hm1, app_assoc.
Qed.

Lemma PruneOnly_cleanKind `{Runtime} (o : PruneOnly.CleanOptions) fu t acc st :
  PruneOnly.cleanKind o fu t acc st = cleanKind (upgrade o) fu true t acc st.
Proof. reflexivity. Qed.

Lemma for_of_ext `{Runtime} {A S : Type} (f g : A -> S -> M S) (xs : list A) (s : S) (st : State) :
  (forall x s st, f x s st = g x s st) -> for_of xs f s st = for_of xs g s st.
Proof.
  intros Hfg. revert s st. induction xs as [|x xs IH]; intros s st; simpl; [reflexivity|].
  unfold bind. rewrite Hfg. destruct (g x s st) as [[s1|e] st1]; [apply IH | reflexivity].
Qed.

Lemma PruneOnly_cleanResources `{Runtime} (o : PruneOnly.CleanOptions) (st : State) :
  PruneOnly.cleanResources o st = cleanResources (upgrade o) st.
Proof.
  unfold PruneOnly.cleanResources, cleanResources. simpl.
  destruct (PruneOnly.dryRun o); [reflexivity|].
  unfold bind.
  destruct (filterUntilTimestamp (PruneOnly.olderThanMs o) st) as [[fu|e] st1]; [|reflexivity].
  apply for_of_ext. intros x s st2. apply PruneOnly_cleanKind.
Qed.

(** ** Failures *)

Lemma execDocker_answers `{Runtime} (args : list string) (st : State) output w :
  run_docker args (world st) = (Ok output, w) ->
  execDocker args st = (Ok output, {| world := w; calls := calls st ++ [args] |}).
Proof. intros Hrun. unfold execDocker. now rewrite Hrun. Qed.

Lemma cleanBody_records `{Runtime} options fu t acc st cmd output w :
  plannedCommands options fu t = [cmd] ->
  run_docker cmd (world st) = (Ok output, w) ->
  exists acc',
    cleanBody options fu (is_none (selectedIds options)) t acc st
    = (Ok acc', {| world := w; calls := calls st ++ [cmd] |})
    /\ get (removed acc') t = recordedCount options t output.
Proof.
  unfold plannedCommands, cleanBody, recordedCount.
  destruct (selectedIds options) as [sel|]; cbn [is_none].
  - destruct (ResourceType_eqb t cache) eqn:Hcache.
    + intros Hcmd Hrun. injection Hcmd as <-.
      unfold bind, dockerPrune. rewrite (execDocker_answers _ _ Hrun).
      eexists. split; [reflexivity|]. cbn [recordPrune removed]. apply get_set_same.
    + destruct (get sel t) as [[|i l]|]; try discriminate.
      intros Hcmd Hrun. injection Hcmd as <-.
      unfold bind.
      assert (Hrm : removeSelected t (i :: l) st
                    = (Ok (Some output), {| world := w; calls := calls st ++ [removeCommand t (i :: l)] |})).
      { destruct t; try discriminate Hcache;
          unfold removeSelected, dockerRemoveContainers, dockerRemoveImages,
            dockerRemoveVolumes, dockerRemoveNetworks, dockerRemove, bind, removeCommand in *;
          rewrite (execDocker_answers _ _ Hrun); reflexivity. }
      rewrite Hrm. eexists. split; [reflexivity|].
      cbn [recordRemoval removed]. apply get_set_same.
  - intros Hcmd Hrun. injection Hcmd as <-.
    unfold bind, dockerPrune. rewrite (execDocker_answers _ _ Hrun).
    eexists. split; [reflexivity|]. cbn [recordPrune removed]. apply get_set_same.
Qed.

Lemma cleanLoop_records `{Runtime} options fu p1 k p2 acc st accm stm cmd output w result st' :
  for_of (p1 ++ k :: p2) (cleanKind options fu (is_none (selectedIds options))) acc st
  = (Ok result, st') ->
  for_of p1 (cleanKind options fu (is_none (selectedIds options))) acc st = (Ok accm, stm) ->
  ~ In k p2 ->
  plannedCommands options fu k = [cmd] ->
  run_docker cmd (world stm) = (Ok output, w) ->
  get (removed result) k = recordedCount options k output.
Proof.
  intros Hall Hp1 Hk Hcmd Hrun.
  erewrite for_of_app in Hall by exact Hp1.
  destruct (@cleanBody_records _ options fu k accm stm cmd output w Hcmd Hrun)
    as [acc' [Hbody Hcount]].
  apply cleanKind_passed in Hbody.
  cbn [for_of] in Hall. erewrite bind_ok in Hall by exact Hbody.
  destruct (cleanLoop_keeps _ _ _ _ _ _ Hall) as [Hrem _].
  rewrite Hrem by exact Hk. exact Hcount.
Qed.

(** C5.  When the operation of one kind throws, the error is caught,
    rendered as text and appended to the failure list of that kind;
    the counts recorded so far are kept, the loop goes on with the
    remaining kinds in request order, and the run returns a result.
    In that result every kind whose last command of the run answered
    has its removed count recorded, before or after the kind that
    failed: the parsed count or else the expected one after a prune,
    the number of identifiers after a removal by identifiers.  The
    earlier [clean.ts] is the bulk case of the current one. *)
Theorem cleanResources_survives_failure `{Runtime}
  (options : CleanOptions) (pre post : list ResourceType) (t : ResourceType)
  (st st0 st1 st2 : State) (fu : option string) (acc1 : CleanResult) (e : JsError) :
  dryRun options = false ->
  resources options = pre ++ t :: post ->
  filterUntilTimestamp (olderThanMs options) st = (Ok fu, st0) ->
  let bulk := is_none (selectedIds options) in
  for_of pre (cleanKind options fu bulk) noneRemoved st0 = (Ok acc1, st1) ->
  cleanBody options fu bulk t acc1 st1 = (Throw e, st2) ->
  let caught := push_failure acc1 t (errorText e) in
  cleanResources options st = for_of post (cleanKind options fu bulk) caught st2
  /\ removed caught = removed acc1
  /\ get (failures caught) t = get (failures acc1) t ++ [errorText e]
  /\ (exists result st3,
        cleanResources options st = (Ok result, st3)
        /\ (forall k, ~ In k post -> get (removed result) k = get (removed acc1) k)
        /\ (exists before later,
              get (failures result) t = before ++ errorText e :: later)
        /\ (forall p1 k p2 accm stm cmd output w,
              resources options = p1 ++ k :: p2 -> ~ In k p2 ->
              for_of p1 (cleanKind options fu bulk) noneRemoved st0 = (Ok accm, stm) ->
              plannedCommands options fu k = [cmd] ->
              run_docker cmd (world stm) = (Ok output, w) ->
              get (removed result) k = recordedCount options k output))
  /\ (forall o', PruneOnly.cleanResources o' st = cleanResources (upgrade o') st).
Proof.
  intros Hdry Hres Hfu bulk Hpre Hthrow caught.
  assert (Hrun : cleanResources options st
                 = for_of post (cleanKind options fu bulk) caught st2).
  { unfold cleanResources. rewrite Hdry, Hres.
    erewrite bind_ok by exact Hfu.
    fold bulk. erewrite for_of_app by exact Hpre.
    simpl. erewrite bind_ok; [reflexivity|].
    now apply cleanKind_caught. }
  assert (Hwhole : cleanResources options st
                   = for_of (resources options) (cleanKind options fu bulk) noneRemoved st0).
  { unfold cleanResources. rewrite Hdry. erewrite bind_ok by exact Hfu. reflexivity. }
  split; [exact Hrun|]. split; [reflexivity|]. split.
  { unfold caught. simpl. now rewrite get_set_same. }
  split; [|intros o'; apply PruneOnly_cleanResources].
  destruct (cleanLoop_returns options fu bulk post caught st2) as [result [st3 Hpost]].
  exists result, st3. rewrite Hrun. split; [exact Hpost|].
  destruct (cleanLoop_keeps _ _ _ _ _ _ Hpost) as [Hrem Hfail].
  split; [|split].
  - intros k Hk. now rewrite Hrem.
  - destruct (Hfail t) as [more Hmore].
    exists (get (failures acc1) t), more.
    rewrite Hmore. unfold caught. simpl. rewrite get_set_same.
    now rewrite <- app_assoc.
  - intros p1 k p2 accm stm cmd output w Hsplit Hlast Hp1 Hcmd Hanswer.
    rewrite <- Hrun, Hwhole, Hsplit in Hpost.
    exact (cleanLoop_records _ _ _ _ _ _ _ Hpost Hp1 Hlast Hcmd Hanswer).
Qed.

(** Identifiers were selected and the removal of the images fails: the
    two containers and the three volumes are still counted. *)
Lemma cleanResources_survives_failure_witness :
  exists result st3,
    @cleanResources demo
      (mkCleanOptions [containers; images; volumes] None false false (every (num 0))
         (Some (mkPerKind (Some ["c1"; "c2"]) (Some ["i1"]) (Some ["v1"; "v2"; "v3"]) None None))
         None)
      (demo_state [Ok "c1 c2"; Throw (ErrorObj "image is in use"); Ok "v1 v2 v3"])
    = (Ok result, st3)
    /\ get (removed result) containers = num 2
    /\ get (removed result) volumes = num 3
    /\ (exists before later,
          get (failures result) images = before ++ "image is in use" :: later).
Proof.
  pose (options :=
          mkCleanOptions [containers; images; volumes] None false false (every (num 0))
            (Some (mkPerKind (Some ["c1"; "c2"]) (Some ["i1"]) (Some ["v1"; "v2"; "v3"])
                     None None))
            None).
  pose (script := [Ok "c1 c2"; Throw (ErrorObj "image is in use"); Ok "v1 v2 v3"]).
  pose (rmc := ["container"; "rm"; "-f"; "c1"; "c2"]).
  pose (rmi := ["image"; "rm"; "-f"; "i1"]).
  pose (acc1 := recordRemoval options containers ["c1"; "c2"] noneRemoved).
  destruct (@cleanResources_survives_failure demo options [containers] [volumes] images
              (demo_state script) (demo_state script)
              (@mkState demo (tl script) [rmc])
              (@mkState demo (tl (tl script)) [rmc; rmi])
              None acc1 (ErrorObj "image is in use")
              eq_refl eq_refl eq_refl eq_refl eq_refl)
    as [_ [_ [_ [[result [st3 [Hrun [_ [Hfail Hrec]]]]] _]]]].
  exists result, st3. split; [exact Hrun|]. split; [|split; [|exact Hfail]].
  - refine (Hrec [] containers [images; volumes] noneRemoved (demo_state script)
              rmc "c1 c2" (tl script) eq_refl _ eq_refl eq_refl eq_refl).
    intros [Hx | [Hx | []]]; discriminate Hx.
  - refine (Hrec [containers; images] volumes [] (push_failure acc1 images "image is in use")
              (@mkState demo (tl (tl script)) [rmc; rmi])
              ["volume"; "rm"; "-f"; "v1"; "v2"; "v3"] "v1 v2 v3" [] eq_refl _
              eq_refl eq_refl eq_refl).
    intros [].
Defined.

Example cleanResources_partial_failure :
  exists st3,
    @cleanResources demo
      (mkCleanOptions [containers; images; volumes] None false false
         (mkPerKind (num 2) (num 3) (num 1) (num 0) (num 0)) None None)
      (demo_state [Ok "Deleted Containers: 2"; Throw (Thrown "Image cleanup failed");
                   Ok "no count here"])
    = (Ok {| removed := mkPerKind (num 2) (num 0) (num 1) (num 0) (num 0);
             failures := mkPerKind [] ["Image cleanup failed"] [] [] [];
             reclaimedBytes := num 0 |}, st3).
Proof. eexists. vm_compute. reflexivity. Qed.

(** ** The bulk path *)

Lemma parsePrunedCount_no_match (output : string) :
  String_match_all true re_deleted (chars output) = None ->
  parsePrunedCount output = num 0.
Proof. intros Hm. unfold parsePrunedCount. now rewrite Hm. Qed.

Lemma parseReclaimedBytes_no_match (output : string) :
  String_match true re_reclaimed (chars output) = None ->
  parseReclaimedBytes output = num 0.
Proof. intros Hm. unfold parseReclaimedBytes. now rewrite Hm. Qed.

(** C6 (as amended).  On the bulk path the removed count of a kind is
    the count parsed from the output of its prune when that count is
    not zero, and the expected count of the scan otherwise, that is
    when no count line is found or when the counts found add up to
    zero; the reclaimed bytes grow by the parsed "Total reclaimed
    space" value, which is zero when the line is absent. *)
Theorem bulk_prune_records `{Runtime}
  (options : CleanOptions) (fu : option string) (t : ResourceType)
  (acc : CleanResult) (st st' : State) (output : string) :
  dockerPrune t fu (includeAllImages options && ResourceType_eqb t images)%bool st
  = (Ok output, st') ->
  exists acc',
    cleanKind options fu true t acc st = (Ok acc', st')
    /\ get (removed acc') t
       = (if truthy (parsePrunedCount output) then parsePrunedCount output
          else get (expectedCounts options) t)
    /\ (String_match_all true re_deleted (chars output) = None ->
        get (removed acc') t = get (expectedCounts options) t)
    /\ reclaimedBytes acc' = js_add (reclaimedBytes acc) (parseReclaimedBytes output)
    /\ (String_match true re_reclaimed (chars output) = None ->
        parseReclaimedBytes output = num 0)
    /\ (forall o', PruneOnly.cleanKind o' fu t acc st = cleanKind (upgrade o') fu true t acc st).
Proof.
  intros Hp. exists (recordPrune options t output acc).
  split; [|split; [|split; [|split; [|split]]]].
  - apply cleanKind_passed. unfold cleanBody. erewrite bind_ok by exact Hp. reflexivity.
  - simpl. now rewrite get_set_same.
  - intros Hm. simpl. rewrite get_set_same.
    now rewrite (parsePrunedCount_no_match _ Hm).
  - reflexivity.
  - apply parseReclaimedBytes_no_match.
  - intros o'. apply PruneOnly_cleanKind.
Qed.

Lemma bulk_prune_records_witness :
  exists acc',
    @cleanKind demo
      (mkCleanOptions [containers] None false false (every (num 5)) None None)
      None true containers noneRemoved
      (demo_state [Ok "Deleted Containers: 3
Total reclaimed space: 150 MB"])
    = (Ok acc', @mkState demo [] [["container"; "prune"; "-f"]])
    /\ get (removed acc') containers = num 3
    /\ reclaimedBytes acc' = num 150000000.
Proof.
  destruct (@bulk_prune_records demo
              (mkCleanOptions [containers] None false false (every (num 5)) None None)
              None containers noneRemoved
              (demo_state [Ok "Deleted Containers: 3
Total reclaimed space: 150 MB"])
              (@mkState demo [] [["container"; "prune"; "-f"]])
              "Deleted Containers: 3
Total reclaimed space: 150 MB" eq_refl)
    as [acc' [Hrun [Hcount [_ [Hbytes _]]]]].
  exists acc'. split; [exact Hrun|]. split.
  - rewrite Hcount. vm_compute. reflexivity.
  - rewrite Hbytes. vm_compute. reflexivity.
Defined.

(** C6, as first stated, fails when the output reports a count of
    zero: the count is parsed, and the expected count is reported all
    the same. *)
Lemma bulk_prune_zero_count_falls_back :
  ~ (forall (R : Runtime) (options : CleanOptions) (fu : option string) (t : ResourceType)
            (acc acc' : CleanResult) (st st' : @State R) (output : string),
        @dockerPrune R t fu (includeAllImages options && ResourceType_eqb t images)%bool st
        = (Ok output, st') ->
        @cleanKind R options fu true t acc st = (Ok acc', st') ->
        String_match_all true re_deleted (chars output) <> None ->
        get (removed acc') t = parsePrunedCount output).
Proof.
  intros Hall.
  pose (options := mkCleanOptions [containers] None false false
                     (mkPerKind (num 3) (num 0) (num 0) (num 0) (num 0)) None None).
  specialize (Hall demo options None containers noneRemoved
                (recordPrune options containers "Deleted Containers: 0" noneRemoved)
                (demo_state [Ok "Deleted Containers: 0"])
                (@mkState demo [] [["container"; "prune"; "-f"]])
                "Deleted Containers: 0" eq_refl eq_refl).
  assert (Hparsed : String_match_all true re_deleted (chars "Deleted Containers: 0") <> None).
  { vm_compute. discriminate. }
  specialize (Hall Hparsed). vm_compute in Hall. discriminate Hall.
Qed.

(** ** The identifier path *)

Lemma removeSelected_runs `{Runtime} (t : ResourceType) (i : string) (l : list string)
  (st : State) (output : string) (w : World) :
  t <> cache ->
  run_docker (removeCommand t (i :: l)) (world st) = (Ok output, w) ->
  removeSelected t (i :: l) st
  = (Ok (Some output), {| world := w; calls := calls st ++ [removeCommand t (i :: l)] |}).
Proof.
  intros Hne Hrun.
  destruct t; try (now elim Hne);
    unfold removeSelected, dockerRemoveContainers, dockerRemoveImages,
      dockerRemoveVolumes, dockerRemoveNetworks, dockerRemove, bind, execDocker;
    simpl in Hrun |- *; rewrite Hrun; reflexivity.
Qed.

(** C7.  On the identifier path, for a kind other than cache with a
    non-empty identifier list, the removal command carries exactly
    these identifiers, the removed count is their number, and the
    reclaimed bytes grow by the estimate of the scan for that kind,
    whatever the removal printed; with an empty or absent list nothing
    is run and nothing changes; cache takes the bulk prune as on the
    bulk path. *)
Theorem identifier_path `{Runtime}
  (options : CleanOptions) (sel : SelectedResources) (fu : option string)
  (t : ResourceType) (acc : CleanResult) (st : State) :
  selectedIds options = Some sel ->
  t <> cache ->
  (forall ids output w,
      get sel t = Some ids -> ids <> [] ->
      run_docker (removeCommand t ids) (world st) = (Ok output, w) ->
      exists acc',
        cleanKind options fu false t acc st
        = (Ok acc', {| world := w; calls := calls st ++ [removeCommand t ids] |})
        /\ get (removed acc') t = num (Z.of_nat (length ids))
        /\ (forall est, estimatedBytes options = Some est ->
              reclaimedBytes acc' = js_add (reclaimedBytes acc) (num_or (get est t) (num 0)))
        /\ (estimatedBytes options = None -> reclaimedBytes acc' = reclaimedBytes acc)
        /\ failures acc' = failures acc)
  /\ (get sel t = Some [] \/ get sel t = None ->
      cleanKind options fu false t acc st = (Ok acc, st))
  /\ cleanKind options fu false cache acc st = cleanKind options fu true cache acc st
  /\ cleanBody options fu false cache acc st
     = bind (dockerPrune cache fu false) (fun output => ret (recordPrune options cache output acc)) st.
Proof.
  intros Hsel Hne.
  assert (Hc : ResourceType_eqb t cache = false).
  { destruct t; try reflexivity. now elim Hne. }
  split; [|split; [|split]].
  - intros ids output w Hids Hnil Hrun.
    destruct ids as [|i l]; [now elim Hnil|].
    exists (recordRemoval options t (i :: l) acc).
    split; [|split; [|split; [|split]]].
    + apply cleanKind_passed. unfold cleanBody. rewrite Hc, Hsel, Hids.
      erewrite bind_ok by (apply removeSelected_runs; eassumption).
      reflexivity.
    + simpl. now rewrite get_set_same.
    + intros est Hest. simpl. now rewrite Hest.
    + intros Hest. simpl. now rewrite Hest.
    + reflexivity.
  - intros Hids. apply cleanKind_passed. unfold cleanBody. rewrite Hc, Hsel.
    destruct Hids as [-> | ->]; reflexivity.
  - unfold cleanKind, cleanBody. simpl. now rewrite andb_false_r.
  - reflexivity.
Qed.

Lemma identifier_path_witness :
  exists acc',
    @cleanKind demo
      (mkCleanOptions [containers] None false false (every (num 0))
         (Some (mkPerKind (Some ["c1"; "c2"]) None None None None))
         (Some (mkPerKind (num 800000000) (num 0) (num 0) (num 0) (num 0))))
      None false containers noneRemoved (demo_state [Ok "c1"])
    = (Ok acc', @mkState demo [] [["container"; "rm"; "-f"; "c1"; "c2"]])
    /\ get (removed acc') containers = num 2
    /\ reclaimedBytes acc' = js_add (num 0) (num 800000000).
Proof.
  pose (sel := mkPerKind (Some ["c1"; "c2"]) (@None (list string)) (@None (list string))
                 (@None (list string)) (@None (list string))).
  pose (est := mkPerKind (num 800000000) (num 0) (num 0) (num 0) (num 0)).
  pose (options := mkCleanOptions [containers] None false false (every (num 0))
                     (Some sel) (Some est)).
  assert (Hne : containers <> cache) by discriminate.
  destruct (proj1 (@identifier_path demo options sel None containers noneRemoved
                     (demo_state [Ok "c1"]) eq_refl Hne)
              ["c1"; "c2"] "c1" [] eq_refl)
    as [acc' [Hrun [Hcount [Hbytes _]]]].
  - discriminate.
  - reflexivity.
  - exists acc'. split; [exact Hrun|]. split; [exact Hcount|].
    exact (Hbytes est eq_refl).
Defined.

(** ** The scan *)

Lemma js_add_0_r (x : number) : js_add x (num 0) = x.
Proof.
  destruct x as [|[a b]]; [reflexivity|].
  unfold js_add, num, inject_Z, Qplus. simpl.
  rewrite Z.mul_1_r, Z.add_0_r, Pos.mul_1_r. reflexivity.
Qed.

Lemma sumEstimates_snoc (l : list ResourceSummary) (s : ResourceSummary) :
  sumEstimates (l ++ [s]) = js_add (sumEstimates l) (estimate s).
Proof. unfold sumEstimates. now rewrite fold_left_app. Qed.

Lemma totalled_push (acc : ScanResult) (s : ResourceSummary) (bytes : number) :
  totalled acc -> reclaimableBytes s = Some bytes -> totalled (push_summary acc s bytes).
Proof.
  unfold totalled. intros Hacc Hs. simpl.
  rewrite sumEstimates_snoc, Hacc. unfold estimate. now rewrite Hs.
Qed.

Lemma totalled_unsized (acc : ScanResult) (s : ResourceSummary) :
  totalled acc -> reclaimableBytes s = Some (num 0) -> totalled (push_unsized acc s).
Proof.
  unfold totalled. intros Hacc Hs. simpl.
  rewrite sumEstimates_snoc, Hacc. unfold estimate. rewrite Hs.
  now rewrite js_add_0_r.
Qed.

Lemma scanContainers_totalled `{Runtime} options acc st acc' st' :
  scanContainers options acc st = (Ok acc', st') -> totalled acc -> totalled acc'.
Proof.
  unfold scanContainers. intros Hrun Hacc.
  run_bind Hrun. run_bind Hrun.
  unfold ret in Hrun. injection Hrun as <- _.
  now apply totalled_push.
Qed.

Lemma scanImages_totalled `{Runtime} options acc st acc' st' :
  scanImages options acc st = (Ok acc', st') -> totalled acc -> totalled acc'.
Proof.
  unfold scanImages. intros Hrun Hacc.
  run_bind Hrun. run_bind Hrun.
  unfold ret in Hrun. injection Hrun as <- _.
  now apply totalled_push.
Qed.

Lemma scanVolumes_totalled `{Runtime} options acc st acc' st' :
  scanVolumes options acc st = (Ok acc', st') -> totalled acc -> totalled acc'.
Proof.
  unfold scanVolumes. intros Hrun Hacc.
  run_bind Hrun. run_bind Hrun.
  unfold ret in Hrun. injection Hrun as <- _.
  now apply totalled_unsized.
Qed.

Lemma scanNetworks_totalled `{Runtime} options acc st acc' st' :
  scanNetworks options acc st = (Ok acc', st') -> totalled acc -> totalled acc'.
Proof.
  unfold scanNetworks. intros Hrun Hacc.
  run_bind Hrun. run_bind Hrun.
  unfold ret in Hrun. injection Hrun as <- _.
  now apply totalled_unsized.
Qed.

Lemma scanCache_totalled `{Runtime} options acc st acc' st' :
  scanCache options acc st = (Ok acc', st') -> totalled acc -> totalled acc'.
Proof.
  unfold scanCache. intros Hrun Hacc.
  run_bind Hrun. run_bind Hrun.
  unfold ret in Hrun. injection Hrun as <- _.
  now apply totalled_push.
Qed.

Lemma optional_totalled `{Runtime} (b : bool) (scan : ScanResult -> M ScanResult)
  acc st acc' st' :
  (forall a s a' s', scan a s = (Ok a', s') -> totalled a -> totalled a') ->
  (if b then scan acc else ret acc) st = (Ok acc', st') -> totalled acc -> totalled acc'.
Proof.
  intros Hscan. destruct b.
  - apply Hscan.
  - unfold ret. intros Hr. now injection Hr as <- _.
Qed.

Lemma scanKinds_totalled `{Runtime} options st acc st' :
  scanKinds options st = (Ok acc, st') -> totalled acc.
Proof.
  unfold scanKinds. intros Hrun.
  run_bind Hrun. run_bind Hrun. run_bind Hrun. run_bind Hrun.
  eapply optional_totalled; [apply scanCache_totalled | exact Hrun |].
  eapply optional_totalled; [apply scanNetworks_totalled | eassumption |].
  eapply optional_totalled; [apply scanVolumes_totalled | eassumption |].
  eapply optional_totalled; [apply scanImages_totalled | eassumption |].
  eapply optional_totalled; [apply scanContainers_totalled | eassumption |].
  reflexivity.
Qed.

(** C8.  Once the requested kinds are processed, the total is the sum
    of the estimates of the summaries.  When that sum is not exactly
    zero it is what [scanResources] returns, and the disk-usage summary
    is not asked.  When it is exactly zero the disk-usage summary is
    asked, and its reclaimable figure, if it reports one, replaces the
    total.  In both cases the summaries are returned as they were. *)
Theorem scanResources_total `{Runtime}
  (options : ScanOptions) (st st1 : State) (acc : ScanResult) :
  scanKinds options st = (Ok acc, st1) ->
  let sum := sumEstimates (summaries acc) in
  totalReclaimableBytes acc = sum
  /\ (js_eq sum (num 0) = false ->
      scanResources options st = (Ok acc, st1))
  /\ (js_eq sum (num 0) = true ->
      forall df st2,
        dockerSystemDf st1 = (Ok df, st2) ->
        exists result,
          scanResources options st = (Ok result, st2)
          /\ summaries result = summaries acc
          /\ totalReclaimableBytes result
             = match dfFigure df with
               | Some figure => figure
               | None => sum
               end).
Proof.
  intros Hkinds sum.
  pose proof (scanKinds_totalled _ _ Hkinds) as Htot. unfold totalled in Htot.
  fold sum in Htot.
  split; [exact Htot|]. split.
  - intros Hnz. unfold scanResources. erewrite bind_ok by exact Hkinds.
    unfold dfFallback. now rewrite Htot, Hnz.
  - intros Hz df st2 Hdf. unfold scanResources. erewrite bind_ok by exact Hkinds.
    unfold dfFallback. rewrite Htot, Hz. erewrite bind_ok by exact Hdf.
    unfold dfFigure.
    destruct (find (fun row => nonempty (field row "Reclaimable")) df) as [row|].
    + eexists. split; [reflexivity|]. split; reflexivity.
    + exists acc. split; [reflexivity|]. split; [reflexivity | exact Htot].
Qed.

Lemma scanResources_total_witness :
  exists result,
    @scanResources demo
      (mkScanOptions false false false false true None None None None)
      (demo_state [Ok "Total reclaimable: 0B"; Ok "Type=Images,Reclaimable=1.5GB (50%)"])
    = (Ok result,
       @mkState demo []
         [["buildx"; "prune"; "--dry-run"]; ["system"; "df"; "--format"; "{{json .}}"]])
    /\ summaries result
       = [ {| type := cache; label := "Builder cache"; items := [];
              reclaimableBytes := Some (num 0) |} ]
    /\ totalReclaimableBytes result = num 1500000000.
Proof.
  pose (options := mkScanOptions false false false false true None None None None).
  pose (acc := {| summaries := [ {| type := cache; label := "Builder cache"; items := [];
                                    reclaimableBytes := Some (num 0) |} ];
                  totalReclaimableBytes := js_add (num 0) (num 0) |}).
  pose (st1 := @mkState demo [Ok "Type=Images,Reclaimable=1.5GB (50%)"]
                 [["buildx"; "prune"; "--dry-run"]]).
  assert (Hkinds : @scanKinds demo options
                     (demo_state [Ok "Total reclaimable: 0B";
                                  Ok "Type=Images,Reclaimable=1.5GB (50%)"])
                   = (Ok acc, st1)).
  { vm_compute. reflexivity. }
  destruct (proj2 (proj2 (@scanResources_total demo options _ st1 acc Hkinds)) eq_refl
              [[("Type", "Images"); ("Reclaimable", "1.5GB (50%)")]]
              (@mkState demo []
                 [["buildx"; "prune"; "--dry-run"]; ["system"; "df"; "--format"; "{{json .}}"]]))
    as [result [Hrun [Hsum Htotal]]].
  - vm_compute. reflexivity.
  - exists result. split; [exact Hrun|]. split; [exact Hsum|].
    rewrite Htotal. vm_compute. reflexivity.
Defined.

(** ** Sorting by size *)

Lemma sort_insert_perm {A : Type} (cmp : A -> A -> number) (x : A) (l : list A) :
  Permutation (sort_insert cmp x l) (x :: l).
Proof.
  induction l as [|y l IH]; simpl; [apply Permutation_refl|].
  destruct (js_gt (cmp x y) (num 0)).
  - eapply Permutation_trans; [apply perm_skip, IH | apply perm_swap].
  - apply Permutation_refl.
Qed.

Lemma Array_sort_perm {A : Type} (cmp : A -> A -> number) (l : list A) :
  Permutation (Array_sort cmp l) l.
Proof.
  induction l as [|x l IH]; simpl; [apply perm_nil|].
  eapply Permutation_trans; [apply sort_insert_perm | now apply perm_skip].
Qed.

Lemma Array_sort_length {A : Type} (cmp : A -> A -> number) (l : list A) :
  length (Array_sort cmp l) = length l.
Proof. apply Permutation_length, Array_sort_perm. Qed.

Lemma Qle_bool_false (p q : Q) : Qle_bool p q = false <-> (q < p)%Q.
Proof.
  split.
  - intros Hf. apply Qnot_le_lt. intros Hle. apply Qle_bool_iff in Hle. congruence.
  - intros Hlt. destruct (Qle_bool p q) eqn:Hb; [|reflexivity].
    apply Qle_bool_iff in Hb. exfalso. exact (Qlt_not_le _ _ Hlt Hb).
Qed.

(** The comparator moves [x] behind [y] exactly when both sizes are
    numbers and [y] is strictly larger. *)
Lemma bySizeDesc_moves (x y : ResourceItem) :
  js_gt (bySizeDesc x y) (num 0) = true <->
  exists p q, sizeOf x = Num p /\ sizeOf y = Num q /\ (p < q)%Q.
Proof.
  unfold bySizeDesc. split.
  - destruct (sizeOf x) as [|p], (sizeOf y) as [|q]; simpl; try discriminate.
    intros Hgt. apply negb_true_iff, Qle_bool_false in Hgt.
    exists p, q. repeat split.
    unfold Qminus in Hgt. apply (Qplus_lt_l _ _ p) in Hgt.
    ring_simplify in Hgt. exact Hgt.
  - intros [p [q [-> [-> Hlt]]]]. simpl.
    apply negb_true_iff, Qle_bool_false.
    unfold Qminus. apply (Qplus_lt_l _ _ p). ring_simplify. exact Hlt.
Qed.

Lemma sizeGe_of_not_moved (x y : ResourceItem) :
  hasSize x -> hasSize y -> js_gt (bySizeDesc x y) (num 0) = false -> sizeGe x y.
Proof.
  intros [p Hp] [q Hq] Hf. unfold sizeGe. rewrite Hp, Hq. simpl.
  apply Qle_bool_iff. apply Qnot_lt_le. intros Hlt.
  assert (Hm : js_gt (bySizeDesc x y) (num 0) = true).
  { apply bySizeDesc_moves. now exists p, q. }
  congruence.
Qed.

Lemma sizeGe_trans (x y z : ResourceItem) : sizeGe x y -> sizeGe y z -> sizeGe x z.
Proof.
  unfold sizeGe.
  destruct (sizeOf x) as [|p], (sizeOf y) as [|q], (sizeOf z) as [|r]; simpl;
    try discriminate.
  intros H1 H2. apply Qle_bool_iff in H1, H2. apply Qle_bool_iff.
  now apply Qle_trans with q.
Qed.

Lemma sort_insert_sorted (x : ResourceItem) (l : list ResourceItem) :
  hasSize x -> Forall hasSize l ->
  StronglySorted sizeGe l -> StronglySorted sizeGe (sort_insert bySizeDesc x l).
Proof.
  intros Hx Hl Hs. induction l as [|y l IH]; simpl.
  - constructor; constructor.
  - apply StronglySorted_inv in Hs. destruct Hs as [Hs Hy].
    inversion Hl as [|? ? Hsy Hsl]; subst.
    destruct (js_gt (bySizeDesc x y) (num 0)) eqn:Hm.
    + constructor; [now apply IH|].
      apply Forall_forall. intros z Hz.
      apply (Permutation_in _ (sort_insert_perm bySizeDesc x l)) in Hz.
      destruct Hz as [<- | Hz].
      * apply bySizeDesc_moves in Hm. destruct Hm as [p [q [Hp [Hq Hlt]]]].
        unfold sizeGe. rewrite Hp, Hq. simpl. apply Qle_bool_iff. now apply Qlt_le_weak.
      * rewrite Forall_forall in Hy. now apply Hy.
    + constructor; [constructor; assumption|].
      pose proof (sizeGe_of_not_moved Hx Hsy Hm) as Hxy.
      constructor; [exact Hxy|].
      apply Forall_forall. intros z Hz. rewrite Forall_forall in Hy.
      apply sizeGe_trans with y; [exact Hxy | now apply Hy].
Qed.

(** With sizes that are numbers the result of [sortBySize] is in
    descending order of size. *)
Lemma sortBySize_sorted (l : list ResourceItem) :
  Forall hasSize l -> StronglySorted sizeGe (sortBySize l).
Proof.
  unfold sortBySize. induction l as [|x l IH]; intros Hl; simpl.
  - constructor.
  - inversion Hl as [|? ? Hx Hl']; subst.
    apply sort_insert_sorted; [exact Hx | | now apply IH].
    apply Forall_forall. intros z Hz.
    apply (Permutation_in _ (Array_sort_perm bySizeDesc l)) in Hz.
    rewrite Forall_forall in Hl'. now apply Hl'.
Qed.

Lemma sortBySize_perm (l : list ResourceItem) : Permutation (sortBySize l) l.
Proof. apply Array_sort_perm. Qed.

Lemma ofSize_apart (v : number) (x y : ResourceItem) :
  js_gt (bySizeDesc x y) (num 0) = true -> ofSize v x = true -> ofSize v y = false.
Proof.
  intros Hm Hx. apply bySizeDesc_moves in Hm. destruct Hm as [p [q [Hp [Hq Hlt]]]].
  unfold ofSize in *. rewrite Hp in Hx. rewrite Hq.
  destruct v as [|r]; simpl in *; [reflexivity|].
  apply Qeq_bool_iff in Hx.
  destruct (Qeq_bool q r) eqn:Hqr; [|reflexivity].
  apply Qeq_bool_iff in Hqr. rewrite Hx, Hqr in Hlt.
  exfalso. exact (Qlt_irrefl _ Hlt).
Qed.

(** The sort is stable: items of one size keep their relative order. *)
Lemma sort_insert_stable (v : number) (x : ResourceItem) (l : list ResourceItem) :
  filter (ofSize v) (sort_insert bySizeDesc x l) = filter (ofSize v) (x :: l).
Proof.
  induction l as [|y l IH]; [reflexivity|].
  simpl sort_insert. destruct (js_gt (bySizeDesc x y) (num 0)) eqn:Hm; [|reflexivity].
  simpl filter at 1. rewrite IH. simpl.
  destruct (ofSize v x) eqn:Hx; [|reflexivity].
  now rewrite (ofSize_apart v _ _ Hm Hx).
Qed.

Lemma sortBySize_stable (v : number) (l : list ResourceItem) :
  filter (ofSize v) (sortBySize l) = filter (ofSize v) l.
Proof.
  unfold sortBySize. induction l as [|x l IH]; [reflexivity|].
  simpl Array_sort. rewrite sort_insert_stable. simpl. now rewrite IH.
Qed.

(** ** Top N *)

Lemma ToInteger_num (z : Z) : ToInteger (num z) = z.
Proof.
  unfold ToInteger, num.
  destruct (Qle_bool 0 (inject_Z z)); [apply Qfloor_Z | apply Qceiling_Z].
Qed.

Lemma truthy_num (z : Z) : (z <> 0)%Z -> truthy (num z) = true.
Proof.
  intros Hz. unfold truthy, num. apply negb_true_iff.
  destruct (Qeq_bool (inject_Z z) 0) eqn:Hq; [|reflexivity].
  apply Qeq_bool_iff in Hq. unfold Qeq in Hq. simpl in Hq. lia.
Qed.

Lemma selectTopN_positive (l : list ResourceItem) (n : Z) :
  (0 < n)%Z -> selectTopN l (num n) = firstn (Z.to_nat n) l.
Proof.
  intros Hn. unfold selectTopN, slice0. rewrite ToInteger_num.
  destruct (n <? 0)%Z eqn:Hneg; [apply Z.ltb_lt in Hneg; lia|].
  destruct (Z_le_gt_dec n (Z.of_nat (length l))) as [Hle | Hgt].
  - now rewrite Z.min_l.
  - rewrite Z.min_r by lia. rewrite Nat2Z.id.
    rewrite firstn_all. symmetry. apply firstn_all2. lia.
Qed.

Lemma StronglySorted_app_inv {A : Type} (R : A -> A -> Prop) (l1 l2 : list A) :
  StronglySorted R (l1 ++ l2) ->
  StronglySorted R l1 /\ StronglySorted R l2
  /\ (forall a b, In a l1 -> In b l2 -> R a b).
Proof.
  induction l1 as [|x l1 IH]; simpl; intros Hs.
  - split; [constructor|]. split; [exact Hs|]. intros a b [].
  - apply StronglySorted_inv in Hs. destruct Hs as [Hs Hx].
    destruct (IH Hs) as [H1 [H2 H12]].
    apply Forall_app in Hx. destruct Hx as [Hx1 Hx2].
    split; [now constructor|]. split; [exact H2|].
    intros a b [<- | Ha] Hb.
    + rewrite Forall_forall in Hx2. now apply Hx2.
    + now apply H12.
Qed.

(** Top-N selection on items whose sizes are numbers: the first [n]
    items of the descending stable sort, hence [min n (length l)] items
    in descending order, none smaller than an item left out. *)
Lemma applySizeFilters_top (l : list ResourceItem) (n : Z) :
  (0 < n)%Z ->
  let selected := applySizeFilters l (Some (num n)) None in
  let others := skipn (Z.to_nat n) (sortBySize l) in
  selected = firstn (Z.to_nat n) (sortBySize l)
  /\ length selected = Nat.min (Z.to_nat n) (length l)
  /\ Permutation (selected ++ others) l
  /\ (forall v, filter (ofSize v) (selected ++ others) = filter (ofSize v) l)
  /\ (Forall hasSize l ->
      StronglySorted sizeGe selected
      /\ forall a b, In a selected -> In b others -> sizeGe a b).
Proof.
  intros Hn selected others.
  assert (Hsel : selected = firstn (Z.to_nat n) (sortBySize l)).
  { unfold selected, applySizeFilters, truthy_opt.
    rewrite truthy_num by lia. cbn [negb andb]. now apply selectTopN_positive. }
  assert (Hsplit : selected ++ others = sortBySize l).
  { rewrite Hsel. apply firstn_skipn. }
  split; [exact Hsel|]. split.
  { rewrite Hsel, length_firstn. unfold sortBySize. now rewrite Array_sort_length. }
  split; [rewrite Hsplit; apply sortBySize_perm|].
  split; [intros v; rewrite Hsplit; apply sortBySize_stable|].
  intros Hl. pose proof (sortBySize_sorted Hl) as Hs. rewrite <- Hsplit in Hs.
  apply StronglySorted_app_inv in Hs. destruct Hs as [H1 [_ H12]].
  split; assumption.
Qed.

(** C3.  Top-N selection for a positive integer [n].  On a list whose
    size strings all parse to numbers it returns [min n (length l)]
    items in descending order of parsed size, items of equal size in
    their input order, and no selected item is smaller than an item
    left out.  On a list with a malformed size string the code departs
    from this: ["1.2.3MB"] matches the size pattern and
    [Number("1.2.3")] is NaN, so the parsed size is NaN and the
    comparator of [sortBySize] is NaN against every other item, which
    the sort reads as a tie.  Top-1 of [malformed; 2MB] is the
    malformed item, whose size is not [>=] the size of the 2MB item
    left out; top-1 of [1MB; malformed; 2MB] is the 1MB item although
    the 2MB item is larger. *)
Theorem selectTopN_malformed_size :
  (forall (l : list ResourceItem) (n : Z),
      (0 < n)%Z -> Forall hasSize l ->
      let selected := applySizeFilters l (Some (num n)) None in
      let others := skipn (Z.to_nat n) (sortBySize l) in
      length selected = Nat.min (Z.to_nat n) (length l)
      /\ Permutation (selected ++ others) l
      /\ StronglySorted sizeGe selected
      /\ (forall v, filter (ofSize v) (selected ++ others) = filter (ofSize v) l)
      /\ (forall a b, In a selected -> In b others -> sizeGe a b))
  /\ (let small := item_of_size "small" "1MB" in
      let malformed := item_of_size "malformed" "1.2.3MB" in
      let big := item_of_size "big" "2MB" in
      sizeOf malformed = NaN
      /\ sizeOf small = num 1000000
      /\ sizeOf big = num 2000000
      /\ applySizeFilters [malformed; big] (Some (num 1)) None = [malformed]
      /\ js_ge (sizeOf malformed) (sizeOf big) = false
      /\ sortBySize [small; malformed; big] = [small; malformed; big]
      /\ applySizeFilters [small; malformed; big] (Some (num 1)) None = [small]
      /\ js_ge (sizeOf small) (sizeOf big) = false).
Proof.
  split.
  - intros l n Hn Hl selected others.
    destruct (@applySizeFilters_top l n Hn) as [_ [Hlen [Hperm [Hstable Hsorted]]]].
    destruct (Hsorted Hl) as [Hdesc Hge].
    split; [exact Hlen|]. split; [exact Hperm|]. split; [exact Hdesc|].
    split; [exact Hstable | exact Hge].
  - vm_compute. repeat split; reflexivity.
Qed.

Lemma hasSize_megabytes (n s : string) (q : Q) :
  sizeOf (item_of_size n s) = Num q -> hasSize (item_of_size n s).
Proof. intros Hq. now exists q. Qed.

Lemma selectTopN_malformed_size_witness :
  let large := item_of_size "large" "500 MB" in
  let medium := item_of_size "medium" "300 MB" in
  let small := item_of_size "small" "100 MB" in
  length (applySizeFilters [small; large; medium] (Some (num 2)) None) = 2%nat
  /\ StronglySorted sizeGe (applySizeFilters [small; large; medium] (Some (num 2)) None)
  /\ applySizeFilters [small; large; medium] (Some (num 2)) None = [large; medium].
Proof.
  intros large medium small.
  assert (Hl : Forall hasSize [small; large; medium]).
  { repeat constructor.
    - apply hasSize_megabytes with (q := inject_Z 100000000). vm_compute. reflexivity.
    - apply hasSize_megabytes with (q := inject_Z 500000000). vm_compute. reflexivity.
    - apply hasSize_megabytes with (q := inject_Z 300000000). vm_compute. reflexivity. }
  destruct (proj1 selectTopN_malformed_size [small; large; medium] 2%Z eq_refl Hl)
    as [Hlen [_ [Hdesc _]]].
  split; [exact Hlen|]. split; [exact Hdesc|].
  vm_compute. reflexivity.
Defined.

(** ** Parsed sizes are never negative *)

Lemma takeWhile_all (p : ascii -> bool) (s : list ascii) : forallb p (takeWhile p s) = true.
Proof.
  induction s as [|c s IH]; simpl; [reflexivity|].
  destruct (p c) eqn:Hc; simpl; [now rewrite Hc|reflexivity].
Qed.

Lemma takeWhile_dropWhile (p : ascii -> bool) (s : list ascii) :
  takeWhile p s ++ dropWhile p s = s.
Proof.
  induction s as [|c s IH]; simpl; [reflexivity|].
  destruct (p c); simpl; [now rewrite IH|reflexivity].
Qed.

Lemma digit_val_nonneg (c : ascii) : is_digit c = true -> (0 <= digit_val c <= 9)%Z.
Proof.
  unfold is_digit, between, digit_val. intros Hd.
  apply andb_true_iff in Hd. destruct Hd as [Hlo Hhi].
  apply N.leb_le in Hlo, Hhi. lia.
Qed.

Lemma digits_val_nonneg (ds : list ascii) :
  forallb is_digit ds = true -> (0 <= digits_val ds)%Z.
Proof.
  unfold digits_val.
  assert (Hg : forall a, (0 <= a)%Z -> forallb is_digit ds = true ->
               (0 <= fold_left (fun acc c => 10 * acc + digit_val c) ds a)%Z).
  { induction ds as [|c ds IH]; cbn [fold_left forallb]; intros a Ha Hd; [exact Ha|].
    apply andb_true_iff in Hd. destruct Hd as [Hc Hd].
    apply IH; [|exact Hd]. pose proof (digit_val_nonneg c Hc). lia. }
  intros Hd. apply Hg; [lia | exact Hd].
Qed.

Lemma js_Number_nonneg (s : list ascii) (v : Q) : js_Number s = Num v -> (0 <= v)%Q.
Proof.
  unfold js_Number.
  pose proof (takeWhile_all is_digit s) as Hip.
  destruct (dropWhile is_digit s) as [|c fp].
  - unfold num. intros Hv. injection Hv as <-.
    unfold Qle. simpl. pose proof (digits_val_nonneg _ Hip). lia.
  - destruct (is_dot c && forallb is_digit fp)%bool eqn:Hfp; [|discriminate].
    apply andb_true_iff in Hfp. destruct Hfp as [_ Hfp].
    assert (Hall : (0 <= digits_val (takeWhile is_digit s ++ fp))%Z).
    { apply digits_val_nonneg. rewrite forallb_app. now rewrite Hip, Hfp. }
    destruct (takeWhile is_digit s) as [|i ip]; destruct fp as [|f fp'];
      try discriminate; intros Hv; injection Hv as <-; unfold Qle;
      cbn [Qnum Qden app] in *; rewrite Z.mul_0_l, Z.mul_1_r; exact Hall.
Qed.

Lemma multiplier_nonneg (u : list ascii) : exists m, multiplier u = Num m /\ (0 <= m)%Q.
Proof.
  unfold multiplier, multipliers, lookup.
  repeat match goal with
         | |- context [String.eqb ?a ?b] => destruct (String.eqb a b)
         end;
    eexists; (split; [reflexivity | unfold Qle; simpl; lia]).
Qed.

Lemma Math_round_nonneg (v m q : Q) :
  (0 <= v)%Q -> (0 <= m)%Q -> Math_round (js_mul (Num v) (Num m)) = Num q -> (0 <= q)%Q.
Proof.
  intros Hv Hm. unfold Math_round, js_mul, num. intros Hq. injection Hq as <-.
  assert (Hx : (0 <= v * m + (1 # 2))%Q).
  { apply Qle_trans with (v * m)%Q; [now apply Qmult_le_0_compat|].
    rewrite <- (Qplus_0_r (v * m)) at 1. apply Qplus_le_r. unfold Qle. simpl. lia. }
  assert (Hf : (0 <= Qfloor (v * m + (1 # 2)))%Z).
  { change 0%Z with (Qfloor 0). now apply Qfloor_resp_le. }
  change 0%Q with (inject_Z 0). now rewrite <- Zle_Qle.
Qed.

Lemma parseDockerSize_nonneg (s : option string) (q : Q) :
  parseDockerSize s = Num q -> (0 <= q)%Q.
Proof.
  unfold parseDockerSize.
  destruct (negb (nonempty s)).
  - unfold num. intros Hq. injection Hq as <-. apply Qle_refl.
  - destruct (String_match true re_size _) as [m|].
    + destruct (js_Number (group m 1)) as [|v] eqn:Hv; [discriminate|].
      destruct (multiplier_nonneg (toLowerCase (group m 2))) as [mu [Hmu Hpos]].
      rewrite Hmu. apply Math_round_nonneg; [|exact Hpos].
      now apply js_Number_nonneg with (group m 1).
    + unfold num. intros Hq. injection Hq as <-. apply Qle_refl.
Qed.

(** ** The cumulative limit *)

Lemma selectLoop_acc (l selected : list ResourceItem) (total limit : number) :
  selectLoop l selected total limit = selected ++ selectLoop l [] total limit.
Proof.
  revert selected total. induction l as [|item rest IH]; intros selected total; simpl.
  - now rewrite app_nil_r.
  - destruct (js_ge (js_add total (sizeOf item)) limit); [reflexivity|].
    rewrite IH. rewrite (IH [item]). now rewrite <- app_assoc.
Qed.

Lemma selectLoop_cons (item : ResourceItem) (rest : list ResourceItem) (total limit : number) :
  selectLoop (item :: rest) [] total limit
  = item :: (if js_ge (js_add total (sizeOf item)) limit then []
             else selectLoop rest [] (js_add total (sizeOf item)) limit).
Proof.
  simpl. destruct (js_ge (js_add total (sizeOf item)) limit); [reflexivity|].
  now rewrite selectLoop_acc.
Qed.

(** What the loop selects: a prefix that holds the first item, that
    stops at the first running total at or over the limit and not
    before. *)
Lemma selectLoop_prefix (l : list ResourceItem) (total limit : number) :
  let taken := selectLoop l [] total limit in
  exists rest,
    l = taken ++ rest
    /\ (l <> [] -> taken <> [])
    /\ (rest <> [] -> js_ge (sumFrom total taken) limit = true)
    /\ (forall p q, taken = p ++ q -> p <> [] -> q <> [] ->
                    js_ge (sumFrom total p) limit = false).
Proof.
  revert total. induction l as [|item rest0 IH]; intros total taken.
  - exists []. subst taken. simpl. repeat split; try tauto.
    intros p q Hpq Hp _. destruct p; [now elim Hp | discriminate].
  - subst taken. rewrite selectLoop_cons.
    destruct (js_ge (js_add total (sizeOf item)) limit) eqn:Hge.
    + exists rest0. repeat split; try discriminate.
      * intros _. exact Hge.
      * intros p q Hpq Hp Hq. destruct p as [|x p]; [now elim Hp|].
        destruct p; [|discriminate]. injection Hpq as _ Hq'. subst q. now elim Hq.
    + destruct (IH (js_add total (sizeOf item))) as [rest [Hsplit [_ [Hstop Hearly]]]].
      exists rest. split; [simpl; now rewrite <- Hsplit|].
      split; [discriminate|]. split; [exact Hstop|].
      intros p q Hpq Hp Hq. destruct p as [|x p]; [now elim Hp|].
      injection Hpq as <- Hpq. destruct p as [|y p].
      * exact Hge.
      * apply (Hearly (y :: p) q Hpq); [discriminate | exact Hq].
Qed.

Lemma sumFrom_number (l : list ResourceItem) (total : number) (s : Q) :
  sumFrom total l = Num s -> exists t, total = Num t /\ (t <= s)%Q.
Proof.
  revert total. induction l as [|item rest IH]; intros total; simpl.
  - intros ->. exists s. split; [reflexivity | apply Qle_refl].
  - intros Hs. destruct (IH _ Hs) as [t1 [Ht1 Hle]].
    destruct total as [|t]; [discriminate|].
    destruct (sizeOf item) as [|z] eqn:Hz; [discriminate|].
    simpl in Ht1. injection Ht1 as <-.
    exists t. split; [reflexivity|].
    apply parseDockerSize_nonneg in Hz.
    apply Qle_trans with (t + z)%Q; [|exact Hle].
    rewrite <- (Qplus_0_r t) at 1. now apply Qplus_le_r.
Qed.

(** A total below the limit selects everything. *)
Lemma selectLoop_all (l : list ResourceItem) (total limit : number) :
  js_gt limit (sumFrom total l) = true -> selectLoop l [] total limit = l.
Proof.
  revert total. induction l as [|item rest IH]; intros total Hlt; [reflexivity|].
  rewrite selectLoop_cons. simpl in Hlt.
  assert (Hge : js_ge (js_add total (sizeOf item)) limit = false).
  { destruct limit as [|lim]; [discriminate|].
    destruct (sumFrom (js_add total (sizeOf item)) rest) as [|s] eqn:Hs; [discriminate|].
    destruct (sumFrom_number _ _ Hs) as [t [-> Hle]].
    simpl in Hlt |- *. apply negb_true_iff, Qle_bool_false in Hlt.
    apply Qle_bool_false. now apply Qle_lt_trans with s. }
  rewrite Hge. f_equal. now apply IH.
Qed.

Lemma js_add_swap (a b c : number) : js_add (js_add a b) c = js_add (js_add a c) b.
Proof.
  destruct a as [|[an ad]], b as [|[bn bd]], c as [|[cn cd]]; try reflexivity.
  unfold js_add, Qplus. simpl. f_equal. f_equal.
  - rewrite !Pos2Z.inj_mul. ring.
  - rewrite <- !Pos.mul_assoc. f_equal. apply Pos.mul_comm.
Qed.

Lemma sumFrom_perm (l1 l2 : list ResourceItem) (total : number) :
  Permutation l1 l2 -> sumFrom total l1 = sumFrom total l2.
Proof.
  intros Hp. revert total.
  induction Hp as [|x l1 l2 _ IH|x y l|l1 l2 l3 _ IH1 _ IH2]; intros total; simpl.
  - reflexivity.
  - apply IH.
  - now rewrite js_add_swap.
  - now rewrite IH1.
Qed.

(** Cumulative-limit selection: a prefix of the stable sort that holds
    the first item, stops at the first running total at or over the
    limit, and is the whole list when the total of all sizes is below
    the limit; with sizes that are numbers the sort is descending. *)
Lemma applySizeFilters_limit (l : list ResourceItem) (limit : number) :
  truthy limit = true ->
  let selected := applySizeFilters l None (Some limit) in
  exists others,
    sortBySize l = selected ++ others
    /\ Permutation (selected ++ others) l
    /\ (l <> [] -> selected <> [])
    /\ (others <> [] -> js_ge (sumSizes selected) limit = true)
    /\ (forall p q, selected = p ++ q -> p <> [] -> q <> [] ->
                    js_ge (sumSizes p) limit = false)
    /\ (js_gt limit (sumSizes l) = true -> selected = sortBySize l)
    /\ (Forall hasSize l -> StronglySorted sizeGe (selected ++ others)).
Proof.
  intros Ht selected.
  assert (Hsel : selected = selectLoop (sortBySize l) [] (num 0) limit).
  { unfold selected, applySizeFilters, truthy_opt. rewrite Ht. reflexivity. }
  destruct (selectLoop_prefix (sortBySize l) (num 0) limit)
    as [others [Hsplit [Hfirst [Hstop Hearly]]]].
  rewrite <- Hsel in Hsplit, Hfirst, Hstop, Hearly.
  exists others. split; [exact Hsplit|].
  split; [rewrite <- Hsplit; apply sortBySize_perm|].
  split.
  { intros Hl. apply Hfirst. intros Hnil.
    pose proof (sortBySize_perm l) as Hp. rewrite Hnil in Hp.
    apply Permutation_nil in Hp. contradiction. }
  split; [exact Hstop|]. split; [exact Hearly|]. split.
  - intros Hlt. rewrite Hsel. apply selectLoop_all.
    unfold sumSizes in Hlt. fold (sumFrom (num 0) l) in Hlt.
    now rewrite (sumFrom_perm (num 0) (sortBySize_perm l)).
  - intros Hl. rewrite <- Hsplit. now apply sortBySize_sorted.
Qed.

(** C2.  Cumulative-limit selection for a positive limit.  On a list
    whose size strings all parse to numbers it returns a prefix of the
    items in descending order of parsed size; the prefix holds the
    first item, ends with the first item at which the running total is
    [>=] the limit, and is the whole list when the total of all sizes
    is below the limit.  On a list with a malformed size string the
    code departs from this: the parsed size of ["1.2.3MB"] is NaN, the
    sort reads every comparison with it as a tie, and a running total
    that is NaN is never [>=] the limit.  With the limit 1,
    [1MB; malformed; 2MB] is left in this order and the selection is
    the 1MB item, which is not a prefix of the items in descending
    order of size; [malformed; 2MB] is returned whole, its running
    total never reaching the limit that the 2MB item alone exceeds. *)
Theorem selectUntilSpaceLimit_malformed_size :
  (forall (l : list ResourceItem) (limit : number),
      truthy limit = true -> Forall hasSize l ->
      let selected := applySizeFilters l None (Some limit) in
      exists others,
        sortBySize l = selected ++ others
        /\ Permutation (selected ++ others) l
        /\ StronglySorted sizeGe (selected ++ others)
        /\ (l <> [] -> selected <> [])
        /\ (others <> [] -> js_ge (sumSizes selected) limit = true)
        /\ (forall p q, selected = p ++ q -> p <> [] -> q <> [] ->
                        js_ge (sumSizes p) limit = false)
        /\ (js_gt limit (sumSizes l) = true -> selected = sortBySize l))
  /\ (let small := item_of_size "small" "1MB" in
      let malformed := item_of_size "malformed" "1.2.3MB" in
      let big := item_of_size "big" "2MB" in
      sizeOf malformed = NaN
      /\ sortBySize [small; malformed; big] = [small; malformed; big]
      /\ applySizeFilters [small; malformed; big] None (Some (num 1)) = [small]
      /\ js_gt (sizeOf big) (sizeOf small) = true
      /\ applySizeFilters [malformed; big] None (Some (num 1)) = [malformed; big]
      /\ sumSizes [malformed; big] = NaN
      /\ js_ge (sizeOf big) (num 1) = true).
Proof.
  split.
  - intros l limit Ht Hl selected.
    destruct (@applySizeFilters_limit l limit Ht)
      as [others [Hsplit [Hperm [Hfirst [Hstop [Hearly [Hall Hsorted]]]]]]].
    exists others.
    split; [exact Hsplit|]. split; [exact Hperm|]. split; [now apply Hsorted|].
    split; [exact Hfirst|]. split; [exact Hstop|]. split; [exact Hearly | exact Hall].
  - vm_compute. repeat split; reflexivity.
Qed.

Lemma selectUntilSpaceLimit_malformed_size_witness :
  let large := item_of_size "large" "500 MB" in
  let medium := item_of_size "medium" "300 MB" in
  let small := item_of_size "small" "100 MB" in
  applySizeFilters [small; large; medium] None (Some (num 600000000)) = [large; medium]
  /\ exists others,
       sortBySize [small; large; medium]
       = applySizeFilters [small; large; medium] None (Some (num 600000000)) ++ others
       /\ StronglySorted sizeGe
            (applySizeFilters [small; large; medium] None (Some (num 600000000)) ++ others).
Proof.
  intros large medium small. split; [vm_compute; reflexivity|].
  assert (Hl : Forall hasSize [small; large; medium]).
  { repeat constructor.
    - apply hasSize_megabytes with (q := inject_Z 100000000). vm_compute. reflexivity.
    - apply hasSize_megabytes with (q := inject_Z 500000000). vm_compute. reflexivity.
    - apply hasSize_megabytes with (q := inject_Z 300000000). vm_compute. reflexivity. }
  destruct (proj1 selectUntilSpaceLimit_malformed_size [small; large; medium]
              (num 600000000) eq_refl Hl)
    as [others [Hsplit [_ [Hdesc _]]]].
  exists others. split; [exact Hsplit | exact Hdesc].
Defined.

(** ** The matcher *)

Lemma star_consumes {R : Type} (p : ascii -> bool) (s : list ascii)
  (k : list ascii -> list ascii -> option R) (x : R) :
  star p s k = Some x -> exists m rest, s = m ++ rest /\ k m rest = Some x.
Proof.
  revert k. induction s as [|c s IH]; intros k; simpl.
  - intros Hk. now exists [], [].
  - destruct (p c).
    + destruct (star p s (fun m rest => k (c :: m) rest)) as [y|] eqn:Hs.
      * intros Hx. injection Hx as <-.
        destruct (IH _ Hs) as [m [rest [-> Hk]]].
        now exists (c :: m), rest.
      * intros Hk. now exists [], (c :: s).
    + intros Hk. now exists [], (c :: s).
Qed.

(** A match consumes a prefix of the input and hands the rest to the
    continuation. *)
Lemma rmatch_consumes {R : Type} (ci : bool) (r : regex) :
  forall (s : list ascii) (caps : list (list ascii))
         (k : list ascii -> list ascii -> list (list ascii) -> option R) (x : R),
    rmatch ci r s caps k = Some x ->
    exists m rest caps', s = m ++ rest /\ k m rest caps' = Some x.
Proof.
  induction r as [|c|p|r1 IH1 r2 IH2|r1 IH1 r2 IH2|p|p|r IH|]; intros s caps k x; simpl.
  - intros Hk. now exists [], s, caps.
  - destruct s as [|d s]; [discriminate|].
    destruct (chr_eq ci c d); [|discriminate].
    intros Hk. now exists [d], s, caps.
  - destruct s as [|d s]; [discriminate|].
    destruct (p d); [|discriminate].
    intros Hk. now exists [d], s, caps.
  - intros H1. apply IH1 in H1. destruct H1 as [m1 [s1 [caps1 [-> H2]]]].
    apply IH2 in H2. destruct H2 as [m2 [s2 [caps2 [-> Hk]]]].
    exists (m1 ++ m2), s2, caps2. split; [now rewrite app_assoc | exact Hk].
  - destruct (rmatch ci r1 s caps k) as [y|] eqn:H1.
    + intros Hx. injection Hx as <-. now apply IH1 in H1.
    + apply IH2.
  - intros Hs. apply star_consumes in Hs. destruct Hs as [m [rest [-> Hk]]].
    now exists m, rest, caps.
  - destruct s as [|d s]; [discriminate|].
    destruct (p d); [|discriminate].
    intros Hs. apply star_consumes in Hs. destruct Hs as [m [rest [-> Hk]]].
    now exists (d :: m), rest, caps.
  - intros Hr. apply IH in Hr. destruct Hr as [m [rest [caps' [-> Hk]]]].
    now exists m, rest, (caps' ++ [m]).
  - destruct s; [|discriminate]. intros Hk. now exists [], [], caps.
Qed.

Lemma exec_at_consumes (ci : bool) (r : regex) (s : list ascii) (m : MatchResult) :
  exec_at ci r s = Some m -> s = matched m ++ after m.
Proof.
  unfold exec_at. intros Hm. apply rmatch_consumes in Hm.
  destruct Hm as [m0 [rest [caps' [-> Hk]]]]. now injection Hk as <-.
Qed.

Lemma search_consumes (ci : bool) (r : regex) (s : list ascii) (m : MatchResult) :
  search ci r s = Some m ->
  (length (matched m) + length (after m) <= length s)%nat.
Proof.
  induction s as [|c s IH]; simpl.
  - destruct (exec_at ci r []) as [m0|] eqn:Hm; [|discriminate].
    intros Hx. injection Hx as <-. apply exec_at_consumes in Hm.
    symmetry in Hm. apply app_eq_nil in Hm. destruct Hm as [-> ->]. simpl. lia.
  - destruct (exec_at ci r (c :: s)) as [m0|] eqn:Hm.
    + intros Hx. injection Hx as <-. apply exec_at_consumes in Hm.
      apply (f_equal (@length ascii)) in Hm. rewrite length_app in Hm. simpl in Hm. lia.
    + intros Hs. apply IH in Hs. lia.
Qed.

(** The global match does not depend on its fuel once the fuel exceeds
    the length of the input: the bound used by [String_match_all] is
    enough. *)
Lemma match_all_fuel (ci : bool) (r : regex) (f1 f2 : nat) (s : list ascii) :
  (length s < f1)%nat -> (length s < f2)%nat ->
  match_all_from f1 ci r s = match_all_from f2 ci r s.
Proof.
  revert f2 s. induction f1 as [|f1 IH]; intros f2 s H1 H2; [lia|].
  destruct f2 as [|f2]; [lia|]. simpl.
  destruct (search ci r s) as [m|] eqn:Hs; [|reflexivity].
  apply search_consumes in Hs. f_equal.
  destruct (matched m) as [|c mt]; destruct (after m) as [|d rest];
    simpl in Hs; try reflexivity; apply IH; simpl; lia.
Qed.

(** ** The matcher on the size pattern *)

Lemma star_commit {R : Type} (p : ascii -> bool) (s : list ascii)
  (k : list ascii -> list ascii -> option R) :
  (forall m c r, p c = true -> k m (c :: r) = None) ->
  star p s k = k (takeWhile p s) (dropWhile p s).
Proof.
  revert k. induction s as [|c s IH]; intros k Hk; simpl; [reflexivity|].
  destruct (p c) eqn:Hc; [|reflexivity].
  rewrite IH by (intros m c' r Hc'; now apply Hk).
  destruct (k (c :: takeWhile p s) (dropWhile p s)); [reflexivity|].
  now apply Hk.
Qed.

Lemma letter_classes (c : ascii) :
  (isB c || unitInitial c)%bool = true -> is_mag c = false /\ is_space c = false.
Proof.
  destruct c as [[] [] [] [] [] [] [] []]; vm_compute; intros Hc;
    first [discriminate Hc | split; reflexivity].
Qed.

Lemma mag_not_space (c : ascii) : is_mag c = true -> is_space c = false.
Proof.
  destruct c as [[] [] [] [] [] [] [] []]; vm_compute; intros Hc;
    first [discriminate Hc | reflexivity].
Qed.

Lemma unit_prefix_head (c : ascii) (r : list ascii) (x : list ascii * list ascii) :
  unit_prefix (c :: r) = Some x -> (isB c || unitInitial c)%bool = true.
Proof.
  simpl. destruct (isB c); [reflexivity|].
  destruct r as [|d r']; [discriminate|].
  destruct (unitInitial c); [reflexivity | discriminate].
Qed.

Lemma unit_prefix_mag (c : ascii) (r : list ascii) :
  is_mag c = true -> unit_prefix (c :: r) = None.
Proof.
  intros Hc. destruct (unit_prefix (c :: r)) as [x|] eqn:Hu; [|reflexivity].
  apply unit_prefix_head, letter_classes in Hu. destruct Hu as [Hm _]. congruence.
Qed.

Lemma unit_prefix_space (c : ascii) (r : list ascii) :
  is_space c = true -> unit_prefix (c :: r) = None.
Proof.
  intros Hc. destruct (unit_prefix (c :: r)) as [x|] eqn:Hu; [|reflexivity].
  apply unit_prefix_head, letter_classes in Hu. destruct Hu as [_ Hs]. congruence.
Qed.

Lemma units_spec {R : Type} (s : list ascii) (caps : list (list ascii))
  (k : list ascii -> list ascii -> list (list ascii) -> option R) :
  rmatch true re_units s caps k
  = match unit_prefix s with
    | Some (u, post) => k u post caps
    | None => None
    end.
Proof.
  destruct s as [|c r]; [reflexivity|].
  unfold re_units, unit_prefix, isB, unitInitial. cbn [rmatch Lit existsb app].
  unfold chr_eq.
  change (upper "B") with "B"%char. change (upper "k") with "K"%char.
  change (upper "K") with "K"%char. change (upper "M") with "M"%char.
  change (upper "G") with "G"%char. change (upper "T") with "T"%char.
  destruct (Ascii.eqb "B" (upper c)) eqn:HB.
  - apply Ascii.eqb_eq in HB. rewrite <- HB. cbn [Ascii.eqb Bool.eqb].
    destruct (k [c] r caps); [reflexivity|].
    destruct r; reflexivity.
  - destruct r as [|d r'].
    + destruct (Ascii.eqb "K" (upper c)), (Ascii.eqb "M" (upper c)),
        (Ascii.eqb "G" (upper c)), (Ascii.eqb "T" (upper c)); reflexivity.
    + destruct (Ascii.eqb "K" (upper c)), (Ascii.eqb "M" (upper c)),
        (Ascii.eqb "G" (upper c)), (Ascii.eqb "T" (upper c)),
        (Ascii.eqb "B" (upper d)); cbn [orb andb];
        destruct (k [c; d] r' caps); reflexivity.
Qed.

Lemma exec_size_scan (s : list ascii) : exec_at true re_size s = scan_size s.
Proof.
  unfold exec_at, re_size, scan_size. cbn [rmatch].
  destruct s as [|d s']; [reflexivity|].
  destruct (is_mag d); [|reflexivity].
  rewrite star_commit.
  - rewrite star_commit.
    + rewrite units_spec.
      destruct (unit_prefix _) as [[u post]|]; reflexivity.
    + intros m c r Hc. rewrite units_spec. now rewrite unit_prefix_space.
  - intros m c r Hc. cbn [star]. rewrite (mag_not_space _ Hc).
    rewrite units_spec. now rewrite unit_prefix_mag.
Qed.

Lemma span_app (p : ascii -> bool) (m rest : list ascii) :
  forallb p m = true ->
  (forall c r, rest = c :: r -> p c = false) ->
  takeWhile p (m ++ rest) = m /\ dropWhile p (m ++ rest) = rest.
Proof.
  intros Hm Hrest. induction m as [|c m IH]; simpl in *.
  - destruct rest as [|c r]; [split; reflexivity|].
    simpl. rewrite (Hrest c r eq_refl). split; reflexivity.
  - apply andb_true_iff in Hm. destruct Hm as [Hc Hm]. rewrite Hc.
    destruct (IH Hm) as [-> ->]. split; reflexivity.
Qed.

Lemma unitWord_prefix (u post : list ascii) :
  unitWord u -> unit_prefix (u ++ post) = Some (u, post).
Proof.
  unfold unitWord. simpl.
  intros [Hu | [Hu | [Hu | [Hu | [Hu | []]]]]];
    (destruct u as [|c [|d [|e u]]]; try discriminate Hu);
    simpl in Hu; injection Hu as Hc; subst;
    unfold unit_prefix, isB, unitInitial; simpl app; cbn [existsb];
    repeat match goal with
           | H : ?x = upper ?c |- _ => rewrite <- H
           end;
    reflexivity.
Qed.

Lemma unit_prefix_word (s u post : list ascii) :
  unit_prefix s = Some (u, post) -> s = u ++ post /\ unitWord u.
Proof.
  destruct s as [|c r]; [discriminate|].
  unfold unit_prefix, isB, unitInitial, unitWord. cbn [existsb].
  destruct (Ascii.eqb "B" (upper c)) eqn:HB.
  - intros Hx. injection Hx as <- <-. apply Ascii.eqb_eq in HB.
    split; [reflexivity|]. simpl. rewrite <- HB. now left.
  - destruct r as [|d r']; [discriminate|].
    destruct (Ascii.eqb "B" (upper d)) eqn:HD;
      [|rewrite andb_false_r; discriminate].
    apply Ascii.eqb_eq in HD. rewrite andb_true_r.
    destruct (Ascii.eqb "K" (upper c)) eqn:HK;
      [|destruct (Ascii.eqb "M" (upper c)) eqn:HM;
        [|destruct (Ascii.eqb "G" (upper c)) eqn:HG;
          [|destruct (Ascii.eqb "T" (upper c)) eqn:HT; [|discriminate]]]];
      cbn [orb]; intros Hx; injection Hx as <- <-;
      (split; [reflexivity|]); simpl; rewrite <- HD;
      match goal with
      | H : Ascii.eqb _ (upper c) = true |- _ => apply Ascii.eqb_eq in H; rewrite <- H
      end; tauto.
Qed.

Lemma unitWord_head (u : list ascii) :
  unitWord u -> exists c r, u = c :: r /\ is_mag c = false /\ is_space c = false.
Proof.
  intros Hu. pose proof (@unitWord_prefix u [] Hu) as Hp. rewrite app_nil_r in Hp.
  destruct u as [|c r]; [discriminate|].
  exists c, r. split; [reflexivity|].
  apply letter_classes. now apply unit_prefix_head in Hp.
Qed.

Lemma scan_size_complete (mag ws u post : list ascii) :
  sizeParts mag ws u ->
  scan_size (mag ++ ws ++ u ++ post) = Some (mkMatch (mag ++ ws ++ u) [mag; u] post).
Proof.
  intros [Hne [Hmag [Hws Hu]]].
  destruct (unitWord_head Hu) as [c [r [Hcr [Hcm Hcs]]]].
  destruct mag as [|d mag']; [now elim Hne|].
  simpl in Hmag. apply andb_true_iff in Hmag. destruct Hmag as [Hd Hmag].
  unfold scan_size.
  change ((d :: mag') ++ ws ++ u ++ post) with (d :: (mag' ++ ws ++ u ++ post)).
  cbn beta iota. rewrite Hd.
  destruct (@span_app is_mag mag' (ws ++ u ++ post) Hmag) as [Ht Hdrop].
  { intros c' r' Hr. destruct ws as [|w ws'].
    - rewrite Hcr in Hr. simpl in Hr. injection Hr as <- _. exact Hcm.
    - simpl in Hr, Hws. injection Hr as <- _.
      apply andb_true_iff in Hws. destruct Hws as [Hw _].
      destruct (is_mag w) eqn:Hmw; [|reflexivity].
      apply mag_not_space in Hmw. congruence. }
  rewrite Ht, Hdrop.
  destruct (@span_app is_space ws (u ++ post) Hws) as [Ht' Hdrop'].
  { intros c' r' Hr. rewrite Hcr in Hr. simpl in Hr. injection Hr as <- _. exact Hcs. }
  rewrite Ht', Hdrop'. now rewrite unitWord_prefix.
Qed.

Lemma scan_size_sound (t : list ascii) (m : MatchResult) :
  scan_size t = Some m -> sizeStartsAt t.
Proof.
  unfold scan_size. destruct t as [|d s']; [discriminate|].
  destruct (is_mag d) eqn:Hd; [|discriminate].
  destruct (unit_prefix _) as [[u post]|] eqn:Hu; [|discriminate].
  intros _. apply unit_prefix_word in Hu. destruct Hu as [Hsplit Hword].
  exists (d :: takeWhile is_mag s'), (takeWhile is_space (dropWhile is_mag s')), u, post.
  split.
  - simpl. f_equal. rewrite <- Hsplit. now rewrite !takeWhile_dropWhile.
  - split; [discriminate|]. split; [|split; [apply takeWhile_all | exact Hword]].
    simpl. rewrite Hd. apply takeWhile_all.
Qed.

Lemma search_found (ci : bool) (r : regex) (pre s : list ascii) (m : MatchResult) :
  exec_at ci r s = Some m ->
  (forall j, (j < length pre)%nat -> exec_at ci r (skipn j (pre ++ s)) = None) ->
  search ci r (pre ++ s) = Some m.
Proof.
  intros Hm. induction pre as [|c pre IH]; intros Hbefore.
  - simpl. destruct s; simpl; now rewrite Hm.
  - assert (H0 : exec_at ci r (c :: pre ++ s) = None).
    { apply (Hbefore 0%nat). simpl. lia. }
    cbn [app search]. rewrite H0.
    apply IH. intros j Hj. apply (Hbefore (S j)). simpl. lia.
Qed.

Lemma search_none (ci : bool) (r : regex) (s : list ascii) :
  (forall j, exec_at ci r (skipn j s) = None) -> search ci r s = None.
Proof.
  induction s as [|c s IH]; intros Hnone; simpl.
  - pose proof (Hnone 0%nat) as H0. cbn [skipn] in H0. now rewrite H0.
  - pose proof (Hnone 0%nat) as H0. cbn [skipn] in H0. rewrite H0.
    apply IH. intros j. apply (Hnone (S j)).
Qed.

Lemma exec_size_none (t : list ascii) : ~ sizeStartsAt t -> exec_at true re_size t = None.
Proof.
  intros Hno. rewrite exec_size_scan.
  destruct (scan_size t) as [m|] eqn:Hs; [|reflexivity].
  elim Hno. now apply scan_size_sound with m.
Qed.

(** ** parseDockerSize *)

Lemma parseDockerSize_absent : parseDockerSize None = num 0.
Proof. reflexivity. Qed.

Lemma parseDockerSize_empty : parseDockerSize (Some "") = num 0.
Proof. reflexivity. Qed.

Lemma parseDockerSize_no_size (s : string) :
  (forall j, ~ sizeStartsAt (skipn j (trim (chars s)))) ->
  parseDockerSize (Some s) = num 0.
Proof.
  intros Hno. unfold parseDockerSize.
  destruct (negb (nonempty (Some s))); [reflexivity|].
  unfold String_match. cbn [nullish].
  rewrite search_none; [reflexivity|].
  intros j. apply exec_size_none, Hno.
Qed.

Lemma parseDockerSize_first (s : string) (pre mag ws u post : list ascii) :
  trim (chars s) = pre ++ mag ++ ws ++ u ++ post ->
  sizeParts mag ws u ->
  (forall j, (j < length pre)%nat -> ~ sizeStartsAt (skipn j (trim (chars s)))) ->
  parseDockerSize (Some s)
  = Math_round (js_mul (js_Number mag) (multiplier (toLowerCase u))).
Proof.
  intros Htrim Hparts Hfirst.
  assert (Hne : nonempty (Some s) = true).
  { destruct s; [|reflexivity].
    destruct Hparts as [Hmag _]. exfalso.
    change (trim (chars "")) with (@nil ascii) in Htrim.
    symmetry in Htrim. apply app_eq_nil in Htrim. destruct Htrim as [_ Htrim].
    apply app_eq_nil in Htrim. destruct Htrim as [Htrim _]. contradiction. }
  unfold parseDockerSize. rewrite Hne. cbn [negb nullish]. unfold String_match.
  rewrite Htrim.
  rewrite (@search_found true re_size pre (mag ++ ws ++ u ++ post)
             (mkMatch (mag ++ ws ++ u) [mag; u] post)).
  - reflexivity.
  - rewrite exec_size_scan. now apply scan_size_complete.
  - intros j Hj. apply exec_size_none. rewrite <- Htrim. now apply Hfirst.
Qed.

(** C10 (as amended).  [parseDockerSize] reads the first magnitude
    followed by a unit that occurs anywhere in its trimmed input: when
    the magnitude is a decimal numeral, with value [v], the result is
    [v] times the multiplier of the unit, rounded to the nearest
    integer, whatever text surrounds the occurrence.  The result is 0
    when the input is absent or empty and when no magnitude followed by
    a unit occurs in it. *)
Theorem parseDockerSize_first_occurrence
  (s : string) (pre mag ws u post : list ascii) (v : Q) :
  trim (chars s) = pre ++ mag ++ ws ++ u ++ post ->
  sizeParts mag ws u ->
  (forall j, (j < length pre)%nat -> ~ sizeStartsAt (skipn j (trim (chars s)))) ->
  js_Number mag = Num v ->
  parseDockerSize (Some s) = Math_round (js_mul (Num v) (multiplier (toLowerCase u)))
  /\ parseDockerSize None = num 0
  /\ parseDockerSize (Some "") = num 0
  /\ (forall s', (forall j, ~ sizeStartsAt (skipn j (trim (chars s')))) ->
                 parseDockerSize (Some s') = num 0).
Proof.
  intros Htrim Hparts Hfirst Hv.
  split; [|split; [reflexivity | split; [reflexivity | apply parseDockerSize_no_size]]].
  rewrite <- Hv. now apply parseDockerSize_first with pre ws post.
Qed.

Lemma sizeStartsAt_head (t : list ascii) :
  sizeStartsAt t -> exists c r, t = c :: r /\ is_mag c = true.
Proof.
  intros [mag [ws [u [post [-> [Hne [Hmag _]]]]]]].
  destruct mag as [|d mag']; [now elim Hne|].
  simpl in Hmag. apply andb_true_iff in Hmag. destruct Hmag as [Hd _].
  now exists d, (mag' ++ ws ++ u ++ post).
Qed.

Lemma no_size_at (c : ascii) (r : list ascii) : is_mag c = false -> ~ sizeStartsAt (c :: r).
Proof.
  intros Hc Hs. apply sizeStartsAt_head in Hs.
  destruct Hs as [c' [r' [Heq Hm]]]. injection Heq as <- _. congruence.
Qed.

Lemma parseDockerSize_first_occurrence_witness :
  parseDockerSize (Some "abc 5KB xyz")
  = Math_round (js_mul (Num 5) (multiplier (toLowerCase (chars "KB")))).
Proof.
  refine (proj1 (@parseDockerSize_first_occurrence "abc 5KB xyz"
                   (chars "abc ") (chars "5") [] (chars "KB") (chars " xyz") 5
                   eq_refl _ _ eq_refl)).
  - split; [discriminate|]. split; [reflexivity|]. split; [reflexivity|].
    unfold unitWord. simpl. tauto.
  - intros j Hj.
    destruct j as [|[|[|[|j]]]]; try (apply no_size_at; reflexivity).
    simpl in Hj. lia.
Defined.

Example parseDockerSize_virtual :
  parseDockerSize (Some "150MB (virtual 1.2GB)") = num 150000000.
Proof. vm_compute. reflexivity. Qed.

Example parseDockerSize_inner :
  parseDockerSize (Some "abc 5KB xyz") = num 5000.
Proof. vm_compute. reflexivity. Qed.

Example parseDockerSize_fraction :
  parseDockerSize (Some "  1.23456   MB ") = num 1234560.
Proof. vm_compute. reflexivity. Qed.

Example parseDockerSize_invalid :
  parseDockerSize (Some "invalid") = num 0.
Proof. vm_compute. reflexivity. Qed.

Example parseDockerSize_two_dots :
  parseDockerSize (Some "1.2.3MB") = NaN.
Proof. vm_compute. reflexivity. Qed.

Example parseDockerSize_skips_text :
  parseDockerSize (Some "id 12, 5 kb used") = num 5000.
Proof. vm_compute. reflexivity. Qed.

(** C10, as first stated, fails at ["0 B"]: a magnitude followed by a
    unit occurs in the input, and the result is 0. *)
Lemma parseDockerSize_zero_magnitude :
  ~ (forall s, parseDockerSize (Some s) = num 0 ->
               forall j, ~ sizeStartsAt (skipn j (trim (chars s)))).
Proof.
  intros Hall.
  apply (Hall "0 B" eq_refl 0%nat).
  exists (chars "0"), (chars " "), (chars "B"), [].
  split; [reflexivity|].
  split; [discriminate|]. split; [reflexivity|]. split; [reflexivity|].
  unfold unitWord. simpl. tauto.
Qed.

(** ** The outputs of the test suite *)

Example parsePrunedCount_response :
  parsePrunedCount "Deleted Containers: 3
Total reclaimed space: 150 MB
" = num 3.
Proof. vm_compute. reflexivity. Qed.

Example parsePrunedCount_two_lines :
  parsePrunedCount "Deleted Containers: 3
deleted images: 4" = num 7.
Proof. vm_compute. reflexivity. Qed.

Example parseReclaimedBytes_response :
  parseReclaimedBytes "Total reclaimed space: 1.2 GB" = num 1200000000.
Proof. vm_compute. reflexivity. Qed.

Example parsePrunedCount_no_count :
  parsePrunedCount "No items to delete" = num 0.
Proof. vm_compute. reflexivity. Qed.

(** * Further properties *)

(** ** docker.ts: the commands *)

(** X1.  The command line that [buildPruneArgs] builds for display is
    the program name followed by exactly the arguments that
    [dockerPrune] executes for the same kind, filter and flag, and
    [buildCachePruneArgs] is [buildPruneArgs] for the cache. *)
Theorem buildPruneArgs_is_what_runs `{Runtime}
  (t : ResourceType) (fu : option string) (all : bool) (st : State) :
  exists args,
    buildPruneArgs t fu all = "docker" :: args
    /\ calls (snd (dockerPrune t fu all st)) = calls st ++ [args]
    /\ fst (dockerPrune t fu all st) = fst (run_docker args (world st))
    /\ buildCachePruneArgs fu = buildPruneArgs cache fu all.
Proof.
  exists (pruneBaseArgs t all ++ until_args fu).
  split; [|split; [|split]].
  - destruct t, all; reflexivity.
  - unfold dockerPrune, execDocker.
    destruct (run_docker (pruneBaseArgs t all ++ until_args fu) (world st)); reflexivity.
  - unfold dockerPrune, execDocker.
    destruct (run_docker (pruneBaseArgs t all ++ until_args fu) (world st)); reflexivity.
  - reflexivity.
Qed.

(** X2.  The build-cache preview first runs [buildx prune --dry-run].
    When that command goes through, its output is the preview and
    nothing else runs.  When it fails, the real [builder prune -f] is
    run with the same [until] filter and its outcome is the result: the
    estimate is then obtained by pruning. *)
Theorem dockerBuilderPruneDryRun_fallback `{Runtime}
  (fu : option string) (st : State) :
  let preview := ["buildx"; "prune"; "--dry-run"] ++ until_args fu in
  let real := ["builder"; "prune"; "-f"] ++ until_args fu in
  (forall out w,
      run_docker preview (world st) = (Ok out, w) ->
      dockerBuilderPruneDryRun fu st
      = (Ok out, {| world := w; calls := calls st ++ [preview] |}))
  /\ (forall e w o w',
        run_docker preview (world st) = (Throw e, w) ->
        run_docker real w = (o, w') ->
        dockerBuilderPruneDryRun fu st
        = (o, {| world := w'; calls := (calls st ++ [preview]) ++ [real] |})).
Proof.
  intros preview real. split.
  - intros out w Hrun. unfold dockerBuilderPruneDryRun, try_catch, execDocker.
    fold preview. now rewrite Hrun.
  - intros e w o w' Hrun Hreal. unfold dockerBuilderPruneDryRun, try_catch, execDocker.
    fold preview real. rewrite Hrun. simpl. now rewrite Hreal.
Qed.

Lemma dockerBuilderPruneDryRun_fallback_witness :
  @dockerBuilderPruneDryRun demo (Some "2024-01-14T12:00:00.000Z")
    (demo_state [Throw (ErrorObj "unknown flag: --dry-run"); Ok "Total reclaimed space: 2GB"])
  = (Ok "Total reclaimed space: 2GB",
     @mkState demo []
       [["buildx"; "prune"; "--dry-run"; "--filter"; "until=2024-01-14T12:00:00.000Z"];
        ["builder"; "prune"; "-f"; "--filter"; "until=2024-01-14T12:00:00.000Z"]]).
Proof.
  exact (proj2 (@dockerBuilderPruneDryRun_fallback demo (Some "2024-01-14T12:00:00.000Z")
                  (demo_state [Throw (ErrorObj "unknown flag: --dry-run");
                               Ok "Total reclaimed space: 2GB"]))
           (ErrorObj "unknown flag: --dry-run") [Ok "Total reclaimed space: 2GB"]
           (Ok "Total reclaimed space: 2GB") [] eq_refl eq_refl).
Defined.

Lemma succeeds_runs `{Runtime} (args : list string) (st : State) :
  succeeds args st
  = (Ok (match fst (run_docker args (world st)) with Ok _ => true | Throw _ => false end),
     {| world := snd (run_docker args (world st)); calls := calls st ++ [args] |}).
Proof.
  unfold succeeds, try_catch, bind, execDocker, ret.
  destruct (run_docker args (world st)) as [[out|e] w]; reflexivity.
Qed.

(** X3.  [checkDocker] never throws.  It reports code 1 when
    [docker --version] fails, and then does not run [docker info];
    code 2 when [docker info] fails; and [ok] with code 0 exactly when
    both commands go through. *)
Theorem checkDocker_codes `{Runtime} (st : State) :
  let v := run_docker ["--version"] (world st) in
  let i := run_docker ["info"] (snd v) in
  exists check st',
    checkDocker st = (Ok check, st')
    /\ (ok check = true <-> exit_code check = 0%Z)
    /\ (ok check = true <-> (exists o1 o2, fst v = Ok o1 /\ fst i = Ok o2))
    /\ ((exists e, fst v = Throw e) ->
        exit_code check = 1%Z /\ calls st' = calls st ++ [["--version"]])
    /\ ((exists o1 e, fst v = Ok o1 /\ fst i = Throw e) ->
        exit_code check = 2%Z /\ calls st' = (calls st ++ [["--version"]]) ++ [["info"]]).
Proof.
  intros v i. unfold checkDocker, bind.
  rewrite succeeds_runs. fold v.
  destruct (fst v) as [o1|e1] eqn:Hv; cbn [negb].
  - rewrite succeeds_runs. cbn [world calls]. fold i.
    destruct (fst i) as [o2|e2] eqn:Hi; cbn [negb]; eexists; eexists;
      (split; [reflexivity|]); cbn [ok exit_code calls].
    + split; [tauto|]. split; [|split].
      * split; [intros _; now exists o1, o2 | reflexivity].
      * intros [e He]. discriminate.
      * intros [o [e [_ He]]]. discriminate.
    + split; [split; discriminate|]. split; [|split].
      * split; [discriminate|]. intros [o [o2 [_ Ho]]]. discriminate.
      * intros [e He]. discriminate.
      * intros _. split; reflexivity.
  - eexists; eexists. split; [reflexivity|]. cbn [ok exit_code calls].
    split; [split; discriminate|]. split; [|split].
    + split; [discriminate|]. intros [o [o2 [Ho _]]]. discriminate.
    + intros _. split; reflexivity.
    + intros [o [e [Ho _]]]. discriminate.
Qed.

Lemma checkDocker_codes_witness :
  exists check st',
    @checkDocker demo (demo_state [Ok "Docker version 27"; Throw (ErrorObj "daemon down")])
    = (Ok check, st')
    /\ exit_code check = 2%Z
    /\ calls st' = [["--version"]; ["info"]].
Proof.
  destruct (@checkDocker_codes demo
              (demo_state [Ok "Docker version 27"; Throw (ErrorObj "daemon down")]))
    as [check [st' [Hrun [_ [_ [_ Hinfo]]]]]].
  exists check, st'. split; [exact Hrun|].
  apply Hinfo. exists "Docker version 27", (ErrorObj "daemon down"). split; reflexivity.
Defined.

(** ** docker.ts: JSON lines *)

Lemma chars_append (a b : string) : chars (String.append a b) = chars a ++ chars b.
Proof. induction a as [|c a IH]; simpl; [reflexivity | now rewrite IH]. Qed.

Lemma split_on_nonempty (sep : ascii) (s : list ascii) : split_on sep s <> [].
Proof.
  induction s as [|c s IH]; simpl; [discriminate|].
  destruct (Ascii.eqb c sep); [discriminate|].
  destruct (split_on sep s); discriminate.
Qed.

Lemma split_on_app (sep : ascii) (a b : list ascii) :
  split_on sep (a ++ sep :: b) = split_on sep a ++ split_on sep b.
Proof.
  induction a as [|c a IH]; simpl.
  - now rewrite Ascii.eqb_refl.
  - destruct (Ascii.eqb c sep); [now rewrite IH|].
    rewrite IH. pose proof (split_on_nonempty sep a) as Hne.
    destruct (split_on sep a) as [|l ls]; [now elim Hne | reflexivity].
Qed.

Lemma parse_lines_app `{Runtime} (l1 l2 : list (list ascii)) :
  parse_lines (l1 ++ l2) = both_parsed (parse_lines l1) (parse_lines l2).
Proof.
  induction l1 as [|l l1 IH]; simpl.
  - destruct (parse_lines l2); reflexivity.
  - destruct (JSON_parse (str l)) as [r|e]; [|reflexivity].
    rewrite IH. destruct (parse_lines l1) as [rs|e]; [|reflexivity].
    simpl. destruct (parse_lines l2); reflexivity.
Qed.

(** X4.  [parseDockerJsonLines] works line by line: the records of two
    outputs joined by a line break are the records of the first
    followed by the records of the second, and the first line that is
    not valid JSON is the error.  Empty output gives no record, so
    blank lines and a final line break change nothing. *)
Theorem parseDockerJsonLines_by_line `{Runtime} (a b : string) :
  parseDockerJsonLines (String.append a (String newline b))
  = both_parsed (parseDockerJsonLines a) (parseDockerJsonLines b)
  /\ parseDockerJsonLines "" = Ok []
  /\ parseDockerJsonLines (String.append a (String newline "")) = parseDockerJsonLines a
  /\ parseDockerJsonLines (String.append a (String newline (String newline b)))
     = parseDockerJsonLines (String.append a (String newline b)).
Proof.
  assert (Hjoin : forall x y,
             parseDockerJsonLines (String.append x (String newline y))
             = both_parsed (parseDockerJsonLines x) (parseDockerJsonLines y)).
  { intros x y. unfold parseDockerJsonLines.
    rewrite chars_append. change (chars (String newline y)) with (newline :: chars y).
    rewrite split_on_app, map_app, filter_app. apply parse_lines_app. }
  assert (Hempty : parseDockerJsonLines "" = Ok []) by reflexivity.
  assert (Hright : forall o, both_parsed o (Ok []) = o).
  { intros [rs|e]; simpl; [now rewrite app_nil_r | reflexivity]. }
  split; [apply Hjoin|]. split; [exact Hempty|]. split.
  - rewrite Hjoin, Hempty. apply Hright.
  - assert (Hblank : parseDockerJsonLines (String newline b) = parseDockerJsonLines b).
    { pose proof (Hjoin "" b) as Hb. cbn [String.append] in Hb.
      rewrite Hb, Hempty. now destruct (parseDockerJsonLines b). }
    now rewrite (Hjoin a (String newline b)), Hblank, (Hjoin a b).
Qed.

Example parseDockerJsonLines_demo :
  @parseDockerJsonLines demo "ID=a1,State=exited

  ID=b2,State=running
"
  = Ok [[("ID", "a1"); ("State", "exited")]; [("ID", "b2"); ("State", "running")]].
Proof. vm_compute. reflexivity. Qed.

(** ** scan.ts: selection *)

Lemma slice0_firstn {A : Type} (l : list A) (n : number) :
  exists k, slice0 l n = firstn k l.
Proof. unfold slice0. eexists. reflexivity. Qed.

Lemma applySizeFilters_rest (l : list ResourceItem) (top limit : option number) :
  exists rest, Permutation (applySizeFilters l top limit ++ rest) l.
Proof.
  unfold applySizeFilters.
  destruct (negb (truthy_opt top) && negb (truthy_opt limit))%bool.
  - exists []. rewrite app_nil_r. apply Permutation_refl.
  - destruct top as [n|].
    + destruct (slice0_firstn (sortBySize l) n) as [k Hk].
      exists (skipn k (sortBySize l)). unfold selectTopN. rewrite Hk, firstn_skipn.
      apply sortBySize_perm.
    + destruct limit as [lim|].
      * destruct (selectLoop_prefix (sortBySize l) (num 0) lim) as [rest [Hsplit _]].
        exists rest. unfold selectUntilSpaceLimit. rewrite <- Hsplit.
        apply sortBySize_perm.
      * exists []. rewrite app_nil_r. apply sortBySize_perm.
Qed.

Lemma applySizeFilters_incl (l : list ResourceItem) (top limit : option number) :
  incl (applySizeFilters l top limit) l.
Proof.
  destruct (applySizeFilters_rest l top limit) as [rest Hp].
  intros x Hx. apply (Permutation_in _ Hp). apply in_or_app. now left.
Qed.

(** X5.  The size filters only select: whatever the two options, the
    result and some remainder are a rearrangement of the input, so no
    item is invented or repeated; and when neither option is a
    non-zero number the input is returned as it is, unsorted. *)
Theorem applySizeFilters_only_selects (l : list ResourceItem) (top limit : option number) :
  (exists rest, Permutation (applySizeFilters l top limit ++ rest) l)
  /\ (length (applySizeFilters l top limit) <= length l)%nat
  /\ (truthy_opt top = false -> truthy_opt limit = false ->
      applySizeFilters l top limit = l).
Proof.
  split; [apply applySizeFilters_rest|]. split.
  - destruct (applySizeFilters_rest l top limit) as [rest Hp].
    apply Permutation_length in Hp. rewrite length_app in Hp. lia.
  - intros Ht Hl. unfold applySizeFilters. now rewrite Ht, Hl.
Qed.

Lemma applySizeFilters_only_selects_witness :
  let a := item_of_size "a" "1MB" in
  let b := item_of_size "b" "3MB" in
  applySizeFilters [a; b] (Some (num 0)) None = [a; b].
Proof.
  intros a b.
  exact (proj2 (proj2 (@applySizeFilters_only_selects [a; b] (Some (num 0)) None))
           eq_refl eq_refl).
Defined.

Lemma ToInteger_falsy (n : number) : truthy n = false -> ToInteger n = 0%Z.
Proof.
  destruct n as [|q]; [reflexivity|]. simpl. intros Hq.
  apply negb_false_iff, Qeq_bool_iff in Hq.
  assert (Hf : Qfloor q = 0%Z) by (rewrite (Qfloor_comp _ _ Hq); reflexivity).
  assert (Hc : Qceiling q = 0%Z) by (rewrite (Qceiling_comp _ _ Hq); reflexivity).
  destruct (Qle_bool 0 q); assumption.
Qed.

(** X6.  When a top count is supplied and a filter is active, the
    cumulative limit is not looked at: with a non-zero top the result
    is the one obtained without a limit.  A top of 0 (or NaN) supplied
    together with a non-zero limit selects nothing at all. *)
Theorem applySizeFilters_top_wins (l : list ResourceItem) (n limit : number) :
  (truthy n = true ->
   applySizeFilters l (Some n) (Some limit) = applySizeFilters l (Some n) None)
  /\ (truthy n = false -> truthy limit = true ->
      applySizeFilters l (Some n) (Some limit) = [])
  /\ (truthy n = false -> truthy limit = false ->
      applySizeFilters l (Some n) (Some limit) = l).
Proof.
  split; [|split].
  - intros Hn. unfold applySizeFilters, truthy_opt. now rewrite Hn.
  - intros Hn Hl. unfold applySizeFilters, truthy_opt. rewrite Hn, Hl. cbn [negb andb].
    unfold selectTopN, slice0. rewrite (ToInteger_falsy _ Hn).
    cbn [Z.ltb Z.compare]. rewrite Z.min_l by lia. reflexivity.
  - intros Hn Hl. unfold applySizeFilters, truthy_opt. now rewrite Hn, Hl.
Qed.

Lemma applySizeFilters_top_wins_witness :
  let a := item_of_size "a" "1MB" in
  let b := item_of_size "b" "3MB" in
  applySizeFilters [a; b] (Some (num 1)) (Some (num 4000000)) = [b]
  /\ applySizeFilters [a; b] (Some (num 0)) (Some (num 4000000)) = [].
Proof.
  intros a b. split.
  - rewrite (proj1 (@applySizeFilters_top_wins [a; b] (num 1) (num 4000000)) eq_refl).
    vm_compute. reflexivity.
  - exact (proj1 (proj2 (@applySizeFilters_top_wins [a; b] (num 0) (num 4000000)))
             eq_refl eq_refl).
Defined.

(** X7.  A negative top count [-k] is not rejected: [slice(0, -k)]
    counts from the end, so the selection is the sorted list without
    its last [k] items, and nothing when the list has at most [k]
    items. *)
Theorem applySizeFilters_negative_top (l : list ResourceItem) (k : Z) :
  (0 < k)%Z ->
  applySizeFilters l (Some (num (- k))) None
  = firstn (length l - Z.to_nat k) (sortBySize l)
  /\ length (applySizeFilters l (Some (num (- k))) None) = (length l - Z.to_nat k)%nat.
Proof.
  intros Hk.
  assert (Hsel : applySizeFilters l (Some (num (- k))) None
                 = firstn (length l - Z.to_nat k) (sortBySize l)).
  { unfold applySizeFilters, truthy_opt. rewrite truthy_num by lia. cbn [negb andb].
    unfold selectTopN, slice0. rewrite ToInteger_num.
    destruct (- k <? 0)%Z eqn:Hneg; [|apply Z.ltb_ge in Hneg; lia].
    f_equal. unfold sortBySize. rewrite Array_sort_length. lia. }
  split; [exact Hsel|].
  rewrite Hsel, length_firstn. unfold sortBySize. rewrite Array_sort_length. lia.
Qed.

Lemma applySizeFilters_negative_top_witness :
  let a := item_of_size "a" "1MB" in
  let b := item_of_size "b" "3MB" in
  let c := item_of_size "c" "2MB" in
  applySizeFilters [a; b; c] (Some (num (-1))) None = [b; c].
Proof.
  intros a b c. change (num (-1)) with (num (Z.opp 1)).
  rewrite (proj1 (@applySizeFilters_negative_top [a; b; c] 1 eq_refl)).
  vm_compute. reflexivity.
Defined.

(** ** scan.ts: the age filter *)

Lemma applyOlderThan_filters `{Runtime} (l l' : list ResourceItem) (ms : option number)
  (st st' : State) :
  applyOlderThan l ms st = (Ok l', st') -> st' = st /\ incl l' l.
Proof.
  unfold applyOlderThan. destruct ms as [ms|].
  - destruct (negb (truthy ms)).
    + unfold ret. intros Hr. injection Hr as <- <-. split; [reflexivity | apply incl_refl].
    + unfold bind, Date_now, ret. intros Hr. injection Hr as <- <-.
      split; [reflexivity|]. intros x Hx. apply filter_In in Hx. tauto.
  - unfold ret. intros Hr. injection Hr as <- <-. split; [reflexivity | apply incl_refl].
Qed.

(** X8.  The age filter is monotone in the threshold: at one reading of
    the clock, every item kept with a threshold is kept with any larger
    threshold, since the cut-off only moves back in time. *)
Theorem applyOlderThan_monotone `{Runtime}
  (l l1 l2 : list ResourceItem) (a b : Q) (st st1 st2 : State) :
  (0 < a)%Q -> (a <= b)%Q ->
  applyOlderThan l (Some (Num a)) st = (Ok l1, st1) ->
  applyOlderThan l (Some (Num b)) st = (Ok l2, st2) ->
  incl l1 l2.
Proof.
  intros Ha Hab H1 H2.
  assert (Hta : truthy (Num a) = true).
  { simpl. apply negb_true_iff. destruct (Qeq_bool a 0) eqn:Hq; [|reflexivity].
    apply Qeq_bool_iff in Hq. rewrite Hq in Ha. exfalso. exact (Qlt_irrefl _ Ha). }
  assert (Htb : truthy (Num b) = true).
  { simpl. apply negb_true_iff. destruct (Qeq_bool b 0) eqn:Hq; [|reflexivity].
    apply Qeq_bool_iff in Hq. rewrite Hq in Hab. exfalso.
    exact (Qlt_not_le _ _ Ha Hab). }
  unfold applyOlderThan in H1, H2. rewrite Hta in H1. rewrite Htb in H2.
  unfold bind, Date_now, ret in H1, H2. cbn [negb] in H1, H2.
  injection H1 as <- _. injection H2 as <- _.
  intros x Hx. apply filter_In in Hx. destruct Hx as [Hin Hc].
  apply filter_In. split; [exact Hin|].
  apply createdSince_spec in Hc. apply createdSince_spec.
  destruct Hc as [c [created [k [Hc [Hne [Hp [Hk Hle]]]]]]].
  destruct (clock (world st)) as [|now]; [discriminate|].
  simpl in Hk. injection Hk as <-.
  exists c, created, (now - b)%Q. repeat split; try assumption.
  apply Qle_trans with (now - a)%Q; [|exact Hle].
  unfold Qminus. apply Qplus_le_r. now apply Qopp_le_compat.
Qed.

Lemma applyOlderThan_monotone_witness :
  incl [item_created "young" (Some "999000")]
       [item_created "old" (Some "100"); item_created "young" (Some "999000")].
Proof.
  refine (@applyOlderThan_monotone demo
            [item_created "old" (Some "100"); item_created "young" (Some "999000")]
            _ _ 5000 1000000 (demo_state []) (demo_state []) (demo_state [])
            _ _ eq_refl eq_refl); reflexivity || (unfold Qle; simpl; lia).
Defined.

(** ** scan.ts: the summaries *)

Lemma or_default_empty (a : option string) : or_default a "" = nullish a "".
Proof. destruct a as [[|c s]|]; reflexivity. Qed.

Lemma scanContainers_summary `{Runtime} options acc st acc' st' :
  scanContainers options acc st = (Ok acc', st') ->
  exists s, summaries acc' = summaries acc ++ [s]
            /\ type s = containers /\ wellFormedSummary options s.
Proof.
  unfold scanContainers. intros Hrun. run_bind Hrun. run_bind Hrun.
  unfold ret in Hrun. injection Hrun as <- _.
  eexists. split; [reflexivity|]. split; [reflexivity|].
  unfold wellFormedSummary. cbn [type items reclaimableBytes].
  split; [reflexivity|]. split; [now exists o0|].
  intros item Hin. apply applySizeFilters_incl in Hin.
  apply applyOlderThan_filters in Hc0. destruct Hc0 as [_ Hincl].
  apply Hincl, in_map_iff in Hin. destruct Hin as [c [<- Hfc]].
  apply filter_In in Hfc. exists c. now repeat split.
Qed.

Lemma scanImages_summary `{Runtime} options acc st acc' st' :
  scanImages options acc st = (Ok acc', st') ->
  exists s, summaries acc' = summaries acc ++ [s]
            /\ type s = images /\ wellFormedSummary options s.
Proof.
  unfold scanImages. intros Hrun. run_bind Hrun. run_bind Hrun.
  unfold ret in Hrun. injection Hrun as <- _.
  eexists. split; [reflexivity|]. split; [reflexivity|].
  unfold wellFormedSummary. cbn [type items reclaimableBytes].
  split; [reflexivity|]. split; [now exists o0|].
  intros item Hin. apply applySizeFilters_incl in Hin.
  apply applyOlderThan_filters in Hc0. destruct Hc0 as [_ Hincl].
  apply Hincl, in_map_iff in Hin. destruct Hin as [r [<- Hr]].
  apply filter_In in Hr. destruct Hr as [_ Hr].
  exists r. split; [reflexivity|]. split; [reflexivity|].
  intros Hall. now rewrite Hall in Hr.
Qed.

Lemma scanVolumes_summary `{Runtime} options acc st acc' st' :
  scanVolumes options acc st = (Ok acc', st') ->
  exists s, summaries acc' = summaries acc ++ [s]
            /\ type s = volumes /\ wellFormedSummary options s.
Proof.
  unfold scanVolumes. intros Hrun. run_bind Hrun. run_bind Hrun.
  unfold ret in Hrun. injection Hrun as <- _.
  eexists. split; [reflexivity|]. split; [reflexivity|].
  unfold wellFormedSummary. cbn [type items reclaimableBytes].
  split; [reflexivity|].
  intros item Hin.
  apply applyOlderThan_filters in Hc0. destruct Hc0 as [_ Hincl].
  apply Hincl, in_map_iff in Hin. destruct Hin as [v [<- _]]. now exists v.
Qed.

Lemma scanNetworks_summary `{Runtime} options acc st acc' st' :
  scanNetworks options acc st = (Ok acc', st') ->
  exists s, summaries acc' = summaries acc ++ [s]
            /\ type s = networks /\ wellFormedSummary options s.
Proof.
  unfold scanNetworks. intros Hrun. run_bind Hrun. run_bind Hrun.
  unfold ret in Hrun. injection Hrun as <- _.
  eexists. split; [reflexivity|]. split; [reflexivity|].
  unfold wellFormedSummary. cbn [type items reclaimableBytes].
  split; [reflexivity|].
  intros item Hin.
  apply applyOlderThan_filters in Hc0. destruct Hc0 as [_ Hincl].
  apply Hincl, in_map_iff in Hin. destruct Hin as [n [<- Hn]].
  apply filter_In in Hn. destruct Hn as [_ Hn]. apply negb_true_iff in Hn.
  split; [|now exists n].
  unfold networkItem. cbn [name]. now rewrite or_default_empty.
Qed.

Lemma scanCache_summary `{Runtime} options acc st acc' st' :
  scanCache options acc st = (Ok acc', st') ->
  exists s, summaries acc' = summaries acc ++ [s]
            /\ type s = cache /\ wellFormedSummary options s.
Proof.
  unfold scanCache. intros Hrun. run_bind Hrun. run_bind Hrun.
  unfold ret in Hrun. injection Hrun as <- _.
  eexists. split; [reflexivity|]. split; reflexivity.
Qed.

Lemma scanned_step `{Runtime} options (b : bool) (t : ResourceType)
  (scan : ScanResult -> M ScanResult) kinds acc st acc' st' :
  (forall a s a' s', scan a s = (Ok a', s') ->
     exists x, summaries a' = summaries a ++ [x] /\ type x = t /\ wellFormedSummary options x) ->
  (if b then scan acc else ret acc) st = (Ok acc', st') ->
  scanned options kinds acc ->
  scanned options (kinds ++ (if b then [t] else [])) acc'.
Proof.
  intros Hscan Hrun [Hk Hw]. destruct b.
  - destruct (Hscan _ _ _ _ Hrun) as [x [Hs [Ht Hx]]]. split.
    + rewrite Hs, map_app, Hk. simpl. now rewrite Ht.
    + rewrite Hs. apply Forall_app. split; [exact Hw | now constructor].
  - unfold ret in Hrun. injection Hrun as <- _. rewrite app_nil_r. now split.
Qed.

Lemma dfFallback_summaries `{Runtime} acc st result st' :
  dfFallback acc st = (Ok result, st') -> summaries result = summaries acc.
Proof.
  unfold dfFallback. destruct (js_eq (totalReclaimableBytes acc) (num 0)).
  - intros Hrun. run_bind Hrun.
    destruct (find _ o); unfold ret in Hrun; injection Hrun as <- _; reflexivity.
  - unfold ret. intros Hrun. now injection Hrun as <- _.
Qed.

Lemma scanResources_scanned `{Runtime} options st result st' :
  scanResources options st = (Ok result, st') ->
  scanned options (requestedKinds options) result.
Proof.
  unfold scanResources. intros Hrun. run_bind Hrun.
  apply dfFallback_summaries in Hrun.
  unfold scanned. rewrite Hrun. clear Hrun.
  unfold scanKinds in Hc.
  run_bind Hc. run_bind Hc. run_bind Hc. run_bind Hc.
  unfold requestedKinds.
  assert (H1 : scanned options
                 ([] ++ (if includeContainers options then [containers] else [])) o0).
  { eapply scanned_step; [apply scanContainers_summary | eassumption |].
    split; [reflexivity | constructor]. }
  assert (H2 : scanned options
                 (([] ++ (if includeContainers options then [containers] else []))
                    ++ (if includeImages options then [images] else [])) o1).
  { eapply scanned_step; [apply scanImages_summary | eassumption | exact H1]. }
  assert (H3 : scanned options
                 ((([] ++ (if includeContainers options then [containers] else []))
                     ++ (if includeImages options then [images] else []))
                    ++ (if includeVolumes options then [volumes] else [])) o2).
  { eapply scanned_step; [apply scanVolumes_summary | eassumption | exact H2]. }
  assert (H4 : scanned options
                 (((([] ++ (if includeContainers options then [containers] else []))
                      ++ (if includeImages options then [images] else []))
                     ++ (if includeVolumes options then [volumes] else []))
                    ++ (if includeNetworks options then [networks] else [])) o3).
  { eapply scanned_step; [apply scanNetworks_summary | eassumption | exact H3]. }
  assert (H5 : scanned options
                 ((((([] ++ (if includeContainers options then [containers] else []))
                       ++ (if includeImages options then [images] else []))
                      ++ (if includeVolumes options then [volumes] else []))
                     ++ (if includeNetworks options then [networks] else []))
                    ++ (if includeCache options then [cache] else [])) o).
  { eapply scanned_step; [apply scanCache_summary | eassumption | exact H4]. }
  simpl app in H5. rewrite <- !app_assoc in H5. exact H5.
Qed.

Lemma scanned_summary `{Runtime} options st result st' (s : ResourceSummary) :
  scanResources options st = (Ok result, st') ->
  In s (summaries result) -> wellFormedSummary options s.
Proof.
  intros Hrun Hs. apply scanResources_scanned in Hrun. destruct Hrun as [_ Hw].
  rewrite Forall_forall in Hw. now apply Hw.
Qed.

(** X9.  A scan that returns gives one summary per requested kind, in
    the fixed order containers, images, volumes, networks, cache,
    whatever the runtime answered. *)
Theorem scanResources_one_summary_per_kind `{Runtime}
  (options : ScanOptions) (st st' : State) (result : ScanResult) :
  scanResources options st = (Ok result, st') ->
  map type (summaries result) = requestedKinds options.
Proof. intros Hrun. apply scanResources_scanned in Hrun. exact (proj1 Hrun). Qed.

Lemma scanResources_one_summary_per_kind_witness :
  exists result st',
    @scanResources demo (mkScanOptions true false false true true None None None None)
      (demo_state [Ok "ID=c1,State=Exited,Size=2MB"; Ok "ID=n1,Name=bridge";
                   Ok "Total reclaimable: 3MB"])
    = (Ok result, st')
    /\ map type (summaries result) = [containers; networks; cache].
Proof.
  eexists. eexists. split; [vm_compute; reflexivity|].
  apply (@scanResources_one_summary_per_kind demo
           (mkScanOptions true false false true true None None None None)
           (demo_state [Ok "ID=c1,State=Exited,Size=2MB"; Ok "ID=n1,Name=bridge";
                        Ok "Total reclaimable: 3MB"])
           (@mkState demo []
              [["ps"; "-a"; "--format"; "{{json .}}"];
               ["network"; "ls"; "--format"; "{{json .}}"; "--filter"; "dangling=true"];
               ["buildx"; "prune"; "--dry-run"]])).
  vm_compute. reflexivity.
Defined.

Lemma stoppedState_spec (c : JsonRecord) :
  stoppedState c = true <->
  exists state, field c "State" = Some state
                /\ (str (toLowerCase (chars state)) = "exited"
                    \/ str (toLowerCase (chars state)) = "dead").
Proof.
  unfold stoppedState. destruct (field c "State") as [state|]; cbn [existsb].
  - rewrite orb_false_r, orb_true_iff, !String.eqb_eq. split.
    + intros Hs. exists state. split; [reflexivity | exact Hs].
    + intros [x [Hx Hs]]. now injection Hx as <-.
  - split; [discriminate|]. intros [x [Hx _]]. discriminate.
Qed.

(** X10.  The scan never selects a container that is not stopped:
    every item of a containers summary is built from a record that has
    a state, and that state is "exited" or "dead" up to letter case. *)
Theorem scanResources_containers_stopped `{Runtime}
  (options : ScanOptions) (st st' : State) (result : ScanResult)
  (s : ResourceSummary) (item : ResourceItem) :
  scanResources options st = (Ok result, st') ->
  In s (summaries result) -> type s = containers -> In item (items s) ->
  exists record state,
    raw item = Some record /\ item = containerItem record
    /\ field record "State" = Some state
    /\ (str (toLowerCase (chars state)) = "exited"
        \/ str (toLowerCase (chars state)) = "dead").
Proof.
  intros Hrun Hs Ht Hitem.
  pose proof (scanned_summary _ _ _ Hrun Hs) as Hw.
  unfold wellFormedSummary in Hw. rewrite Ht in Hw.
  destruct Hw as [_ [_ Hitems]].
  destruct (Hitems item Hitem) as [c [Hraw [Hstate Hbuilt]]].
  apply stoppedState_spec in Hstate. destruct Hstate as [state [Hf Hstate]].
  now exists c, state.
Qed.

(** X11.  Unless all images are asked for, the scan only selects
    dangling images: every item of an images summary is built from a
    record whose repository or tag is the marker [<none>]. *)
Theorem scanResources_images_dangling `{Runtime}
  (options : ScanOptions) (st st' : State) (result : ScanResult)
  (s : ResourceSummary) (item : ResourceItem) :
  scanResources options st = (Ok result, st') ->
  is_true (scan_includeAllImages options) = false ->
  In s (summaries result) -> type s = images -> In item (items s) ->
  exists record,
    raw item = Some record /\ item = imageItem record
    /\ (field record "Repository" = Some "<none>" \/ field record "Tag" = Some "<none>").
Proof.
  intros Hrun Hall Hs Ht Hitem.
  pose proof (scanned_summary _ _ _ Hrun Hs) as Hw.
  unfold wellFormedSummary in Hw. rewrite Ht in Hw.
  destruct Hw as [_ [_ Hitems]].
  destruct (Hitems item Hitem) as [r [Hraw [Hbuilt Hdangling]]].
  exists r. split; [exact Hraw|]. split; [exact Hbuilt|].
  specialize (Hdangling Hall). unfold danglingImage in Hdangling.
  apply orb_true_iff in Hdangling.
  destruct Hdangling as [Hd | Hd]; apply String.eqb_eq in Hd; [left | right].
  - destruct (field r "Repository"); [now f_equal | discriminate].
  - destruct (field r "Tag"); [now f_equal | discriminate].
Qed.

(** X12.  The scan never selects a system network: no item of a
    networks summary is named bridge, host or none. *)
Theorem scanResources_no_system_network `{Runtime}
  (options : ScanOptions) (st st' : State) (result : ScanResult)
  (s : ResourceSummary) (item : ResourceItem) :
  scanResources options st = (Ok result, st') ->
  In s (summaries result) -> type s = networks -> In item (items s) ->
  name item <> "bridge" /\ name item <> "host" /\ name item <> "none".
Proof.
  intros Hrun Hs Ht Hitem.
  pose proof (scanned_summary _ _ _ Hrun Hs) as Hw.
  unfold wellFormedSummary in Hw. rewrite Ht in Hw.
  destruct Hw as [_ Hitems]. destruct (Hitems item Hitem) as [Hsys _].
  unfold isSystemNetwork in Hsys. cbn [existsb] in Hsys.
  rewrite !orb_false_iff in Hsys. destruct Hsys as [Hb [Hh [Hn _]]].
  apply String.eqb_neq in Hb, Hh, Hn. now repeat split.
Qed.

(** X13.  The estimate of a summary is the sum of the parsed sizes of
    the items that were selected for it, for containers and images; it
    is 0 for volumes and networks, which report no size; the cache
    summary has no items. *)
Theorem scanResources_estimates `{Runtime}
  (options : ScanOptions) (st st' : State) (result : ScanResult) (s : ResourceSummary) :
  scanResources options st = (Ok result, st') ->
  In s (summaries result) ->
  ((type s = containers \/ type s = images) ->
   reclaimableBytes s = Some (sumSizes (items s)))
  /\ ((type s = volumes \/ type s = networks) ->
      reclaimableBytes s = Some (num 0)
      /\ forall item, In item (items s) -> size item = Some "")
  /\ (type s = cache -> items s = []).
Proof.
  intros Hrun Hs.
  pose proof (scanned_summary _ _ _ Hrun Hs) as Hw.
  unfold wellFormedSummary in Hw.
  destruct (type s); (split; [|split]); intros Ht;
    try (destruct Ht; discriminate); try discriminate.
  - now destruct Hw.
  - now destruct Hw.
  - destruct Hw as [Hb Hitems]. split; [exact Hb|].
    intros item Hitem. destruct (Hitems item Hitem) as [v ->]. reflexivity.
  - destruct Hw as [Hb Hitems]. split; [exact Hb|].
    intros item Hitem. destruct (Hitems item Hitem) as [_ [n ->]]. reflexivity.
  - exact Hw.
Qed.

(** X14.  A positive top count bounds every sized summary: with
    [top = n] no containers or images summary has more than [n]
    items. *)
Theorem scanResources_top_bounds `{Runtime}
  (options : ScanOptions) (n : Z) (st st' : State) (result : ScanResult)
  (s : ResourceSummary) :
  scanResources options st = (Ok result, st') ->
  top options = Some (num n) -> (0 < n)%Z ->
  In s (summaries result) -> type s = containers \/ type s = images ->
  (Z.of_nat (length (items s)) <= n)%Z.
Proof.
  intros Hrun Htop Hn Hs Ht.
  pose proof (scanned_summary _ _ _ Hrun Hs) as Hw.
  unfold wellFormedSummary in Hw.
  assert (Hsel : exists candidates,
             items s = applySizeFilters candidates (top options) (limitSpaceBytes options)).
  { destruct Ht as [Ht | Ht]; rewrite Ht in Hw; now destruct Hw as [_ [Hsel _]]. }
  destruct Hsel as [candidates Hitems]. rewrite Hitems, Htop.
  unfold applySizeFilters, truthy_opt. rewrite truthy_num by lia. cbn [negb andb].
  rewrite selectTopN_positive by exact Hn. rewrite length_firstn. lia.
Qed.

Lemma demo_scan_runs :
  @scanResources demo demo_scan_options (demo_state demo_scan_script)
  = (Ok demo_scanned, demo_scanned_state).
Proof. vm_compute. reflexivity. Defined.

Example demo_scan_selection :
  map (fun s => (type s, map id (items s), reclaimableBytes s)) (summaries demo_scanned)
  = [ (containers, ["c3"], Some (num 3000000));
      (images, ["i1"], Some (num 10000000));
      (volumes, ["v1"], Some (num 0));
      (networks, ["n2"], Some (num 0));
      (cache, [], Some (num 3000000)) ]
  /\ totalReclaimableBytes demo_scanned = num 16000000.
Proof. vm_compute. split; reflexivity. Qed.

Lemma scanResources_containers_stopped_witness :
  exists record state,
    raw (demo_item 0) = Some record /\ demo_item 0 = containerItem record
    /\ field record "State" = Some state
    /\ (str (toLowerCase (chars state)) = "exited"
        \/ str (toLowerCase (chars state)) = "dead").
Proof.
  apply (@scanResources_containers_stopped demo _ _ _ _ (demo_summary 0) (demo_item 0)
           demo_scan_runs).
  - left. reflexivity.
  - reflexivity.
  - left. reflexivity.
Defined.

Lemma scanResources_images_dangling_witness :
  exists record,
    raw (demo_item 1) = Some record /\ demo_item 1 = imageItem record
    /\ (field record "Repository" = Some "<none>" \/ field record "Tag" = Some "<none>").
Proof.
  apply (@scanResources_images_dangling demo _ _ _ _ (demo_summary 1) (demo_item 1)
           demo_scan_runs).
  - reflexivity.
  - right. left. reflexivity.
  - reflexivity.
  - left. reflexivity.
Defined.

Lemma scanResources_no_system_network_witness :
  name (demo_item 3) <> "bridge" /\ name (demo_item 3) <> "host"
  /\ name (demo_item 3) <> "none".
Proof.
  apply (@scanResources_no_system_network demo _ _ _ _ (demo_summary 3) (demo_item 3)
           demo_scan_runs).
  - right. right. right. left. reflexivity.
  - reflexivity.
  - left. reflexivity.
Defined.

Lemma scanResources_estimates_witness :
  reclaimableBytes (demo_summary 0) = Some (sumSizes (items (demo_summary 0)))
  /\ reclaimableBytes (demo_summary 2) = Some (num 0).
Proof.
  split.
  - apply (@scanResources_estimates demo _ _ _ _ (demo_summary 0) demo_scan_runs).
    + left. reflexivity.
    + left. reflexivity.
  - apply (@scanResources_estimates demo _ _ _ _ (demo_summary 2) demo_scan_runs).
    + right. right. left. reflexivity.
    + left. reflexivity.
Defined.

Lemma scanResources_top_bounds_witness :
  (Z.of_nat (length (items (demo_summary 1))) <= 1)%Z.
Proof.
  apply (@scanResources_top_bounds demo _ 1 _ _ _ (demo_summary 1) demo_scan_runs).
  - reflexivity.
  - reflexivity.
  - right. left. reflexivity.
  - right. reflexivity.
Defined.

(** ** clean.ts: the commands of a run *)

Lemma filterUntilTimestamp_pure `{Runtime} (ms : option number) (st st' : State) o :
  filterUntilTimestamp ms st = (o, st') -> st' = st.
Proof.
  unfold filterUntilTimestamp. destruct ms as [ms|].
  - destruct (negb (truthy ms)).
    + unfold ret. intros Hr. now injection Hr as _ <-.
    + unfold bind, Date_now, lift, ret.
      destruct (toISOString (js_sub (clock (world st)) ms)); intros Hr; now injection Hr as _ <-.
  - unfold ret. intros Hr. now injection Hr as _ <-.
Qed.

Lemma cleanResources_filter `{Runtime} options st result st' :
  dryRun options = false ->
  cleanResources options st = (Ok result, st') ->
  exists fu,
    filterUntilTimestamp (olderThanMs options) st = (Ok fu, st)
    /\ for_of (resources options) (cleanKind options fu (is_none (selectedIds options)))
         noneRemoved st = (Ok result, st').
Proof.
  intros Hdry Hrun. unfold cleanResources in Hrun. rewrite Hdry in Hrun.
  unfold bind at 1 in Hrun.
  destruct (filterUntilTimestamp (olderThanMs options) st) as [[fu|e] st1] eqn:Hfu;
    [|discriminate Hrun].
  assert (Hst : st1 = st) by (eapply filterUntilTimestamp_pure; exact Hfu).
  subst st1.
  exists fu. split; [reflexivity | exact Hrun].
Qed.

Lemma execDocker_calls `{Runtime} (args : list string) (st : State) :
  calls (snd (execDocker args st)) = calls st ++ [args].
Proof. unfold execDocker. destruct (run_docker args (world st)). reflexivity. Qed.

Lemma cleanKind_calls `{Runtime} options fu t acc st acc' st' :
  cleanKind options fu (is_none (selectedIds options)) t acc st = (Ok acc', st') ->
  calls st' = calls st ++ plannedCommands options fu t.
Proof.
  unfold cleanKind, try_catch, cleanBody, plannedCommands.
  destruct (selectedIds options) as [sel|]; cbn [is_none].
  - destruct (ResourceType_eqb t cache) eqn:Hcache.
    + unfold bind, dockerPrune.
      pose proof (execDocker_calls (pruneBaseArgs t false ++ until_args fu) st) as Hcalls.
      destruct (execDocker (pruneBaseArgs t false ++ until_args fu) st) as [[out|e] st1];
        unfold ret; intros Hr; injection Hr as _ <-; exact Hcalls.
    + destruct (get sel t) as [[|i l]|].
      * unfold ret. intros Hr. injection Hr as _ <-. now rewrite app_nil_r.
      * unfold bind.
        assert (Hcalls : calls (snd (removeSelected t (i :: l) st))
                         = calls st ++ [removeCommand t (i :: l)]).
        { destruct t; try discriminate Hcache;
            unfold removeSelected, dockerRemoveContainers, dockerRemoveImages,
              dockerRemoveVolumes, dockerRemoveNetworks, dockerRemove, bind;
            match goal with
            | |- context [execDocker ?a st] =>
                pose proof (execDocker_calls a st) as Hx;
                destruct (execDocker a st) as [[out|e] st1]; exact Hx
            end. }
        destruct (removeSelected t (i :: l) st) as [[[out|]|e] st1];
          unfold ret; intros Hr; injection Hr as _ <-; exact Hcalls.
      * unfold ret. intros Hr. injection Hr as _ <-. now rewrite app_nil_r.
  - unfold bind, dockerPrune.
    match goal with
    | |- context [execDocker ?a st] =>
        pose proof (execDocker_calls a st) as Hcalls;
        destruct (execDocker a st) as [[out|e] st1]
    end; unfold ret; intros Hr; injection Hr as _ <-; exact Hcalls.
Qed.

Lemma cleanLoop_calls `{Runtime} options fu ts acc st acc' st' :
  for_of ts (cleanKind options fu (is_none (selectedIds options))) acc st = (Ok acc', st') ->
  calls st' = calls st ++ flat_map (plannedCommands options fu) ts.
Proof.
  revert acc st. induction ts as [|t ts IH]; intros acc st; simpl.
  - unfold ret. intros Hr. injection Hr as _ <-. now rewrite app_nil_r.
  - destruct (cleanKind_returns options fu (is_none (selectedIds options)) t acc st)
      as [acc1 [st1 H1]].
    erewrite bind_ok by exact H1. intros Hrest.
    apply IH in Hrest. apply cleanKind_calls in H1.
    now rewrite Hrest, H1, app_assoc.
Qed.

(** X15.  The commands of a clean-up run are fixed by the request, not
    by what the commands answer: in request order, one prune per kind
    on the bulk path; on the identifier path one removal per kind with
    a non-empty identifier list, nothing for an empty or absent list,
    and the prune for cache.  A kind that fails does not skip, repeat
    or reorder the commands of the other kinds. *)
Theorem cleanResources_commands `{Runtime}
  (options : CleanOptions) (st st' : State) (result : CleanResult) :
  dryRun options = false ->
  cleanResources options st = (Ok result, st') ->
  exists fu,
    filterUntilTimestamp (olderThanMs options) st = (Ok fu, st)
    /\ calls st' = calls st ++ flat_map (plannedCommands options fu) (resources options).
Proof.
  intros Hdry Hrun.
  destruct (@cleanResources_filter _ options st result st' Hdry Hrun) as [fu [Hfu Hloop]].
  exists fu. split; [exact Hfu|]. now apply cleanLoop_calls in Hloop.
Qed.

Lemma cleanResources_commands_witness :
  exists result st',
    @cleanResources demo
      (mkCleanOptions [images; volumes; cache; containers] None false true (every (num 0))
         (Some (mkPerKind None (Some ["i1"; "i2"]) (Some []) None None)) None)
      (demo_state [Throw (ErrorObj "image is in use"); Ok "Total reclaimed space: 1MB"])
    = (Ok result, st')
    /\ calls st' = [["image"; "rm"; "-f"; "i1"; "i2"]; ["builder"; "prune"; "-f"]].
Proof.
  eexists. eexists. split; [vm_compute; reflexivity|].
  destruct (@cleanResources_commands demo
              (mkCleanOptions [images; volumes; cache; containers] None false true
                 (every (num 0))
                 (Some (mkPerKind None (Some ["i1"; "i2"]) (Some []) None None)) None)
              (demo_state [Throw (ErrorObj "image is in use");
                           Ok "Total reclaimed space: 1MB"])
              (@mkState demo [] [["image"; "rm"; "-f"; "i1"; "i2"]; ["builder"; "prune"; "-f"]])
              {| removed := every (num 0);
                 failures := mkPerKind [] ["image is in use"] [] [] [];
                 reclaimedBytes := num 1000000 |}
              eq_refl)
    as [fu [Hfu Hcalls]].
  - vm_compute. reflexivity.
  - injection Hfu as <-. exact Hcalls.
Defined.

(** ** clean.ts: kinds that were not requested *)

Lemma cleanBody_failures `{Runtime} options fu bulk t acc st acc' st' :
  cleanBody options fu bulk t acc st = (Ok acc', st') -> failures acc' = failures acc.
Proof.
  unfold cleanBody.
  destruct bulk; [|destruct (ResourceType_eqb t cache)];
    try (unfold bind; destruct (dockerPrune t fu _ st) as [[output|e] st1];
         [|discriminate]; unfold ret; intros Hr; injection Hr as <- _; reflexivity).
  destruct (match selectedIds options with Some sel => get sel t | None => None end)
    as [[|i l]|].
  - unfold ret. intros Hr. now injection Hr as <- _.
  - unfold bind. destruct (removeSelected t (i :: l) st) as [[[o|]|e] st1]; [| |discriminate];
      unfold ret; intros Hr; injection Hr as <- _; [reflexivity|].
    now destruct (estimatedBytes options).
  - unfold ret. intros Hr. now injection Hr as <- _.
Qed.

Lemma cleanKind_failures `{Runtime} options fu bulk t acc st acc' st' :
  cleanKind options fu bulk t acc st = (Ok acc', st') ->
  (forall k, k <> t -> get (failures acc') k = get (failures acc) k)
  /\ (length (get (failures acc') t) <= S (length (get (failures acc) t)))%nat.
Proof.
  unfold cleanKind, try_catch.
  destruct (cleanBody options fu bulk t acc st) as [[acc1|e] st1] eqn:Hb.
  - intros Hr. injection Hr as <- _. apply cleanBody_failures in Hb. rewrite Hb.
    split; [reflexivity | lia].
  - unfold ret. intros Hr. injection Hr as <- _. simpl. split.
    + intros k Hk. now apply get_set_other.
    + rewrite get_set_same, length_app. simpl. lia.
Qed.

Lemma cleanLoop_failures `{Runtime} options fu bulk ts acc st acc' st' (k : ResourceType) :
  for_of ts (cleanKind options fu bulk) acc st = (Ok acc', st') ->
  (length (get (failures acc') k)
   <= length (get (failures acc) k) + length (filter (ResourceType_eqb k) ts))%nat.
Proof.
  revert acc st. induction ts as [|t ts IH]; intros acc st; simpl.
  - unfold ret. intros Hr. injection Hr as <- _. lia.
  - destruct (cleanKind_returns options fu bulk t acc st) as [acc1 [st1 H1]].
    erewrite bind_ok by exact H1. intros Hrest. apply IH in Hrest.
    apply cleanKind_failures in H1. destruct H1 as [Hother Hsame].
    destruct (ResourceType_eqb k t) eqn:Hkt.
    + apply ResourceType_eqb_eq in Hkt. subst t. simpl. lia.
    + rewrite Hother in Hrest; [exact Hrest|].
      intros ->. destruct t; discriminate.
Qed.

(** X16.  A clean-up run touches only the kinds it was asked for: a
    kind that is not in the request ends with a removed count of 0 and
    no failure, and no kind collects more failure messages than the
    number of times it was requested. *)
Theorem cleanResources_other_kinds `{Runtime}
  (options : CleanOptions) (st st' : State) (result : CleanResult) (k : ResourceType) :
  cleanResources options st = (Ok result, st') ->
  (length (get (failures result) k)
   <= length (filter (ResourceType_eqb k) (resources options)))%nat
  /\ (~ In k (resources options) ->
      get (removed result) k = num 0 /\ get (failures result) k = []).
Proof.
  intros Hrun.
  destruct (dryRun options) eqn:Hdry.
  - unfold cleanResources in Hrun. rewrite Hdry in Hrun.
    unfold ret in Hrun. injection Hrun as <- _.
    split; [destruct k; simpl; lia|]. intros _. destruct k; split; reflexivity.
  - destruct (@cleanResources_filter _ options st result st' Hdry Hrun) as [fu [_ Hloop]].
    clear Hrun. rename Hloop into Hrun.
    pose proof (cleanLoop_failures _ _ _ _ _ _ k Hrun) as Hlen.
    assert (Hzero : length (get (failures noneRemoved) k) = 0%nat) by (destruct k; reflexivity).
    rewrite Hzero in Hlen. split; [exact Hlen|].
    intros Hnot. destruct (cleanLoop_keeps _ _ _ _ _ _ Hrun) as [Hrem _].
    split.
    + rewrite (Hrem k Hnot). destruct k; reflexivity.
    + assert (Hnone : filter (ResourceType_eqb k) (resources options) = []).
      { clear -Hnot. induction (resources options) as [|t ts IH]; [reflexivity|].
        simpl. destruct (ResourceType_eqb k t) eqn:Hkt.
        - apply ResourceType_eqb_eq in Hkt. subst t. elim Hnot. now left.
        - apply IH. intros Hin. apply Hnot. now right. }
      rewrite Hnone in Hlen. simpl in Hlen.
      destruct (get (failures result) k); [reflexivity | simpl in Hlen; lia].
Qed.

Lemma cleanResources_other_kinds_witness :
  exists result st',
    @cleanResources demo
      (mkCleanOptions [containers] None false false (every (num 7)) None None)
      (demo_state [Ok "no count here"]) = (Ok result, st')
    /\ get (removed result) containers = num 7
    /\ get (removed result) images = num 0
    /\ get (failures result) images = [].
Proof.
  eexists. eexists. split; [vm_compute; reflexivity|].
  split; [vm_compute; reflexivity|].
  apply (@cleanResources_other_kinds demo
           (mkCleanOptions [containers] None false false (every (num 7)) None None)
           (demo_state [Ok "no count here"])
           (@mkState demo [] [["container"; "prune"; "-f"]])).
  - vm_compute. reflexivity.
  - intros [Hin | []]. discriminate.
Defined.

(** ** clean.ts: the parsed count *)

Lemma js_Number_digits (ds : list ascii) :
  forallb is_digit ds = true -> js_Number ds = num (digits_val ds).
Proof.
  intros Hd. unfold js_Number.
  assert (Hspan : takeWhile is_digit ds = ds /\ dropWhile is_digit ds = []).
  { pose proof (@span_app is_digit ds [] Hd) as Hs. rewrite app_nil_r in Hs.
    apply Hs. intros c r Hx. discriminate. }
  destruct Hspan as [-> ->]. reflexivity.
Qed.

Lemma js_add_num (a b : Z) : js_add (num a) (num b) = num (a + b).
Proof.
  unfold js_add, num, inject_Z, Qplus. simpl. now rewrite !Z.mul_1_r.
Qed.

Lemma exec_trailing_digits (s : list ascii) (m : MatchResult) :
  exec_at false re_trailing_digits s = Some m ->
  exists ds, group m 1 = ds /\ ds <> [] /\ forallb is_digit ds = true.
Proof.
  unfold exec_at, re_trailing_digits. cbn [rmatch].
  destruct s as [|d s']; [discriminate|].
  destruct (is_digit d) eqn:Hd; [|discriminate].
  rewrite star_commit.
  - destruct (dropWhile is_digit s'); [|discriminate].
    intros Hm. injection Hm as <-.
    exists (d :: takeWhile is_digit s'). split; [reflexivity|]. split; [discriminate|].
    simpl. rewrite Hd. apply takeWhile_all.
  - intros m0 c r Hc. reflexivity.
Qed.

Lemma search_exec (ci : bool) (r : regex) (s : list ascii) (m : MatchResult) :
  search ci r s = Some m -> exists j, exec_at ci r (skipn j s) = Some m.
Proof.
  induction s as [|c s IH]; simpl.
  - destruct (exec_at ci r []) eqn:He; [|discriminate].
    intros Hx. injection Hx as <-. now exists 0%nat.
  - destruct (exec_at ci r (c :: s)) eqn:He.
    + intros Hx. injection Hx as <-. now exists 0%nat.
    + intros Hs. destruct (IH Hs) as [j Hj]. now exists (S j).
Qed.

Lemma lineCount_natural (line : list ascii) : exists z, (0 <= z)%Z /\ lineCount line = num z.
Proof.
  unfold lineCount, String_match.
  destruct (search false re_trailing_digits line) as [m|] eqn:Hs.
  - apply search_exec in Hs. destruct Hs as [j Hj].
    apply exec_trailing_digits in Hj. destruct Hj as [ds [-> [_ Hd]]].
    exists (digits_val ds). split; [now apply digits_val_nonneg | now apply js_Number_digits].
  - exists 0%Z. split; [lia | reflexivity].
Qed.

(** X17.  [parsePrunedCount] returns a natural number: for an output
    of at most 300 code units, in which no count is long enough to
    overflow a double, the result is never NaN, negative or
    fractional. *)
Theorem parsePrunedCount_natural (output : string) :
  (String.length output <= 300)%nat ->
  exists z, (0 <= z)%Z /\ parsePrunedCount output = num z.
Proof.
  intros _. unfold parsePrunedCount.
  destruct (String_match_all true re_deleted (chars output)) as [lines|].
  - assert (Hfold : forall a, (0 <= a)%Z ->
              exists z, (0 <= z)%Z
                        /\ fold_left (fun sum line => js_add sum (lineCount line)) lines (num a)
                           = num z).
    { induction lines as [|line lines IH]; intros a Ha; cbn [fold_left].
      - now exists a.
      - destruct (lineCount_natural line) as [c [Hc ->]].
        rewrite js_add_num. apply IH. lia. }
    apply Hfold. lia.
  - exists 0%Z. split; [lia | reflexivity].
Qed.

Lemma parsePrunedCount_natural_witness :
  exists z, (0 <= z)%Z
            /\ parsePrunedCount "Deleted Containers: 2
Deleted Images: 13" = num z.
Proof. apply parsePrunedCount_natural. vm_compute. lia. Defined.

(** ** docker.ts: the values of parseDockerSize *)

(** X18.  [parseDockerSize] returns NaN or a natural number of bytes:
    for a size string of at most 290 code units, whose magnitude and
    product cannot overflow a double, the result is never negative or
    fractional. *)
Theorem parseDockerSize_range (s : string) :
  (String.length s <= 290)%nat ->
  parseDockerSize (Some s) = NaN
  \/ exists z, (0 <= z)%Z /\ parseDockerSize (Some s) = num z.
Proof.
  intros _.
  destruct (parseDockerSize (Some s)) as [|q] eqn:Hq; [now left|]. right.
  pose proof (parseDockerSize_nonneg _ Hq) as Hpos.
  assert (Hint : exists z, q = inject_Z z).
  { revert Hq. unfold parseDockerSize.
    destruct (negb (nonempty (Some s))); [intros Hq; injection Hq as <-; now exists 0%Z|].
    destruct (String_match true re_size _) as [m|];
      [|intros Hq; injection Hq as <-; now exists 0%Z].
    destruct (js_mul (js_Number (group m 1)) (multiplier (toLowerCase (group m 2))))
      as [|x]; [discriminate|].
    unfold Math_round, num. intros Hq. injection Hq as <-. eexists. reflexivity. }
  destruct Hint as [z ->]. exists z. split; [|reflexivity].
  change 0%Q with (inject_Z 0) in Hpos. rewrite Zle_Qle. exact Hpos.
Qed.

Lemma parseDockerSize_range_witness :
  parseDockerSize (Some "1.2.3MB") = NaN
  \/ exists z, (0 <= z)%Z /\ parseDockerSize (Some "1.2.3MB") = num z.
Proof. apply parseDockerSize_range. vm_compute. lia. Defined.

Lemma upper_lower (c : ascii) : is_alpha (upper c) = true -> lower c = lower (upper c).
Proof.
  destruct c as [[] [] [] [] [] [] [] []]; vm_compute; intros Hc;
    first [discriminate Hc | reflexivity].
Qed.

Lemma lower_letter (c u : ascii) : is_alpha u = true -> u = upper c -> lower c = lower u.
Proof. intros Hu ->. now apply upper_lower. Qed.

Lemma multiplier_unit (u : list ascii) :
  unitWord u -> multiplier (toLowerCase u) = num (1000 ^ unitExponent u).
Proof.
  unfold unitWord. simpl.
  intros [Hu | [Hu | [Hu | [Hu | [Hu | []]]]]];
    (destruct u as [|c [|d [|e u]]]; try discriminate Hu);
    simpl in Hu; injection Hu as Hc; subst;
    unfold toLowerCase, unitExponent; cbn [map];
    repeat match goal with
           | H : ?x = upper ?c |- _ =>
               rewrite (@lower_letter c x eq_refl H); try rewrite <- H; clear H
           end;
    reflexivity.
Qed.

Lemma trim_keeps (l l' l'' : list ascii) (c d : ascii) :
  l = c :: l' -> rev l = d :: l'' -> is_space c = false -> is_space d = false ->
  trim l = l.
Proof.
  intros Hl Hr Hc Hd. unfold trim.
  assert (H1 : dropWhile is_space l = l) by (rewrite Hl; simpl; now rewrite Hc).
  rewrite H1.
  assert (H2 : dropWhile is_space (rev l) = rev l) by (rewrite Hr; simpl; now rewrite Hd).
  rewrite H2. apply rev_involutive.
Qed.

Lemma unitWord_last (u : list ascii) :
  unitWord u -> exists u0 b, u = u0 ++ [b] /\ is_space b = false.
Proof.
  unfold unitWord. simpl.
  intros [Hu | [Hu | [Hu | [Hu | [Hu | []]]]]];
    (destruct u as [|c [|d [|e u]]]; try discriminate Hu);
    simpl in Hu; injection Hu as Hc;
    first [ exists [], c; split; [reflexivity|] | exists [c], d; split; [reflexivity|] ];
    apply letter_classes; unfold isB;
    match goal with
    | H : "B"%char = upper _ |- _ => rewrite <- H
    end; reflexivity.
Qed.

Lemma sizeText_trimmed (mag ws u : list ascii) :
  sizeParts mag ws u -> trim (chars (sizeText mag ws u)) = mag ++ ws ++ u.
Proof.
  intros [Hne [Hmag [_ Hu]]].
  unfold sizeText, chars, str. rewrite list_ascii_of_string_of_list_ascii.
  destruct (unitWord_last Hu) as [u0 [b [-> Hb]]].
  destruct mag as [|d mag']; [now elim Hne|].
  simpl in Hmag. apply andb_true_iff in Hmag. destruct Hmag as [Hd _].
  eapply trim_keeps with (c := d) (d := b).
  - reflexivity.
  - rewrite !app_assoc. rewrite rev_app_distr. reflexivity.
  - now apply mag_not_space.
  - exact Hb.
Qed.

Lemma parseDockerSize_sizeText (mag ws u : list ascii) :
  sizeParts mag ws u ->
  parseDockerSize (Some (sizeText mag ws u))
  = Math_round (js_mul (js_Number mag) (num (1000 ^ unitExponent u))).
Proof.
  intros Hparts.
  rewrite (@parseDockerSize_first (sizeText mag ws u) [] mag ws u []).
  - destruct Hparts as [_ [_ [_ Hu]]]. now rewrite multiplier_unit.
  - rewrite sizeText_trimmed by exact Hparts. now rewrite app_nil_r.
  - exact Hparts.
  - intros j Hj. simpl in Hj. lia.
Qed.

Lemma sizeText_value (mag ws u : list ascii) (v : Q) :
  sizeParts mag ws u ->
  js_Number mag = Num v ->
  parseDockerSize (Some (sizeText mag ws u))
  = num (Qfloor (v * inject_Z (1000 ^ unitExponent u) + (1 # 2))).
Proof.
  intros Hparts Hv. rewrite parseDockerSize_sizeText by exact Hparts. now rewrite Hv.
Qed.

Lemma unitExponent_range (u : list ascii) : (0 <= unitExponent u <= 4)%Z.
Proof.
  unfold unitExponent. destruct (map upper u) as [|c [|d l]]; try lia;
    destruct (Ascii.eqb c "K"), (Ascii.eqb c "M"), (Ascii.eqb c "G"); lia.
Qed.

Lemma Qfloor_half (x : Q) (z : Z) : x == inject_Z z -> Qfloor (x + (1 # 2)) = z.
Proof.
  intros Hx.
  assert (Hq : x + (1 # 2) == inject_Z z + (1 # 2)) by now rewrite Hx.
  rewrite (Qfloor_comp _ _ Hq).
  unfold Qfloor, Qplus, inject_Z. cbn [Qnum Qden].
  change (Z.pos (1 * 2)) with 2%Z. change (Z.pos 1) with 1%Z. change (Z.pos 2) with 2%Z.
  Z.div_mod_to_equations. lia.
Qed.

(** X19.  Units are decimal and their letter case does not matter: a
    size string made of a decimal numeral of value [v], any white
    space and a unit word parses to [v] times 1000 to the power 0, 1,
    2, 3 or 4 for B, KB, MB, GB or TB, rounded to an integer.  For a
    product of at most 2^50 the result is within one byte of that
    product (the nearest integer here; the program, which rounds the
    product to a double first, can take the other neighbour at a
    tie), and it is the product itself when the numeral is a whole
    number. *)
Theorem parseDockerSize_decimal_units (mag ws u : list ascii) (v : Q) :
  sizeParts mag ws u ->
  js_Number mag = Num v ->
  (v * inject_Z (1000 ^ unitExponent u) <= inject_Z (2 ^ 50))%Q ->
  (0 <= unitExponent u <= 4)%Z
  /\ exists m,
       parseDockerSize (Some (sizeText mag ws u)) = num m
       /\ (v * inject_Z (1000 ^ unitExponent u) - 1 <= inject_Z m
           <= v * inject_Z (1000 ^ unitExponent u) + 1)%Q
       /\ (forallb is_digit mag = true ->
           m = (digits_val mag * 1000 ^ unitExponent u)%Z).
Proof.
  intros Hparts Hv _. split; [apply unitExponent_range|].
  exists (Qfloor (v * inject_Z (1000 ^ unitExponent u) + (1 # 2))).
  split; [now apply sizeText_value|].
  set (y := v * inject_Z (1000 ^ unitExponent u)).
  split.
  - pose proof (Qfloor_le (y + (1 # 2))) as Hlo.
    pose proof (Qlt_floor (y + (1 # 2))) as Hhi.
    rewrite inject_Z_plus in Hhi.
    change (inject_Z 1) with 1%Q in Hhi.
    split; lra.
  - intros Hd. rewrite (js_Number_digits _ Hd) in Hv.
    unfold num in Hv. injection Hv as <-.
    apply Qfloor_half. unfold y. now rewrite inject_Z_mult.
Qed.

Lemma parseDockerSize_decimal_units_witness :
  (0 <= unitExponent (chars "gB") <= 4)%Z
  /\ exists m,
       parseDockerSize (Some (sizeText (chars "1.5") (chars "  ") (chars "gB"))) = num m
       /\ ((15 # 10) * inject_Z (1000 ^ unitExponent (chars "gB")) - 1 <= inject_Z m
           <= (15 # 10) * inject_Z (1000 ^ unitExponent (chars "gB")) + 1)%Q
       /\ (forallb is_digit (chars "1.5") = true ->
           m = (digits_val (chars "1.5") * 1000 ^ unitExponent (chars "gB"))%Z).
Proof.
  apply (@parseDockerSize_decimal_units (chars "1.5") (chars "  ") (chars "gB") (15 # 10)).
  - split; [discriminate|]. split; [reflexivity|]. split; [reflexivity|].
    unfold unitWord. simpl. tauto.
  - reflexivity.
  - vm_compute. discriminate.
Defined.



(** ** docker.ts: formatBytes read back by parseDockerSize *)

Lemma digit_char_spec (d : Z) :
  (0 <= d <= 9)%Z -> is_digit (digit_char d) = true /\ digit_val (digit_char d) = d.
Proof.
  intros Hd.
  assert (Hcases : (d = 0 \/ d = 1 \/ d = 2 \/ d = 3 \/ d = 4 \/ d = 5 \/ d = 6 \/ d = 7
                    \/ d = 8 \/ d = 9)%Z) by lia.
  destruct Hcases as [-> | [-> | [-> | [-> | [-> | [-> | [-> | [-> | [-> | ->]]]]]]]]];
    split; reflexivity.
Qed.

Lemma digits_of_S (fuel : nat) (n : Z) (acc : list ascii) :
  digits_of (S fuel) n acc
  = if (n <? 10)%Z then digit_char (n mod 10) :: acc
    else digits_of fuel (n / 10) (digit_char (n mod 10) :: acc).
Proof. reflexivity. Qed.

Lemma digits_of_app (fuel : nat) (n : Z) (acc : list ascii) :
  digits_of fuel n acc = digits_of fuel n [] ++ acc.
Proof.
  revert n acc. induction fuel as [|fuel IH]; intros n acc; [reflexivity|].
  cbn [digits_of]. destruct (n <? 10)%Z; [reflexivity|].
  rewrite IH. rewrite (IH (n / 10)%Z [_]). now rewrite <- app_assoc.
Qed.

Lemma digits_val_snoc (l : list ascii) (c : ascii) :
  digits_val (l ++ [c]) = (10 * digits_val l + digit_val c)%Z.
Proof. unfold digits_val. now rewrite fold_left_app. Qed.

Lemma digits_of_spec (fuel : nat) (n : Z) :
  (0 <= n < 2 ^ Z.of_nat (S fuel))%Z ->
  forallb is_digit (digits_of (S fuel) n []) = true
  /\ digits_of (S fuel) n [] <> []
  /\ digits_val (digits_of (S fuel) n []) = n
  /\ ((n < 10)%Z -> digits_of (S fuel) n [] = [digit_char n]).
Proof.
  revert n. induction fuel as [|fuel IH]; intros n Hn.
  - change (2 ^ Z.of_nat 1)%Z with 2%Z in Hn.
    cbn [digits_of]. destruct (Z.ltb_spec n 10) as [Hlt|Hge]; [|lia].
    rewrite Z.mod_small by lia.
    destruct (@digit_char_spec n) as [Hd Hv]; [lia|].
    cbn [forallb]. rewrite Hd. repeat split; try reflexivity; try discriminate.
    unfold digits_val. cbn [fold_left]. rewrite Hv. lia.
  - rewrite digits_of_S.
    destruct (@digit_char_spec (n mod 10)%Z) as [Hd Hv];
      [pose proof (Z.mod_pos_bound n 10); lia|].
    destruct (Z.ltb_spec n 10) as [Hlt|Hge].
    + rewrite Z.mod_small by lia. rewrite Z.mod_small in Hd, Hv by lia.
      cbn [forallb]. rewrite Hd. repeat split; try reflexivity; try discriminate.
      unfold digits_val. cbn [fold_left]. rewrite Hv. lia.
    + assert (Hpow : (2 ^ Z.of_nat (S (S fuel)) = 2 * 2 ^ Z.of_nat (S fuel))%Z).
      { rewrite (Nat2Z.inj_succ (S fuel)). apply Z.pow_succ_r. lia. }
      assert (Hdiv : (0 <= n / 10 < 2 ^ Z.of_nat (S fuel))%Z).
      { split; [apply Z.div_pos; lia|]. apply Z.div_lt_upper_bound; lia. }
      destruct (IH _ Hdiv) as [Hall [Hne [Hval _]]].
      rewrite digits_of_app.
      split; [|split; [|split]].
      * rewrite forallb_app, Hall. cbn [forallb]. now rewrite Hd.
      * intros Hnil. apply app_eq_nil in Hnil. destruct Hnil as [_ Hnil]. discriminate.
      * rewrite digits_val_snoc, Hval, Hv. symmetry. apply Z.div_mod. lia.
      * lia.
Qed.

Lemma natural_digits_spec (n : Z) :
  (0 <= n)%Z ->
  forallb is_digit (natural_digits n) = true
  /\ natural_digits n <> []
  /\ digits_val (natural_digits n) = n
  /\ ((n < 10)%Z -> natural_digits n = [digit_char n]).
Proof.
  intros Hn. unfold natural_digits. apply digits_of_spec.
  split; [exact Hn|].
  rewrite Nat2Z.inj_succ, Z2Nat.id by apply Z.log2_nonneg.
  destruct (Z.eq_dec n 0) as [->|Hne]; [reflexivity|].
  apply Z.log2_spec. lia.
Qed.

Lemma unit_of_index (j : nat) :
  (j <= 4)%nat ->
  unitWord (chars (nth j units "")) /\ unitExponent (chars (nth j units "")) = Z.of_nat j.
Proof.
  intros Hj.
  destruct j as [|[|[|[|[|j]]]]]; try lia;
    (split; [unfold unitWord; simpl; tauto | reflexivity]).
Qed.

Lemma parse_rounded (r : Z) (j : nat) :
  (0 <= r)%Z -> (j <= 4)%nat ->
  parseDockerSize (Some (str (natural_digits r ++ " "%char :: chars (nth j units ""))))
  = num (r * 1000 ^ Z.of_nat j).
Proof.
  intros Hr Hj.
  destruct (natural_digits_spec Hr) as [Hall [Hne [Hval _]]].
  destruct (unit_of_index Hj) as [Hu He].
  change (str (natural_digits r ++ " "%char :: chars (nth j units "")))
    with (sizeText (natural_digits r) [" "%char] (chars (nth j units ""))).
  rewrite parseDockerSize_sizeText.
  - rewrite js_Number_digits by exact Hall. rewrite Hval, He.
    unfold num, js_mul, Math_round, num. f_equal. f_equal.
    apply Qfloor_half. unfold Qeq, Qmult, inject_Z. cbn [Qnum Qden]. lia.
  - split; [exact Hne|]. split; [|split; [reflexivity | exact Hu]].
    rewrite forallb_forall in *. intros c Hc. unfold is_mag. now rewrite (Hall c Hc).
Qed.

Lemma js_Number_fixed (ip : list ascii) (d : ascii) :
  forallb is_digit ip = true -> ip <> [] -> is_digit d = true ->
  js_Number (ip ++ "."%char :: [d]) = Num (digits_val (ip ++ [d]) # 10).
Proof.
  intros Hip Hne Hd. unfold js_Number.
  destruct (@span_app is_digit ip ("."%char :: [d]) Hip) as [Ht Hdrop].
  { intros c r Hx. injection Hx as <- _. reflexivity. }
  rewrite Ht, Hdrop. cbn [is_dot forallb andb]. rewrite Hd.
  change (is_dot "."%char) with true. cbn [andb].
  destruct ip as [|c ip']; [now elim Hne|]. reflexivity.
Qed.

Lemma parse_fixed (t : Z) (j : nat) :
  (0 <= t)%Z -> (j < 4)%nat ->
  parseDockerSize
    (Some (str ((natural_digits (t / 10) ++ "."%char :: natural_digits (t mod 10))
                  ++ " "%char :: chars (nth (S j) units ""))))
  = num (t * (100 * 1000 ^ Z.of_nat j)).
Proof.
  intros Ht Hj.
  assert (Ha : (0 <= t / 10)%Z) by (apply Z.div_pos; lia).
  assert (Hb : (0 <= t mod 10 < 10)%Z) by (apply Z.mod_pos_bound; lia).
  destruct (natural_digits_spec Ha) as [Hall [Hne [Hval _]]].
  destruct (@natural_digits_spec (t mod 10)%Z) as [_ [_ [_ Hone]]]; [lia|].
  rewrite (Hone (proj2 Hb)).
  destruct (@digit_char_spec (t mod 10)%Z) as [Hd Hv]; [lia|].
  destruct (@unit_of_index (S j)) as [Hu He]; [lia|].
  change (str ((natural_digits (t / 10) ++ "."%char :: [digit_char (t mod 10)])
                 ++ " "%char :: chars (nth (S j) units "")))
    with (sizeText (natural_digits (t / 10) ++ "."%char :: [digit_char (t mod 10)])
            [" "%char] (chars (nth (S j) units ""))).
  rewrite parseDockerSize_sizeText.
  - rewrite js_Number_fixed by assumption.
    rewrite digits_val_snoc, Hval, Hv, He.
    rewrite <- (Z.div_mod t 10) by lia.
    unfold num, js_mul, Math_round, num. f_equal. f_equal.
    apply Qfloor_half. unfold Qeq, Qmult, inject_Z. cbn [Qnum Qden].
    rewrite Nat2Z.inj_succ, Z.pow_succ_r by lia.
    change (Z.pos (10 * 1)) with 10%Z. lia.
  - split; [intros Hnil; apply app_eq_nil in Hnil; destruct Hnil as [_ Hnil]; discriminate|].
    split; [|split; [reflexivity | exact Hu]].
    rewrite forallb_app. cbn [forallb]. unfold is_mag at 2 3. rewrite Hd.
    change (is_dot "."%char) with true. rewrite orb_true_r. cbn [orb andb].
    rewrite andb_true_r.
    rewrite forallb_forall in *. intros c Hc. unfold is_mag. now rewrite (Hall c Hc).
Qed.

Lemma scaleLoop_spec (steps : nat) (n : Z) (p : positive) (idx : nat) :
  exists (j : nat) (P : positive),
    (j <= steps)%nat
    /\ Z.pos P = (Z.pos p * 1000 ^ Z.of_nat j)%Z
    /\ scaleLoop steps (Num (n # p)) idx = (Num (n # P), (idx + j)%nat)
    /\ ((j < steps)%nat -> (n < 1000 * Z.pos P)%Z)
    /\ ((0 < j)%nat -> (Z.pos P <= n)%Z).
Proof.
  revert p idx. induction steps as [|steps IH]; intros p idx.
  - exists 0%nat, p. split; [lia|]. split; [simpl; lia|].
    split; [now rewrite Nat.add_0_r|]. split; intros; lia.
  - cbn [scaleLoop].
    assert (Hge : js_ge (Num (n # p)) (num 1000) = (1000 * Z.pos p <=? n)%Z).
    { unfold js_ge, num, Qle_bool, inject_Z. cbn [Qnum Qden]. now rewrite Z.mul_1_r. }
    rewrite Hge.
    destruct (Z.leb_spec (1000 * Z.pos p) n) as [Hle|Hlt].
    + assert (Hdiv : js_div (Num (n # p)) (num 1000) = Num (n # (p * 1000))).
      { unfold js_div, num. change (Qeq_bool (inject_Z 1000) 0) with false.
        unfold Qdiv, Qmult, Qinv, inject_Z. cbn [Qnum Qden]. now rewrite Z.mul_1_r. }
      rewrite Hdiv.
      destruct (IH (p * 1000)%positive (S idx)) as [j [P [Hj [HP [Hrun [Hlo Hhi]]]]]].
      exists (S j), P. split; [lia|]. split; [|split; [|split]].
      * rewrite HP, Nat2Z.inj_succ, Z.pow_succ_r by lia. lia.
      * rewrite Hrun. f_equal. lia.
      * intros Hs. apply Hlo. lia.
      * intros _. destruct j as [|j'].
        -- rewrite HP. simpl. lia.
        -- apply Hhi. lia.
    + exists 0%nat, p. split; [lia|]. split; [simpl; lia|].
      split; [now rewrite Nat.add_0_r|]. split; intros; lia.
Qed.

Lemma Qfloor_frac_half (a : Z) (p : positive) :
  Qfloor ((a # p) + (1 # 2)) = ((2 * a + Z.pos p) / (2 * Z.pos p))%Z.
Proof.
  unfold Qfloor, Qplus. cbn [Qnum Qden]. f_equal; lia.
Qed.

(** X21.  Formatting a byte count and parsing the text back loses at
    most one part in twenty: for a positive safe integer [n],
    [parseDockerSize (formatBytes n)] is a number within 5 % of [n],
    and is [n] itself below 1000. *)
Theorem formatBytes_round_trip (n : Z) :
  (0 < n < 2 ^ 53)%Z ->
  exists m,
    parseDockerSize (Some (formatBytes (num n))) = num m
    /\ (20 * Z.abs (m - n) <= n)%Z
    /\ ((n < 1000)%Z -> m = n).
Proof.
  intros [Hn _]. unfold formatBytes.
  assert (Hle : js_le (num n) (num 0) = false).
  { unfold js_le, js_ge, num, Qle_bool, inject_Z. cbn [Qnum Qden].
    apply Z.leb_gt. lia. }
  rewrite Hle. change (length units - 1)%nat with 4%nat.
  destruct (scaleLoop_spec 4 n 1 0) as [j [P [Hj [HP [Hrun [Hlo Hhi]]]]]].
  change (num n) with (Num (n # 1)). rewrite Hrun. cbn [Nat.add].
  destruct j as [|j].
  - cbn [Nat.ltb Nat.leb andb].
    assert (HP1 : P = 1%positive) by (simpl in HP; lia). subst P.
    unfold rounded_text. rewrite Qfloor_frac_half.
    assert (Hr : ((2 * n + 1) / (2 * 1) = n)%Z) by (Z.div_mod_to_equations; lia).
    rewrite Hr. unfold integer_text.
    destruct (Z.ltb_spec n 0) as [Hneg|_]; [lia|].
    rewrite (@parse_rounded n 0) by lia.
    exists (n * 1000 ^ Z.of_nat 0)%Z. split; [reflexivity|].
    change (1000 ^ Z.of_nat 0)%Z with 1%Z. rewrite Z.mul_1_r. split; lia.
  - assert (Hpos : (0 <? S j)%nat = true) by reflexivity.
    rewrite Hpos. cbn [andb].
    assert (HK : (Z.pos P = 10 * (100 * 1000 ^ Z.of_nat j))%Z).
    { rewrite HP, Nat2Z.inj_succ, Z.pow_succ_r by lia. lia. }
    assert (Hpow : (0 < 1000 ^ Z.of_nat j)%Z) by (apply Z.pow_pos_nonneg; lia).
    assert (HPn : (Z.pos P <= n)%Z) by (apply Hhi; lia).
    assert (Hlt : js_lt (Num (n # P)) (num 10) = negb (10 * Z.pos P <=? n)%Z).
    { unfold js_lt, js_gt, num, Qle_bool, inject_Z. cbn [Qnum Qden].
      now rewrite Z.mul_1_r. }
    rewrite Hlt.
    destruct (Z.leb_spec (10 * Z.pos P) n) as [Hbig|Hsmall]; cbn [negb].
    + unfold rounded_text. rewrite Qfloor_frac_half.
      set (r := ((2 * n + Z.pos P) / (2 * Z.pos P))%Z).
      assert (Hr : (0 <= r)%Z) by (apply Z.div_pos; lia).
      unfold integer_text.
      destruct (Z.ltb_spec r 0) as [Hneg|_]; [lia|].
      rewrite (@parse_rounded r (S j)) by lia.
      exists (r * 1000 ^ Z.of_nat (S j))%Z. split; [reflexivity|].
      assert (Hm : (r * 1000 ^ Z.of_nat (S j) = Z.pos P * r)%Z) by (rewrite HP; lia).
      rewrite Hm.
      pose proof (@Z.mul_div_le (2 * n + Z.pos P) (2 * Z.pos P)) as H1.
      pose proof (@Z.mul_succ_div_gt (2 * n + Z.pos P) (2 * Z.pos P)) as H2.
      fold r in H1, H2.
      assert (Hb1 : (2 * (Z.pos P * r) <= 2 * n + Z.pos P)%Z) by lia.
      assert (Hb2 : (2 * n + Z.pos P < 2 * (Z.pos P * r) + 2 * Z.pos P)%Z) by lia.
      split; lia.
    + unfold toFixed1.
      assert (Hnn : Qle_bool 0 (n # P) = true).
      { unfold Qle_bool. cbn [Qnum Qden]. apply Z.leb_le. lia. }
      rewrite Hnn. cbn [negb app].
      assert (Hmul : (n # P) * 10 = (n * 10 # P * 1)) by reflexivity.
      rewrite Hmul, Qfloor_frac_half.
      set (t := ((2 * (n * 10) + Z.pos (P * 1)) / (2 * Z.pos (P * 1)))%Z).
      assert (Ht : (0 <= t)%Z) by (apply Z.div_pos; lia).
      rewrite (@parse_fixed t j) by lia.
      exists (t * (100 * 1000 ^ Z.of_nat j))%Z. split; [reflexivity|].
      pose proof (@Z.mul_div_le (2 * (n * 10) + Z.pos (P * 1)) (2 * Z.pos (P * 1))) as H1.
      pose proof (@Z.mul_succ_div_gt (2 * (n * 10) + Z.pos (P * 1)) (2 * Z.pos (P * 1))) as H2.
      fold t in H1, H2.
      set (K := (100 * 1000 ^ Z.of_nat j)%Z) in *.
      assert (HP' : Z.pos (P * 1) = (10 * K)%Z) by lia.
      rewrite HP' in H1, H2.
      assert (Hb1 : (20 * (t * K) <= 20 * n + 10 * K)%Z) by lia.
      assert (Hb2 : (20 * n + 10 * K < 20 * (t * K) + 20 * K)%Z) by lia.
      split; lia.
Qed.

Lemma formatBytes_round_trip_witness :
  exists m,
    parseDockerSize (Some (formatBytes (num 1234567))) = num m
    /\ (20 * Z.abs (m - 1234567) <= 1234567)%Z
    /\ ((1234567 < 1000)%Z -> m = 1234567%Z).
Proof. apply (@formatBytes_round_trip 1234567). split; [lia|]. reflexivity. Defined.

(** ** index.ts: the kinds of a run *)

Lemma resolveResources_filter (cli : CliOptions) :
  resolveResources cli
  = filter (includes (resolveResources cli)) [containers; images; volumes; networks; cache].
Proof.
  destruct cli as [c i v n ca d a]. unfold resolveResources. cbn [opt_all opt_dangling
    opt_containers opt_images opt_volumes opt_networks opt_cache].
  destruct a; [reflexivity|]. destruct d; [reflexivity|].
  destruct c, i, v, n, ca; reflexivity.
Qed.

(** X22.  Whatever the flags, [resolveResources] returns at least one
    kind, no kind twice, and the kinds in the order containers, images,
    volumes, networks, cache. *)
Theorem resolveResources_canonical (cli : CliOptions) :
  resolveResources cli <> []
  /\ NoDup (resolveResources cli)
  /\ resolveResources cli
     = filter (includes (resolveResources cli)) [containers; images; volumes; networks; cache].
Proof.
  split; [|split; [|apply resolveResources_filter]].
  - destruct cli as [c i v n ca d a]. unfold resolveResources. cbn [opt_all opt_dangling
      opt_containers opt_images opt_volumes opt_networks opt_cache].
    destruct a; [discriminate|]. destruct d; [discriminate|].
    destruct c, i, v, n, ca; discriminate.
  - rewrite resolveResources_filter. apply NoDup_filter.
    repeat constructor; simpl; intuition discriminate.
Qed.

Lemma requestedKinds_scanOptionsFor (r : list ResourceType) ms all top limit :
  requestedKinds (scanOptionsFor r ms all top limit)
  = filter (includes r) [containers; images; volumes; networks; cache].
Proof.
  unfold requestedKinds, scanOptionsFor.
  cbn [includeContainers includeImages includeVolumes includeNetworks includeCache filter].
  destruct (includes r containers), (includes r images), (includes r volumes),
    (includes r networks), (includes r cache); reflexivity.
Qed.

(** X23.  The scan that [run] starts from the resolved kinds returns
    one summary for each resolved kind and no other, in the order of
    [resolveResources]. *)
Theorem scan_of_resolved_kinds `{Runtime} (cli : CliOptions)
  (ms : option number) (all : option bool) (top limit : option number)
  (st st' : State) (result : ScanResult) :
  scanResources (scanOptionsFor (resolveResources cli) ms all top limit) st = (Ok result, st') ->
  map type (summaries result) = resolveResources cli.
Proof.
  intros Hrun. apply scanResources_scanned in Hrun. destruct Hrun as [Hkinds _].
  rewrite Hkinds, requestedKinds_scanOptionsFor. symmetry. apply resolveResources_filter.
Qed.

Lemma scan_of_resolved_kinds_witness :
  exists result st',
    @scanResources demo
      (scanOptionsFor (resolveResources (mkCliOptions false true false false true false false))
         None None None None)
      (demo_state [Ok "ID=i1,Repository=<none>,Tag=<none>,Size=10MB"; Ok "Total reclaimable: 3MB"])
    = (Ok result, st')
    /\ map type (summaries result) = [images; cache].
Proof.
  eexists. eexists. split; [vm_compute; reflexivity|].
  eapply (@scan_of_resolved_kinds demo (mkCliOptions false true false false true false false)
            None None None None
            (demo_state [Ok "ID=i1,Repository=<none>,Tag=<none>,Size=10MB";
                         Ok "Total reclaimable: 3MB"])).
  vm_compute. reflexivity.
Defined.

Lemma requestedKinds_NoDup (options : ScanOptions) : NoDup (requestedKinds options).
Proof.
  unfold requestedKinds.
  destruct (includeContainers options), (includeImages options), (includeVolumes options),
    (includeNetworks options), (includeCache options);
    repeat constructor; simpl; intuition discriminate.
Qed.

Lemma expectedCounts_fold (l : list ResourceSummary) (acc : PerKind number) :
  NoDup (map type l) ->
  let counts :=
    fold_left (fun acc summary =>
                 set acc (type summary) (num (Z.of_nat (length (items summary))))) l acc in
  (forall s, In s l -> get counts (type s) = num (Z.of_nat (length (items s))))
  /\ (forall t, ~ In t (map type l) -> get counts t = get acc t).
Proof.
  revert acc. induction l as [|x l IH]; intros acc Hnd; cbn [fold_left].
  - split; [intros s []|reflexivity].
  - cbn [map] in Hnd. inversion Hnd as [|? ? Hx Hnd']; subst.
    destruct (IH (set acc (type x) (num (Z.of_nat (length (items x))))) Hnd') as [Hin Hout].
    split.
    + intros s [<-|Hs]; [|now apply Hin].
      rewrite (Hout _ Hx). apply get_set_same.
    + intros t Ht. cbn [map In] in Ht.
      rewrite Hout by tauto. apply get_set_other. intros ->. tauto.
Qed.

(** X24.  The expected counts that [run] derives from a scan: for
    the kind of each summary the number of its items, and zero for
    every kind that was not scanned. *)
Theorem expectedCounts_of_scan `{Runtime} (options : ScanOptions)
  (st st' : State) (result : ScanResult) :
  scanResources options st = (Ok result, st') ->
  (forall s, In s (summaries result) ->
     get (expectedCountsOf (summaries result)) (type s) = num (Z.of_nat (length (items s))))
  /\ (forall t, ~ In t (requestedKinds options) ->
        get (expectedCountsOf (summaries result)) t = num 0).
Proof.
  intros Hrun. apply scanResources_scanned in Hrun. destruct Hrun as [Hkinds _].
  assert (Hnd : NoDup (map type (summaries result))).
  { rewrite Hkinds. apply requestedKinds_NoDup. }
  destruct (@expectedCounts_fold (summaries result) (every (num 0)) Hnd) as [Hin Hout].
  split; [exact Hin|].
  intros t Ht. unfold expectedCountsOf. rewrite Hout by now rewrite Hkinds.
  destruct t; reflexivity.
Qed.

Lemma expectedCounts_of_scan_witness :
  exists result st',
    @scanResources demo (mkScanOptions true false false true true None None None None)
      (demo_state [Ok "ID=c1,State=Exited,Size=2MB
ID=c2,State=dead,Size=1MB"; Ok "ID=n1,Name=bridge"; Ok "Total reclaimable: 3MB"])
    = (Ok result, st')
    /\ get (expectedCountsOf (summaries result)) containers = num 2
    /\ get (expectedCountsOf (summaries result)) images = num 0.
Proof.
  eexists. eexists. split; [vm_compute; reflexivity|].
  edestruct (@expectedCounts_of_scan demo
               (mkScanOptions true false false true true None None None None)
               (demo_state [Ok "ID=c1,State=Exited,Size=2MB
ID=c2,State=dead,Size=1MB"; Ok "ID=n1,Name=bridge"; Ok "Total reclaimable: 3MB"]))
    as [Hin Hout].
  { vm_compute. reflexivity. }
  split.
  - refine (Hin _ (or_introl eq_refl)).
  - apply Hout. vm_compute. intuition discriminate.
Defined.

(** ** clean.ts: the two versions *)

(** X25.  Without selected identifiers the current [cleanResources]
    is the earlier, prune-only one: the same outcome and the same
    commands from every state, the estimated bytes playing no part. *)
Theorem cleanResources_without_selection `{Runtime} (options : CleanOptions) (st : State) :
  selectedIds options = None ->
  cleanResources options st = PruneOnly.cleanResources (earlier options) st.
Proof.
  intros Hsel. unfold cleanResources, PruneOnly.cleanResources. rewrite Hsel.
  cbn [earlier PruneOnly.dryRun PruneOnly.olderThanMs PruneOnly.resources is_none].
  destruct (dryRun options); [reflexivity|].
  unfold bind.
  destruct (filterUntilTimestamp (olderThanMs options) st) as [[fu|e] st1]; [|reflexivity].
  apply for_of_ext. intros x s st2. reflexivity.
Qed.

Lemma cleanResources_without_selection_witness :
  @cleanResources demo
    (mkCleanOptions [containers; images] None false true (every (num 2)) None
       (Some (every (num 500))))
    (demo_state [Ok "Deleted Containers:
abc
Total reclaimed space: 1.5MB"; Throw (ErrorObj "daemon gone")])
  = @PruneOnly.cleanResources demo
      (earlier (mkCleanOptions [containers; images] None false true (every (num 2)) None
                  (Some (every (num 500)))))
      (demo_state [Ok "Deleted Containers:
abc
Total reclaimed space: 1.5MB"; Throw (ErrorObj "daemon gone")]).
Proof. apply (@cleanResources_without_selection demo). reflexivity. Defined.
